(** * figma-mcp: the relay core

    A shallow embedding of the three components of the command relay:

    - [Hub]      : src/mcp_server/socket.ts, the channel registry and the
                   WebSocket [open] / [message] / [close] handlers;
    - [Executor] : src/figma_plugin/code.js, the [figma.ui.onmessage]
                   dispatcher over the [handlers] table;
    - [Issuer]   : src/mcp_server/server.ts, [connect], [sendCommand] and the
                   [pending] registry, as an event-driven state machine.

    JavaScript values are modelled by [JS.value]; a call
    [sock.send(JSON.stringify(v))] is recorded as an effect carrying [v].
    What belongs to the runtime and to the packages the code imports is
    either a parameter (number and object to string conversion, [uuidv4],
    the Figma plugin API behind the handlers) or modelled from its
    documented behaviour ([JSON.parse], [Map], [Set], promises, the
    [readyState] and [send] of a WebSocket).

    The models come first ([JS], [Hub], [Executor], [Issuer], [Relay]),
    their properties after ([HubFacts], [ExecutorFacts], [IssuerFacts]). *)

From Stdlib Require Import Floats.
From stdpp Require Import base strings list gmap pretty.

#[local] Set Warnings "-register-all".

(** ** JavaScript values *)

Module JS.

(** What [JSON.parse] can return, plus [undefined] (a missing property). A
    [VObj] lists the own properties of an object once each. *)
Inductive value : Type :=
| VUndefined
| VNull
| VBool (b : bool)
| VNum (f : float)
| VStr (s : string)
| VArr (elems : list value)
| VObj (props : list (string * value)).

(** Exceptions. [Error m] is [new Error(m)]; the other two are raised by the
    engine, their payload records what they were raised on. *)
Inductive exn : Type :=
| SyntaxError (input : string)
| TypeError (about : string)
| Error (message : string).

Inductive completion (A : Type) : Type :=
| Normal (a : A)
| Throw (e : exn).
Arguments Normal {A} a.
Arguments Throw {A} e.

(** ToBoolean: [undefined], [null], [false], [+0], [-0], [NaN] and the empty
    string are falsy. *)
Definition truthy (v : value) : bool :=
  match v with
  | VUndefined | VNull => false
  | VBool b => b
  | VNum f => negb (PrimFloat.eqb f 0%float || PrimFloat.is_nan f)
  | VStr s => negb (String.eqb s "")
  | VArr _ | VObj _ => true
  end.

Fixpoint own_property (props : list (string * value)) (k : string) : value :=
  match props with
  | [] => VUndefined
  | (k', v) :: rest => if String.eqb k' k then v else own_property rest k
  end.

(** [o.k] for the property names the relay reads ([type], [channel], [id],
    [message], [error], [result], [command], [params]): none of them is
    defined by a built-in prototype, so only own properties of objects
    answer; reading a property of [null] or [undefined] throws. *)
Definition prop (o : value) (k : string) : completion value :=
  match o with
  | VUndefined | VNull => Throw (TypeError k)
  | VObj props => Normal (own_property props k)
  | _ => Normal VUndefined
  end.

(** The same read where the source has already established that [o] is
    neither [null] nor [undefined]. *)
Definition field (o : value) (k : string) : value :=
  match o with
  | VObj props => own_property props k
  | _ => VUndefined
  end.

(** [v === "s"] *)
Definition is_string (v : value) (s : string) : bool :=
  match v with
  | VStr s' => String.eqb s' s
  | _ => false
  end.

(** SameValueZero on primitives, the key comparison of [Map] and [Set].
    Objects and arrays compare by identity, which a [value] does not carry:
    see [Hub.key]. *)
Definition same_value_zero (a b : value) : bool :=
  match a, b with
  | VUndefined, VUndefined => true
  | VNull, VNull => true
  | VBool x, VBool y => Bool.eqb x y
  | VNum x, VNum y =>
      PrimFloat.eqb x y || (PrimFloat.is_nan x && PrimFloat.is_nan y)
  | VStr x, VStr y => String.eqb x y
  | _, _ => false
  end.

Definition is_object (v : value) : bool :=
  match v with
  | VArr _ | VObj _ => true
  | _ => false
  end.

(** A transport frame as [JSON.parse] sees it: text that is valid JSON
    denotes a value, any other text makes [JSON.parse] throw. *)
Inductive raw_frame : Type :=
| Json (v : value)
| Malformed (text : string).

Definition JSON_parse (raw : raw_frame) : completion value :=
  match raw with
  | Json v => Normal v
  | Malformed text => Throw (SyntaxError text)
  end.

Section Conversions.
(** Number::toString and the ToPrimitive path of arrays and objects are the
    engine's. *)
Variable Number_toString : float -> string.
Variable Object_toString : value -> completion string.

(** ToString, as applied by a template literal [`${v}`] and by
    [new Error(v)]. *)
Definition ToString (v : value) : completion string :=
  match v with
  | VUndefined => Normal "undefined"
  | VNull => Normal "null"
  | VBool true => Normal "true"
  | VBool false => Normal "false"
  | VNum f => Normal (Number_toString f)
  | VStr s => Normal s
  | VArr _ | VObj _ => Object_toString v
  end.
End Conversions.

End JS.

(** ** The Relay Hub (socket.ts) *)

Module Hub.
Import JS.

(** A [ServerWebSocket] handle; two handles are the same endpoint iff equal. *)
Definition WS : Type := nat.

Definition WebSocket_OPEN : nat := 1.

(** A key of the [channels] map. A primitive is its own key; an object or
    array is a key by identity, named by the address it was given when it
    was stored. *)
Inductive key : Type :=
| KVal (v : value)
| KRef (addr : nat).

Definition key_eqb (a b : key) : bool :=
  match a, b with
  | KVal v, KVal w => same_value_zero v w
  | KRef x, KRef y => Nat.eqb x y
  | _, _ => false
  end.

(** [channels]: a [Map] from channel to the [Set] of its clients, both in
    insertion order. [next_ref] is the first address not yet given to a
    stored object key. *)
Record State : Type := mkState {
  channels : list (key * list WS);
  next_ref : nat;
}.

Inductive effect : Type :=
| Send (to : WS) (data : value)          (* to.send(JSON.stringify(data)) *)
| ConsoleLog (text : string) (args : list value)
| ConsoleError (text : string) (err : exn).

(** *** [Set] and [Map] operations *)

Definition Set_has (clients : list WS) (ws : WS) : bool :=
  existsb (Nat.eqb ws) clients.

Definition Set_add (clients : list WS) (ws : WS) : list WS :=
  if Set_has clients ws then clients else clients ++ [ws].

Definition Set_delete (clients : list WS) (ws : WS) : list WS :=
  filter (fun c => c ≠ ws) clients.

Fixpoint Map_get (m : list (key * list WS)) (k : key) : option (list WS) :=
  match m with
  | [] => None
  | (k', s) :: rest => if key_eqb k' k then Some s else Map_get rest k
  end.

Definition Map_has (m : list (key * list WS)) (k : key) : bool :=
  match Map_get m k with Some _ => true | None => false end.

Fixpoint Map_set (m : list (key * list WS)) (k : key) (s : list WS)
  : list (key * list WS) :=
  match m with
  | [] => [(k, s)]
  | (k', s') :: rest =>
      if key_eqb k' k then (k', s) :: rest else (k', s') :: Map_set rest k s
  end.

(** The key a freshly parsed [ch] denotes: an object has an identity no
    stored key shares. *)
Definition key_of (st : State) (ch : value) : key :=
  if is_object ch then KRef (next_ref st) else KVal ch.

(** *** Handler monad: registry state, effects in order, exceptions *)

Definition M (A : Type) : Type := State -> completion A * State * list effect.

Definition ret {A} (a : A) : M A := fun st => (Normal a, st, []).

Definition bind {A B} (f : A -> M B) (m : M A) : M B :=
  fun st =>
    match m st with
    | (Normal a, st1, out1) =>
        let '(r, st2, out2) := f a st1 in (r, st2, out1 ++ out2)
    | (Throw e, st1, out1) => (Throw e, st1, out1)
    end.

#[global] Instance M_ret : MRet M := @ret.
#[global] Instance M_bind : MBind M := @bind.

Definition lift {A} (c : completion A) : M A := fun st => (c, st, []).
Definition emit (e : effect) : M unit := fun st => (Normal tt, st, [e]).
Definition get_channels : M (list (key * list WS)) :=
  fun st => (Normal (channels st), st, []).
Definition put_channels (m : list (key * list WS)) : M unit :=
  fun st => (Normal tt, mkState m (next_ref st), []).
Definition the_key (ch : value) : M key :=
  fun st => (Normal (key_of st ch), st, []).
(** Storing [k] in the map retains the object behind a [KRef]. *)
Definition retain (k : key) : M unit :=
  fun st =>
    match k with
    | KRef a => (Normal tt, mkState (channels st) (Nat.max (next_ref st) (S a)), [])
    | KVal _ => (Normal tt, st, [])
    end.

(** [try { body } catch (err) { handler(err) }] *)
Definition try_catch (body : M unit) (handler : exn -> M unit) : M unit :=
  fun st =>
    match body st with
    | (Normal a, st1, out1) => (Normal a, st1, out1)
    | (Throw e, st1, out1) =>
        let '(r, st2, out2) := handler e st1 in (r, st2, out1 ++ out2)
    end.

Fixpoint forEach {A} (l : list A) (f : A -> M unit) : M unit :=
  match l with
  | [] => ret tt
  | x :: rest => f x ;; forEach rest f
  end.

Definition obj (props : list (string * value)) : value := VObj props.

Section Handlers.
Variable Number_toString : float -> string.
Variable Object_toString : value -> completion string.
(** [client.readyState], as the sockets stand while one handler runs. *)
Variable readyState : WS -> nat.

Definition template (v : value) : M string :=
  lift (ToString Number_toString Object_toString v).

Definition send_if_open (client : WS) (data : value) : M unit :=
  if Nat.eqb (readyState client) WebSocket_OPEN
  then emit (Send client data) else ret tt.

(** [broadcast(channelName, data, exclude)] *)
Definition broadcast (channelName : key) (data : value) (exclude : option WS)
  : M unit :=
  m ← get_channels;
  match Map_get m channelName with
  | None => ret tt
  | Some clients =>
      forEach clients (fun client =>
        if bool_decide (Some client ≠ exclude)
        then send_if_open client data else ret tt)
  end.

(** [removeFromChannels(ws)] *)
Definition removeFromChannels (ws : WS) : M unit :=
  m ← get_channels;
  forEach m (fun '(channelName, _) =>
    m' ← get_channels;
    match Map_get m' channelName with
    | Some clients =>
        if Set_has clients ws then
          put_channels (Map_set m' channelName (Set_delete clients ws)) ;;
          broadcast channelName
            (obj [("type", VStr "system");
                  ("message", VStr "A user has left the channel")]) None
        else ret tt
    | None => ret tt
    end).

(** The [if (data.type === "join")] block. *)
Definition on_join (ws : WS) (data : value) : M unit :=
  let ch := field data "channel" in
  if negb (truthy ch) then
    emit (Send ws (obj [("type", VStr "error");
                        ("message", VStr "channel is required")]))
  else
    k ← the_key ch;
    m ← get_channels;
    (if Map_has m k then ret tt
     else (put_channels (Map_set m k []) ;; retain k)) ;;
    m ← get_channels;
    match Map_get m k with
    | None => lift (Throw (TypeError "add"))
    | Some clients => put_channels (Map_set m k (Set_add clients ws))
    end ;;
    s ← template ch;
    emit (Send ws (obj [("type", VStr "system");
                        ("message", VStr ("Joined channel: " +:+ s));
                        ("channel", ch)])) ;;
    s ← template ch;
    emit (Send ws (obj [("type", VStr "system");
                        ("message", obj [("id", field data "id");
                                         ("result", VStr ("Connected to channel: " +:+ s))]);
                        ("channel", ch)])) ;;
    broadcast k (obj [("type", VStr "system");
                      ("message", VStr "A new user joined");
                      ("channel", ch)]) (Some ws) ;;
    s ← template ch;
    emit (ConsoleLog ("[WS] Client joined channel: " +:+ s) []).

(** The [if (data.type === "message")] block. *)
Definition on_message (ws : WS) (data : value) : M unit :=
  let ch := field data "channel" in
  k ← the_key ch;
  m ← get_channels;
  match Map_get m k with
  | Some clients =>
      if Set_has clients ws then
        s ← template ch;
        emit (ConsoleLog ("[WS] Broadcasting to channel " +:+ s +:+ ":")
                         [field data "message"]) ;;
        forEach clients (fun client =>
          send_if_open client
            (obj [("type", VStr "broadcast");
                  ("message", field data "message");
                  ("sender", VStr (if Nat.eqb client ws then "You" else "Remote"));
                  ("channel", ch)]))
      else
        emit (Send ws (obj [("type", VStr "error");
                            ("message", VStr "Join a channel first")]))
  | None =>
      emit (Send ws (obj [("type", VStr "error");
                          ("message", VStr "Join a channel first")]))
  end.

(** The body of the [try] in [websocket.message]. *)
Definition message_try (ws : WS) (raw : raw_frame) : M unit :=
  data ← lift (JSON_parse raw);
  ty ← lift (prop data "type");
  if is_string ty "join" then on_join ws data
  else if is_string ty "message" then on_message ws data
  else ret tt.

(** [websocket.message(ws, raw)] *)
Definition message (ws : WS) (raw : raw_frame) : M unit :=
  try_catch (message_try ws raw)
            (fun err => emit (ConsoleError "[WS] Parse error:" err)).

(** [websocket.open(ws)] *)
Definition open (ws : WS) : M unit :=
  emit (ConsoleLog "[WS] New client connected" []) ;;
  emit (Send ws (obj [("type", VStr "system");
                      ("message", VStr "Connected. Join a channel to start.")])).

(** [websocket.close(ws)] *)
Definition close (ws : WS) : M unit :=
  emit (ConsoleLog "[WS] Client disconnected" []) ;;
  removeFromChannels ws.

End Handlers.

(** What a handler run leaves behind. *)
Definition completion_of {A} (r : completion A * State * list effect) : completion A :=
  r.1.1.
Definition state_of {A} (r : completion A * State * list effect) : State := r.1.2.
Definition effects_of {A} (r : completion A * State * list effect) : list effect := r.2.

(** The frames a run sends to endpoint [w], in order. *)
Definition sent_to (w : WS) (out : list effect) : list value :=
  omap (fun e => match e with
                 | Send to data => if Nat.eqb to w then Some data else None
                 | _ => None
                 end) out.

(** [ws] is in the member set of channel [ch]. *)
Definition member (st : State) (ch : value) (ws : WS) : bool :=
  match Map_get (channels st) (key_of st ch) with
  | Some clients => Set_has clients ws
  | None => false
  end.

(** Every member set is a set: no endpoint is listed twice. *)
Definition wf (st : State) : Prop :=
  Forall (fun p => NoDup p.2) (channels st).

(** The relay envelope the [message] block builds for recipient [w]. *)
Definition broadcast_envelope (ws : WS) (ch m : value) (w : WS) : value :=
  obj [("type", VStr "broadcast");
       ("message", m);
       ("sender", VStr (if Nat.eqb w ws then "You" else "Remote"));
       ("channel", ch)].

Definition error_notice (text : string) : value :=
  obj [("type", VStr "error"); ("message", VStr text)].

(** *** Runs of the Hub *)

Inductive event : Type :=
| Open (ws : WS)
| Message (ws : WS) (raw : raw_frame)
| Close (ws : WS).

Section Runs.
Variable Number_toString : float -> string.
Variable Object_toString : value -> completion string.

(** One transport event, handled while the sockets stand as [readyState]. *)
Definition handle (readyState : WS → nat) (ev : event) : M unit :=
  match ev with
  | Open ws => open ws
  | Message ws raw => message Number_toString Object_toString readyState ws raw
  | Close ws => close readyState ws
  end.

Definition initial : State := mkState [] 0.

Fixpoint run (evs : list ((WS → nat) * event)) (st : State) : State :=
  match evs with
  | [] => st
  | (readyState, ev) :: rest => run rest (state_of (handle readyState ev st))
  end.

(** The registries the Hub can hold. *)
Definition reachable (st : State) : Prop :=
  exists evs, st = run evs initial.
End Runs.

(** *** A two-endpoint scenario *)

(** Stand-ins for the engine's conversions where a concrete run needs them. *)
Definition sample_Number_toString (f : float) : string := "1".
Definition sample_Object_toString (v : value) : completion string :=
  Normal "[object Object]".

Definition endpointA : WS := 0.
Definition endpointB : WS := 1.
Definition endpointC : WS := 2.

Definition join_frame (c : string) : raw_frame :=
  Json (obj [("type", VStr "join"); ("channel", VStr c); ("id", VStr "j1")]).

Definition message_frame (c : string) (m : value) : raw_frame :=
  Json (obj [("type", VStr "message"); ("channel", VStr c); ("message", m)]).

Definition foo1 : value := obj [("foo", VNum 1%float)].

Definition all_open : WS -> nat := fun _ => WebSocket_OPEN.

(** [endpointB] is CLOSING (readyState 2), its [close] not yet handled. *)
Definition B_closing : WS -> nat :=
  fun w => if Nat.eqb w endpointB then 2 else WebSocket_OPEN.

(** Both endpoints connected and joined "c1". *)
Definition two_joined : State :=
  run sample_Number_toString sample_Object_toString
    [(all_open, Open endpointA); (all_open, Open endpointB);
     (all_open, Message endpointA (join_frame "c1"));
     (all_open, Message endpointB (join_frame "c1"))]
    initial.

(** The delivery clause of the spec, read literally: every current member
    of [c] is sent exactly the relay envelope. *)
Definition delivers_to_every_member
    (readyState : WS -> nat) (st : State) (ws : WS) (c : string) (m : value)
  : Prop :=
  forall w, member st (VStr c) w = true ->
    sent_to w (effects_of
      (message sample_Number_toString sample_Object_toString readyState
         ws (message_frame c m) st))
    = [broadcast_envelope ws (VStr c) m w].

(** *** The registry after a join and after a close *)

(** Every stored key finds its own entry: it equals itself, and no key
    stored before it equals it. *)
Fixpoint keys_ok (m : list (key * list WS)) : Prop :=
  match m with
  | [] => True
  | (k, _) :: rest =>
      key_eqb k k = true /\ Forall (fun p => key_eqb k p.1 = false) rest /\
      keys_ok rest
  end.

(** [clients.add(ws)] on the set of channel [k], the channel made first
    when the map does not have it. *)
Definition joined (m : list (key * list WS)) (k : key) (ws : WS)
  : list (key * list WS) :=
  match Map_get m k with
  | Some clients => Map_set m k (Set_add clients ws)
  | None => m ++ [(k, [ws])]
  end.

(** [clients.delete(ws)] in every channel. *)
Definition without (ws : WS) (m : list (key * list WS)) : list (key * list WS) :=
  map (fun p => (p.1, Set_delete p.2 ws)) m.

Definition joined_ack (ch : value) (s : string) : value :=
  obj [("type", VStr "system"); ("message", VStr ("Joined channel: " +:+ s));
       ("channel", ch)].

Definition connected_ack (ch id : value) (s : string) : value :=
  obj [("type", VStr "system");
       ("message", obj [("id", id);
                        ("result", VStr ("Connected to channel: " +:+ s))]);
       ("channel", ch)].

Definition joined_notice (ch : value) : value :=
  obj [("type", VStr "system"); ("message", VStr "A new user joined");
       ("channel", ch)].

Definition left_notice : value :=
  obj [("type", VStr "system"); ("message", VStr "A user has left the channel")].

(** The clients [broadcast] sends to. *)
Definition recipients (readyState : WS -> nat) (clients : list WS)
    (exclude : option WS) : list WS :=
  filter (fun c => readyState c = WebSocket_OPEN)
    (match exclude with Some x => Set_delete clients x | None => clients end).

(** The callback of [channels.forEach] in [removeFromChannels]. *)
Definition leave_one (readyState : WS -> nat) (ws : WS)
  : key * list WS -> M unit :=
  fun '(channelName, _) =>
    m' ← get_channels;
    match Map_get m' channelName with
    | Some clients =>
        if Set_has clients ws then
          put_channels (Map_set m' channelName (Set_delete clients ws)) ;;
          broadcast readyState channelName
            (obj [("type", VStr "system");
                  ("message", VStr "A user has left the channel")]) None
        else ret tt
    | None => ret tt
    end.

(** What [removeFromChannels(ws)] sends, channel by channel. *)
Definition leave_effects (readyState : WS -> nat) (ws : WS)
    (m : list (key * list WS)) : list effect :=
  flat_map (fun p =>
    if Set_has p.2 ws
    then (fun c => Send c left_notice)
           <$> filter (fun c => readyState c = WebSocket_OPEN) (Set_delete p.2 ws)
    else []) m.

(** The number of channels that hold both [ws] and [w]. *)
Definition shared_channels (st : State) (ws w : WS) : nat :=
  length (filter (fun p => Set_has p.2 ws && Set_has p.2 w = true) (channels st)).

(** *** What a run of the Hub sends *)

Definition endpoint_of (ev : event) : WS :=
  match ev with
  | Open ws | Message ws _ | Close ws => ws
  end.

(** [ws] is in no member set. *)
Definition absent (ws : WS) (st : State) : Prop :=
  Forall (fun p => Set_has p.2 ws = false) (channels st).

Section Effects.
Variable Number_toString : float -> string.
Variable Object_toString : value -> completion string.

(** The effects of the handlers of a run, in order. *)
Fixpoint run_effects (evs : list ((WS → nat) * event)) (st : State)
  : list effect :=
  match evs with
  | [] => []
  | (readyState, ev) :: rest =>
      let r := handle Number_toString Object_toString readyState ev st in
      effects_of r ++ run_effects rest (state_of r)
  end.
End Effects.

End Hub.

(** ** The Command Executor (figma_plugin/code.js) *)

Module Executor.
Import JS.

(** The own keys of the [handlers] object literal. *)
Definition handler_names : list string :=
  ["get_document_info"; "get_selection"; "get_node_info"; "get_nodes_info";
   "get_styles"; "get_local_components"; "create_rectangle"; "create_text";
   "create_frame"; "set_fill_color"; "move_node"; "resize_node";
   "delete_node"; "set_text_content"; "export_node_as_image"].

(** [handlers] is a plain object: a lookup that misses its own keys falls
    through to what [Object.prototype] provides. *)
Definition Object_prototype_names : list string :=
  ["constructor"; "hasOwnProperty"; "isPrototypeOf"; "propertyIsEnumerable";
   "toLocaleString"; "toString"; "valueOf"; "__proto__";
   "__defineGetter__"; "__defineSetter__"; "__lookupGetter__";
   "__lookupSetter__"].

Inductive handler_ref : Type :=
| Own (name : string)
| Inherited (name : string).

Definition has_name (names : list string) (k : string) : bool :=
  existsb (String.eqb k) names.

(** [handlers[k]]; [None] is [undefined]. Every property found is truthy. *)
Definition handlers_get (k : string) : option handler_ref :=
  if has_name handler_names k then Some (Own k)
  else if has_name Object_prototype_names k then Some (Inherited k)
  else None.

(** How [await Promise.resolve(handler(params))] ends. *)
Inductive outcome : Type :=
| Returned (result : value)
| Threw (err : exn).

Inductive effect : Type :=
| PostMessage (data : value).       (* figma.ui.postMessage(data) *)

Section Dispatch.
(** The document and plugin runtime the handlers act on, and what calling
    a property of [handlers] with [params] does there: both belong to the
    Figma plugin API. *)
Variable World : Type.
Variable call : handler_ref -> value -> World -> outcome * World.
Variable Number_toString : float -> string.
Variable Object_toString : value -> completion string.
(** The [message] of an exception raised by the engine. *)
Variable engine_message : exn -> string.

(** [err.message] *)
Definition message_of (err : exn) : value :=
  match err with
  | Error m => VStr m
  | _ => VStr (engine_message err)
  end.

(** The body of the [try]: lookup, guard, call. *)
Definition dispatch (command params : value) (w : World) : outcome * World :=
  match ToString Number_toString Object_toString command with
  | Throw e => (Threw e, w)
  | Normal k =>
      match handlers_get k with
      | None => (Threw (Error ("Unknown command: " +:+ k)), w)
      | Some handler => call handler params w
      end
  end.

(** [figma.ui.onmessage]. [Throw] is a rejection of the promise the async
    function returns. *)
Definition onmessage (msg : value) (w : World)
  : completion unit * World * list effect :=
  match prop msg "type" with
  | Throw e => (Throw e, w, [])
  | Normal ty =>
      if negb (is_string ty "figma_command") then (Normal tt, w, [])
      else
        let id := field msg "id" in
        let command := field msg "command" in
        let params := match field msg "params" with
                      | VUndefined => VObj []
                      | p => p
                      end in
        match dispatch command params w with
        | (Returned result, w') =>
            (Normal tt, w', [PostMessage (VObj [("id", id); ("result", result)])])
        | (Threw err, w') =>
            (Normal tt, w', [PostMessage (VObj [("id", id); ("error", message_of err)])])
        end
  end.

End Dispatch.

(** A command envelope as ui.html forwards it. *)
Definition command_envelope (id command : string) (params : value) : value :=
  VObj [("type", VStr "figma_command"); ("id", VStr id);
        ("command", VStr command); ("params", params)].

(** The reply the spec words for an unmatched command. *)
Definition spec_unknown_reply (id : value) : value :=
  VObj [("id", id); ("error", VStr "unknown command")].

(** A stand-in runtime for concrete runs: the world counts handler calls;
    [get_node_info] throws as on a missing node, every other property
    returns its name. *)
Definition sample_call (h : handler_ref) (params : value) (w : nat)
  : outcome * nat :=
  match h with
  | Own "get_node_info" => (Threw (Error "Node not found: 1:2"), S w)
  | Own name => (Returned (VStr name), S w)
  | Inherited name => (Returned (VStr name), S w)
  end.

Definition sample_engine_message (e : exn) : string := "TypeError".

End Executor.

(** ** The node handlers of the Executor (figma_plugin/code.js) *)

(** The handlers that look a node up by id and run without suspending:
    [get_node_info], [get_nodes_info], [set_fill_color], [move_node],
    [resize_node] and [delete_node]. The document they act on is the
    Figma plugin API's; what the handlers need of it is taken as given. *)

Module Handlers.
Import JS Executor.

(** A handler body: it reads and writes the document and may throw. *)
Definition H (World A : Type) : Type := World -> completion A * World.

Definition ret {World A} (a : A) : H World A := fun w => (Normal a, w).

Definition bind {World A B} (f : A -> H World B) (m : H World A) : H World B :=
  fun w =>
    match m w with
    | (Normal a, w1) => f a w1
    | (Throw e, w1) => (Throw e, w1)
    end.

#[global] Instance H_ret {World} : MRet (H World) := @ret World.
#[global] Instance H_bind {World} : MBind (H World) := @bind World.

Definition throw {World A} (e : exn) : H World A := fun w => (Throw e, w).
Definition lift {World A} (c : completion A) : H World A := fun w => (c, w).
(** An operation that reads the document and leaves it as it is. *)
Definition read {World A} (f : World -> completion A) : H World A :=
  fun w => (f w, w).

Fixpoint mapM {World A B} (f : A -> H World B) (l : list A) : H World (list B) :=
  match l with
  | [] => ret []
  | x :: rest => y ← f x; ys ← mapM f rest; ret (y :: ys)
  end.

(** [v ?? d] *)
Definition or_else (v d : value) : value :=
  match v with
  | VUndefined | VNull => d
  | _ => v
  end.

(** How [await Promise.resolve(handler(params))] ends for a handler that
    does not suspend. *)
Definition finish {World} (r : completion value * World) : outcome * World :=
  match r with
  | (Normal v, w) => (Returned v, w)
  | (Throw e, w) => (Threw e, w)
  end.

Section Api.
Variable World : Type.
Variable Node : Type.
(** [figma.getNodeById(id)]; [None] is [null]. *)
Variable getNodeById : value -> World -> completion (option Node).
(** ["k" in node] *)
Variable has : Node -> string -> World -> bool.
(** [node.k = v], [node.resize(w, h)], [node.remove()] *)
Variable assign : Node -> string -> value -> H World unit.
Variable resize : Node -> value -> value -> H World unit.
Variable remove : Node -> H World unit.
(** [serializeNode(node)] reads the node and its descendants. *)
Variable serializeNode : Node -> World -> completion value.
Variable Number_toString : float -> string.
Variable Object_toString : value -> completion string.
(** The properties of [handlers] that are not modelled here. *)
Variable other : handler_ref -> value -> World -> outcome * World.

(** [throw new Error(`Node not found: ${nodeId}`)] *)
Definition node_not_found {A} (nodeId : value) : H World A :=
  s ← lift (ToString Number_toString Object_toString nodeId);
  throw (Error ("Node not found: " +:+ s)).

Definition solid_fill (r g b a : value) : value :=
  VArr [VObj [("type", VStr "SOLID");
              ("color", VObj [("r", r); ("g", g); ("b", b)]);
              ("opacity", or_else a (VNum 1%float))]].

(** The parameter pattern [{ nodeId, ... }] throws on [null]; the names it
    binds are not defined by a built-in prototype. *)
Definition get_node_info (params : value) : H World value :=
  nodeId ← lift (prop params "nodeId");
  node ← read (getNodeById nodeId);
  match node with
  | None => node_not_found nodeId
  | Some n => read (serializeNode n)
  end.

Definition get_nodes_info (params : value) : H World value :=
  nodeIds ← lift (prop params "nodeIds");
  match nodeIds with
  | VArr ids =>
      entries ← mapM (fun id =>
        node ← read (getNodeById id);
        match node with
        | Some n => read (serializeNode n)
        | None => ret (VObj [("id", id); ("error", VStr "Not found")])
        end) ids;
      ret (VArr entries)
  | _ => throw (TypeError "map")
  end.

Definition set_fill_color (params : value) : H World value :=
  nodeId ← lift (prop params "nodeId");
  let color := field params "color" in
  node ← read (getNodeById nodeId);
  match node with
  | None => node_not_found nodeId
  | Some n =>
      present ← read (fun w => Normal (has n "fills" w));
      if negb present then throw (Error "Node does not support fills")
      else
        r ← lift (prop color "r");
        g ← lift (prop color "g");
        b ← lift (prop color "b");
        a ← lift (prop color "a");
        assign n "fills" (solid_fill r g b a) ;;
        ret (VObj [("success", VBool true); ("nodeId", nodeId)])
  end.

Definition move_node (params : value) : H World value :=
  nodeId ← lift (prop params "nodeId");
  let x := field params "x" in
  let y := field params "y" in
  node ← read (getNodeById nodeId);
  match node with
  | None => node_not_found nodeId
  | Some n =>
      present ← read (fun w => Normal (has n "x" w));
      if negb present then throw (Error "Node does not support position")
      else
        assign n "x" x ;;
        assign n "y" y ;;
        ret (VObj [("success", VBool true); ("nodeId", nodeId);
                   ("x", x); ("y", y)])
  end.

Definition resize_node (params : value) : H World value :=
  nodeId ← lift (prop params "nodeId");
  let width := field params "width" in
  let height := field params "height" in
  node ← read (getNodeById nodeId);
  match node with
  | None => node_not_found nodeId
  | Some n =>
      present ← read (fun w => Normal (has n "resize" w));
      if negb present then throw (Error "Node does not support resize")
      else
        resize n width height ;;
        ret (VObj [("success", VBool true); ("nodeId", nodeId);
                   ("width", width); ("height", height)])
  end.

Definition delete_node (params : value) : H World value :=
  nodeId ← lift (prop params "nodeId");
  node ← read (getNodeById nodeId);
  match node with
  | None => node_not_found nodeId
  | Some n =>
      remove n ;;
      ret (VObj [("success", VBool true); ("nodeId", nodeId)])
  end.

(** [e] is the entry [get_nodes_info] builds for [id]. *)
Definition answers (w : World) (id e : value) : Prop :=
  match getNodeById id w with
  | Normal (Some n) => serializeNode n w = Normal e
  | Normal None => e = VObj [("id", id); ("error", VStr "Not found")]
  | Throw _ => False
  end.

(** [handler(params)] for a property of [handlers]. *)
Definition call (h : handler_ref) (params : value) (w : World) : outcome * World :=
  match h with
  | Own name =>
      if String.eqb name "get_node_info" then finish (get_node_info params w)
      else if String.eqb name "get_nodes_info" then finish (get_nodes_info params w)
      else if String.eqb name "set_fill_color" then finish (set_fill_color params w)
      else if String.eqb name "move_node" then finish (move_node params w)
      else if String.eqb name "resize_node" then finish (resize_node params w)
      else if String.eqb name "delete_node" then finish (delete_node params w)
      else other h params w
  | Inherited _ => other h params w
  end.

(** [figma.ui.onmessage] over these handlers. *)
Definition onmessage (engine_message : exn -> string)
  : value -> World -> completion unit * World * list effect :=
  Executor.onmessage World call Number_toString Object_toString engine_message.

(** The guard of the handlers that write to a node: the property the
    node must have, and the error thrown when it does not. *)
Definition capability (command : string) : option (string * string) :=
  if String.eqb command "set_fill_color"
  then Some ("fills", "Node does not support fills")
  else if String.eqb command "move_node"
  then Some ("x", "Node does not support position")
  else if String.eqb command "resize_node"
  then Some ("resize", "Node does not support resize")
  else None.

End Api.

(** The handlers that throw when no node has the id they are given. *)
Definition by_node_id : list string :=
  ["get_node_info"; "set_fill_color"; "move_node"; "resize_node"; "delete_node"].

(** [params = {}] of the destructuring in [figma.ui.onmessage]. *)
Definition params_of (msg : value) : value :=
  match field msg "params" with
  | VUndefined => VObj []
  | p => p
  end.

(** A stand-in document for concrete runs: a node is named by a number;
    the document lists the ids of its nodes, the first a rectangle and the
    others pages, which have no position; assignments and calls on a node
    count up a revision number. *)
Definition sample_World : Type := list string * nat.

Definition sample_getNodeById (id : value) (w : sample_World)
  : completion (option nat) :=
  match id with
  | VStr s =>
      Normal (fst <$> list_find (String.eqb s) w.1)
  | _ => Throw (Error "getNodeById: expected a string")
  end.

Definition sample_has (n : nat) (k : string) (w : sample_World) : bool :=
  match n with
  | 0 => true
  | _ => negb (String.eqb k "x")
  end.

Definition sample_bump : H sample_World unit :=
  fun w => (Normal tt, (w.1, S w.2)).

Definition sample_serializeNode (n : nat) (w : sample_World) : completion value :=
  Normal (VObj [("id", VStr (default "" (w.1 !! n)));
                ("type", VStr (match n with 0 => "RECTANGLE" | _ => "PAGE" end))]).

Definition sample_other (h : handler_ref) (params : value) (w : sample_World)
  : outcome * sample_World :=
  (Returned VNull, w).

Definition sample_onmessage
  : value -> sample_World -> completion unit * sample_World * list effect :=
  onmessage sample_World nat sample_getNodeById sample_has
    (fun _ _ _ => sample_bump) (fun _ _ _ => sample_bump) (fun _ => sample_bump)
    sample_serializeNode Hub.sample_Number_toString Hub.sample_Object_toString
    sample_other sample_engine_message.

Definition sample_document : sample_World := (["1:2"; "1:3"], 0).

End Handlers.

(** ** The Command Issuer (mcp_server/server.ts) *)

(** The Issuer runs on one thread: a turn of the event loop, which is one
    call from a tool handler or one listener together with the
    continuations of the promises it resolves, runs to its end before the
    next event is delivered. The state below is what such turns share: the
    global [ws], the [pending] map, and for every call of [sendCommand]
    its socket, its promises and its timer. *)

Module Issuer.
Import JS.

Definition WS_URL : string := "ws://localhost:3055".
Definition CHANNEL : string := "figma-mcp".
Definition TIMEOUT_MS : N := 30000.

(** [readyState] of a client socket of the [ws] package. *)
Inductive ReadyState : Type := CONNECTING | OPEN | CLOSING | CLOSED.

(** The promise [connect()] returns. *)
Inductive connect_promise : Type :=
| ConnPending
| ConnFulfilled
| ConnRejected (err : exn).

(** A call of [resolve] or [reject] of the promise [sendCommand] builds. *)
Inductive settlement : Type :=
| Resolved (v : value)
| Rejected (e : exn).

(** One call of [sendCommand], numbered in call order. Its [connect()]
    either finds the socket open or makes a socket of its own, whose
    listeners close over this call's connect promise; that socket is named
    by the number of the call. *)
Record call : Type := mkCall {
  command : string;
  params : value;
  socket : option ReadyState;    (* the socket its connect() made, if any *)
  connected : connect_promise;
  correlation : option string;   (* [id], once [await connect()] returned *)
  timer : option N;              (* the armed [setTimeout] and when it is due *)
  settlements : list settlement; (* every resolve/reject call, oldest first *)
}.

Inductive level : Type := INFO | WARN | ERROR.

(** The two object literals the Issuer serialises and sends. *)
Inductive frame : Type :=
| JoinFrame (id : string)
| RequestFrame (id cmd : string) (ps : value).

(** The argument of [JSON.stringify] for each. *)
Definition payload (f : frame) : value :=
  match f with
  | JoinFrame id =>
      VObj [("type", VStr "join"); ("channel", VStr CHANNEL); ("id", VStr id)]
  | RequestFrame id cmd ps =>
      VObj [("type", VStr "message"); ("channel", VStr CHANNEL);
            ("message", VObj [("id", VStr id); ("command", VStr cmd);
                              ("params", ps)])]
  end.

Inductive effect : Type :=
| Transmit (sock : nat) (f : frame)       (* send(JSON.stringify(payload f)), socket OPEN *)
| Discard (sock : nat) (f : frame)        (* the same on a CLOSING or CLOSED socket *)
| Stderr (lv : level) (m : string)        (* log.info / log.warn / log.error *)
| PendingSet (id : string) (k : nat)      (* pending.set(id, handlers of call k) *)
| PendingDelete (id : string) (existed : bool).   (* pending.delete(id) *)

Record State : Type := mkState {
  ws : option nat;               (* the global [ws]: null or a socket *)
  calls : list call;
  pending : gmap string nat;     (* correlation id to the call that waits on it *)
  uuids : nat;                   (* how many times uuidv4() was called *)
  now : N;                       (* milliseconds *)
  trace : list effect;
}.

Inductive result : Type :=
| Running (st : State)
| Crashed (e : exn).             (* an exception escaped an event listener *)

Definition initial : State := mkState None [] ∅ 0 0 [].

Definition set_ws (w : option nat) (st : State) : State :=
  mkState w (calls st) (pending st) (uuids st) (now st) (trace st).
Definition set_calls (cs : list call) (st : State) : State :=
  mkState (ws st) cs (pending st) (uuids st) (now st) (trace st).
Definition set_pending (p : gmap string nat) (st : State) : State :=
  mkState (ws st) (calls st) p (uuids st) (now st) (trace st).
Definition set_uuids (n : nat) (st : State) : State :=
  mkState (ws st) (calls st) (pending st) n (now st) (trace st).
Definition set_now (t : N) (st : State) : State :=
  mkState (ws st) (calls st) (pending st) (uuids st) t (trace st).
Definition emit (out : list effect) (st : State) : State :=
  mkState (ws st) (calls st) (pending st) (uuids st) (now st) (trace st ++ out).
Definition update_call (k : nat) (f : call -> call) (st : State) : State :=
  set_calls (alter f k (calls st)) st.

Definition with_socket (r : option ReadyState) (c : call) : call :=
  mkCall (command c) (params c) r (connected c) (correlation c) (timer c)
    (settlements c).
Definition with_connected (p : connect_promise) (c : call) : call :=
  mkCall (command c) (params c) (socket c) p (correlation c) (timer c)
    (settlements c).
Definition with_correlation (i : option string) (c : call) : call :=
  mkCall (command c) (params c) (socket c) (connected c) i (timer c)
    (settlements c).
Definition with_timer (t : option N) (c : call) : call :=
  mkCall (command c) (params c) (socket c) (connected c) (correlation c) t
    (settlements c).
Definition settle (o : settlement) (c : call) : call :=
  mkCall (command c) (params c) (socket c) (connected c) (correlation c)
    (timer c) (settlements c ++ [o]).

(** The state of the promise a caller of [sendCommand] holds: the first
    settlement wins; a rejected [connect()] rejects the call itself. *)
Definition outcome (c : call) : option settlement :=
  match connected c with
  | ConnRejected e => Some (Rejected e)
  | _ => head (settlements c)
  end.

Definition readyState (st : State) (s : nat) : option ReadyState :=
  c ← calls st !! s; socket c.

(** [sock.send(data)] of the [ws] package: throws while CONNECTING, writes
    to the wire when OPEN, and otherwise drops the data (no callback is
    passed here). *)
Definition socket_send (st : State) (s : nat) (frame : frame)
  : completion (list effect) :=
  match readyState st s with
  | Some CONNECTING =>
      Throw (Error "WebSocket is not open: readyState 0 (CONNECTING)")
  | Some OPEN => Normal [Transmit s frame]
  | Some CLOSING | Some CLOSED => Normal [Discard s frame]
  | None => Normal []
  end.

(** [ws!.send(data)] through the global. *)
Definition ws_send (st : State) (frame : frame) : completion (list effect) :=
  match ws st with
  | None => Throw (TypeError "send")
  | Some s => socket_send st s frame
  end.

(** [pending.get(id)]: the keys are strings, so only a string finds one. *)
Definition pending_get (st : State) (id : value) : option (string * nat) :=
  match id with
  | VStr i => k ← pending st !! i; Some (i, k)
  | _ => None
  end.

(** [handler.resolve(v)] / [handler.reject(e)] of call [k]:
    [clearTimeout(timer)], then settle. *)
Definition handler_settle (k : nat) (o : settlement) (st : State) : State :=
  update_call k (fun c => settle o (with_timer None c)) st.

(** [pending.delete(id)] *)
Definition pending_delete (id : string) (st : State) : State :=
  emit [PendingDelete id (bool_decide (is_Some (pending st !! id)))]
    (set_pending (delete id (pending st)) st).

Section Machine.
(** [uuidv4()]: the n-th identifier drawn. *)
Variable uuidv4 : nat -> string.
Variable Number_toString : float -> string.
Variable Object_toString : value -> completion string.

(** [setTimeout(..., TIMEOUT_MS)] and [pending.set(id, ...)] for call [k]. *)
Definition register (k : nat) (id : string) (st : State) : State :=
  let st := update_call k (fun c => with_timer (Some (now st + TIMEOUT_MS)%N)
                                      (with_correlation (Some id) c)) st in
  emit [PendingSet id k] (set_pending (<[id := k]> (pending st)) st).

(** [sendCommand] after [await connect()], for call [k]: draw the id, arm
    the timer, register, transmit. An exception of [send] is thrown inside
    the promise executor and so rejects the promise. *)
Definition sendCommand_resume (k : nat) (st : State) : State :=
  match calls st !! k with
  | None => st
  | Some c =>
      let id := uuidv4 (uuids st) in
      let st := register k id (set_uuids (S (uuids st)) st) in
      match ws_send st (RequestFrame id (command c) (params c)) with
      | Normal out => emit out st
      | Throw e => update_call k (settle (Rejected e)) st
      end
  end.

(** The executor of the promise [connect()] returns, run for call [k]:
    either the global socket is open and the promise resolves at once, or a
    new socket is made the global one and the four listeners are attached
    to it. *)
Definition connect (k : nat) (st : State) : State :=
  match ws st ≫= readyState st with
  | Some OPEN => update_call k (with_connected ConnFulfilled) st
  | _ => set_ws (Some k) (update_call k (with_socket (Some CONNECTING)) st)
  end.

(** The default of the second parameter: [params = {}]. *)
Definition or_default (ps : value) : value :=
  match ps with
  | VUndefined => VObj []
  | _ => ps
  end.

(** [sendCommand(cmd, ps)] up to its first suspension: [await connect()]
    returns in the same turn exactly when the promise is already resolved. *)
Definition sendCommand (cmd : string) (ps : value) (st : State) : State :=
  let k := length (calls st) in
  let st := connect k (set_calls (calls st ++ [mkCall cmd (or_default ps) None
                                                 ConnPending None None []]) st) in
  match connected <$> calls st !! k with
  | Some ConnFulfilled => sendCommand_resume k st
  | _ => st
  end.

(** The [once("open")] listener of socket [s], and the continuation of the
    call it resolves. *)
Definition on_open (s : nat) (st : State) : result :=
  let st := emit [Stderr INFO "Connected to WebSocket server"] st in
  match ws st with
  | None => Crashed (TypeError "send")
  | Some g =>
      match socket_send st g (JoinFrame (uuidv4 (uuids st))) with
      | Throw e => Crashed e
      | Normal out =>
          let st := emit out (set_uuids (S (uuids st)) st) in
          match connected <$> calls st !! s with
          | Some ConnPending =>
              Running (sendCommand_resume s (update_call s (with_connected ConnFulfilled) st))
          | _ => Running st
          end
      end
  end.

(** The [on("message")] listener; the [catch] swallows every exception. *)
Definition on_message (raw : raw_frame) (st : State) : State :=
  match JSON_parse raw with
  | Throw _ => st
  | Normal data =>
      match prop data "type" with
      | Throw _ => st
      | Normal ty =>
          if is_string ty "broadcast" && truthy (field data "message") then
            let msg := field data "message" in
            match pending_get st (field msg "id") with
            | None => st
            | Some (i, k) =>
                let st := pending_delete i st in
                if truthy (field msg "error") then
                  match ToString Number_toString Object_toString
                          (field msg "error") with
                  | Throw _ => st
                  | Normal m => handler_settle k (Rejected (Error m)) st
                  end
                else handler_settle k (Resolved (field msg "result")) st
            end
          else st
      end
  end.

(** The [on("error")] listener of socket [s]. *)
Definition on_error (s : nat) (m : string) (st : State) : State :=
  let st := emit [Stderr ERROR ("WebSocket error: " +:+ m)] st in
  update_call s (fun c => match connected c with
                          | ConnPending => with_connected (ConnRejected (Error m)) c
                          | _ => c
                          end) st.

(** The [on("close")] listener. *)
Definition on_close (st : State) : State :=
  set_ws None (emit [Stderr WARN "WebSocket closed"] st).

(** The [setTimeout] callback of call [k]. *)
Definition on_timeout (k : nat) (st : State) : State :=
  match calls st !! k with
  | None => st
  | Some c =>
      match correlation c with
      | None => st
      | Some id =>
          let st := pending_delete id st in
          update_call k
            (fun c => settle (Rejected (Error ("Timeout waiting for Figma response (command: "
                                               +:+ command c +:+ ")"))) c) st
      end
  end.

Definition set_readyState (s : nat) (r : ReadyState) (st : State) : State :=
  update_call s (with_socket (Some r)) st.

(** What the event loop can deliver. *)
Inductive event : Type :=
| Invoke (cmd : string) (ps : value)     (* a tool handler calls sendCommand *)
| SockOpen (s : nat)                     (* the handshake of socket s is done *)
| SockMessage (s : nat) (raw : raw_frame)
| SockClosing (s : nat)                  (* a close frame arrived on socket s *)
| SockError (s : nat) (m : string)
| SockClose (s : nat)
| TimerFire (k : nat)
| Tick (dt : N).                         (* time passes *)

(** One turn of the event loop. An event the runtime cannot deliver in the
    current state (a message on a socket that is not open, a timer that is
    not armed or not due) leaves the state as it is. *)
Definition step (st : State) (ev : event) : result :=
  match ev with
  | Invoke cmd ps => Running (sendCommand cmd ps st)
  | SockOpen s =>
      match readyState st s with
      | Some CONNECTING => on_open s (set_readyState s OPEN st)
      | _ => Running st
      end
  | SockMessage s raw =>
      match readyState st s with
      | Some OPEN | Some CLOSING => Running (on_message raw st)
      | _ => Running st
      end
  | SockClosing s =>
      match readyState st s with
      | Some OPEN => Running (set_readyState s CLOSING st)
      | _ => Running st
      end
  | SockError s m =>
      match readyState st s with
      | Some CONNECTING | Some OPEN | Some CLOSING =>
          Running (on_error s m (set_readyState s CLOSING st))
      | _ => Running st
      end
  | SockClose s =>
      match readyState st s with
      | Some CONNECTING | Some OPEN | Some CLOSING =>
          Running (on_close (set_readyState s CLOSED st))
      | _ => Running st
      end
  | TimerFire k =>
      match timer <$> calls st !! k with
      | Some (Some due) =>
          if (due <=? now st)%N
          then Running (on_timeout k (update_call k (with_timer None) st))
          else Running st
      | _ => Running st
      end
  | Tick dt => Running (set_now (now st + dt)%N st)
  end.

Fixpoint run (st : State) (evs : list event) : result :=
  match evs with
  | [] => Running st
  | ev :: rest =>
      match step st ev with
      | Running st' => run st' rest
      | Crashed e => Crashed e
      end
  end.

(** The states the Issuer can be in. *)
Definition reachable (st : State) : Prop :=
  exists evs, run initial evs = Running st.

(** *** What must hold of every reachable state *)

Fixpoint count (f : effect -> bool) (tr : list effect) : nat :=
  match tr with
  | [] => 0
  | e :: rest => (if f e then 1 else 0) + count f rest
  end.

(** [pending.set] on behalf of call [k]. *)
Definition is_set (k : nat) (e : effect) : bool :=
  match e with
  | PendingSet _ k' => Nat.eqb k' k
  | _ => false
  end.

(** A [pending.delete(i)] that removed an entry. *)
Definition is_del (i : string) (e : effect) : bool :=
  match e with
  | PendingDelete i' true => String.eqb i' i
  | _ => false
  end.

(** Every event of the trace that [T] singles out has an earlier event
    related to it by [R]. *)
Definition guarded (T : effect -> Prop) (R : effect -> effect -> Prop)
    (tr : list effect) : Prop :=
  forall pre e post, tr = pre ++ e :: post -> T e ->
    exists e', e' ∈ pre /\ R e' e.

Definition is_request (e : effect) : Prop :=
  match e with
  | Transmit _ (RequestFrame _ _ _) => True
  | _ => False
  end.

(** [e'] registers the correlation id the request [e] carries. *)
Definition registers (e' e : effect) : Prop :=
  match e, e' with
  | Transmit _ (RequestFrame i _ _), PendingSet i' _ => i' = i
  | _, _ => False
  end.

(** [e'] is a join sent on the socket the request [e] is sent on. *)
Definition joins (e' e : effect) : Prop :=
  match e, e' with
  | Transmit s (RequestFrame _ _ _), Transmit s' (JoinFrame _) => s' = s
  | _, _ => False
  end.

(** The life of one call, as the registry, its timer, its promise and the
    trace record it: not yet registered; registered and waiting; entry
    removed but the promise left to the timer (the [catch] swallowed an
    exception of [new Error]); entry removed and promise settled. *)
Definition call_ok (st : State) (k : nat) (c : call) : Prop :=
  match correlation c with
  | None =>
      timer c = None /\ settlements c = [] /\ count (is_set k) (trace st) = 0
  | Some i =>
      connected c = ConnFulfilled /\
      count (is_set k) (trace st) = 1 /\
      (exists n, n < uuids st /\ i = uuidv4 n) /\
      ((pending st !! i = Some k /\ is_Some (timer c) /\
        settlements c = [] /\ count (is_del i) (trace st) = 0)
       \/
       (pending st !! i = None /\ count (is_del i) (trace st) = 1 /\
        ((is_Some (timer c) /\ settlements c = []) \/
         (timer c = None /\ length (settlements c) = 1))))
  end.

Record registry_ok (st : State) : Prop := mkRegistryOk {
  calls_ok : forall k c, calls st !! k = Some c -> call_ok st k c;
  pending_ok : forall i k, pending st !! i = Some k ->
    exists c, calls st !! k = Some c /\ correlation c = Some i;
  fresh_sets : forall k, length (calls st) <= k ->
    count (is_set k) (trace st) = 0;
  fresh_dels : forall n, uuids st <= n ->
    count (is_del (uuidv4 n)) (trace st) = 0;
  distinct_ids : forall k k' c c' i,
    calls st !! k = Some c -> calls st !! k' = Some c' ->
    correlation c = Some i -> correlation c' = Some i -> k = k';
}.

(** An effect that neither registers nor removes. *)
Definition quiet (e : effect) : Prop :=
  match e with
  | PendingSet _ _ | PendingDelete _ _ => False
  | _ => True
  end.

(** [c'] is [c] up to its socket and, before registration, its connect
    promise. *)
Definition same_life (c c' : call) : Prop :=
  correlation c' = correlation c /\ timer c' = timer c /\
  settlements c' = settlements c /\
  (is_Some (correlation c) -> connected c' = connected c).

Record wire_ok (st : State) : Prop := mkWireOk {
  registered_first : guarded is_request registers (trace st);
  joined_first : guarded is_request joins (trace st);
  ws_joined : forall s, ws st = Some s -> readyState st s = Some OPEN ->
    exists u, Transmit s (JoinFrame u) ∈ trace st;
}.

(** The invariant of the Issuer. *)
Definition invariant (st : State) : Prop := registry_ok st /\ wire_ok st.

(** A socket that is still CONNECTING has not settled the connect promise
    of the call that made it. *)
Definition connecting_ok (cs : list call) : Prop :=
  forall k c, cs !! k = Some c -> socket c = Some CONNECTING ->
    connected c = ConnPending.

End Machine.

(** *** Concrete runs *)

Definition sample_uuidv4 (n : nat) : string := "uuid-" +:+ pretty n.

Definition sample_step : State -> event -> result :=
  step sample_uuidv4 Hub.sample_Number_toString Hub.sample_Object_toString.
Definition sample_run : State -> list event -> result :=
  run sample_uuidv4 Hub.sample_Number_toString Hub.sample_Object_toString.

(** A relay envelope as the Hub delivers it. *)
Definition broadcast (msg : value) : raw_frame :=
  Json (VObj [("type", VStr "broadcast"); ("message", msg);
              ("sender", VStr "Remote"); ("channel", VStr CHANNEL)]).

Definition reply_result (id : string) (r : value) : value :=
  VObj [("id", VStr id); ("result", r)].
Definition reply_error (id : string) (m : string) : value :=
  VObj [("id", VStr id); ("error", VStr m)].

(** Connected and joined, then two calls outstanding at once: call 0 waits
    on "uuid-1", call 1 on "uuid-2". *)
Definition two_outstanding_events : list event :=
  [Invoke "get_selection" (VObj []); SockOpen 0;
   Invoke "get_styles" (VObj [])].

Definition state_of_result (r : result) : State :=
  match r with
  | Running st => st
  | Crashed _ => initial
  end.

Definition two_outstanding : State :=
  state_of_result (sample_run initial two_outstanding_events).

(** The same, 30 seconds later. *)
Definition two_overdue : State :=
  state_of_result (sample_run initial (two_outstanding_events ++ [Tick 30000])).

(** One call made from the initial state: its socket is CONNECTING. *)
Definition one_connecting : State :=
  state_of_result (sample_run initial [Invoke "get_selection" (VObj [])]).

(** That socket open, the call registered under "uuid-1" and waiting. *)
Definition one_outstanding : State :=
  state_of_result
    (sample_run initial [Invoke "get_selection" (VObj []); SockOpen 0]).

(** The transport-close clause of the spec, read literally: the close of
    socket [s] fails every pending request at once. *)
Definition close_fails_all_pending (st : State) (s : nat) : Prop :=
  forall i k, pending st !! i = Some k ->
    exists st' c e,
      sample_step st (SockClose s) = Running st' /\
      calls st' !! k = Some c /\
      outcome c = Some (Rejected e) /\
      pending st' !! i = None.

(** The correlation clause of the spec, read literally: when the frames
    [frames] arrive on socket 0 in a state where call [k] waits, and among
    them is the reply envelope for the id of the call, with [result] [r],
    the call resolves with [r]. *)
Definition resolves_with_reply (st : State) (frames : list raw_frame) (k : nat)
    (r : value) : Prop :=
  exists st',
    sample_run st (SockMessage 0 <$> frames) = Running st' /\
    outcome <$> calls st' !! k = Some (Some (Resolved r)).



End Issuer.

(** ** The components composed *)

Module Relay.
Import JS.

(** The Issuer is endpoint 0 of the Hub and the plugin UI endpoint 1; both
    have joined the Issuer's channel. *)
Definition issuer_endpoint : Hub.WS := 0.
Definition plugin_endpoint : Hub.WS := 1.

Definition hub_joined : Hub.State :=
  Hub.run Hub.sample_Number_toString Hub.sample_Object_toString
    [(Hub.all_open, Hub.Open issuer_endpoint);
     (Hub.all_open, Hub.Open plugin_endpoint);
     (Hub.all_open,
      Hub.Message issuer_endpoint (Json (Issuer.payload (Issuer.JoinFrame "uuid-0"))));
     (Hub.all_open, Hub.Message plugin_endpoint (Hub.join_frame Issuer.CHANNEL))]
    Hub.initial.

(** What the Hub sends back to the Issuer when the Issuer's request frame
    arrives. *)
Definition hub_to_issuer (f : Issuer.frame) : list value :=
  Hub.sent_to issuer_endpoint
    (Hub.effects_of
       (Hub.message Hub.sample_Number_toString Hub.sample_Object_toString
          Hub.all_open issuer_endpoint (Json (Issuer.payload f)) hub_joined)).

End Relay.

(** ** The tools of the MCP server (mcp_server/server.ts) *)

Module Tools.
Import JS.

(** The schemas the registrations build with zod. [parse] below is what
    zod's [safeParse] does on a value that came out of [JSON.parse]: a
    string, number, array or object check with no coercion; [min] and [max]
    are inclusive; [optional] lets [undefined] through; an object schema
    checks each key of its shape, in the order of the shape, and strips the
    keys that are not in it. *)
Inductive zod : Type :=
| z_string
| z_number (min max : option float)
| z_array (item : zod)
| z_enum (options : list string)
| z_object (shape : list (string * zod))
| z_optional (inner : zod).

Fixpoint parse_all {A B} (f : A -> option B) (l : list A) : option (list B) :=
  match l with
  | [] => Some []
  | x :: rest =>
      match f x, parse_all f rest with
      | Some y, Some ys => Some (y :: ys)
      | _, _ => None
      end
  end.

Definition within (min max : option float) (f : float) : bool :=
  negb (PrimFloat.is_nan f)
  && match min with Some lo => PrimFloat.leb lo f | None => true end
  && match max with Some hi => PrimFloat.leb f hi | None => true end.

(** The parsed value of a key that is absent or [undefined] and optional
    is [undefined]: the key is not set in the output. *)
Fixpoint parse (z : zod) (v : value) {struct z} : option value :=
  match z with
  | z_string => match v with VStr _ => Some v | _ => None end
  | z_number min max =>
      match v with
      | VNum f => if within min max f then Some v else None
      | _ => None
      end
  | z_array item =>
      match v with
      | VArr elems =>
          match parse_all (parse item) elems with
          | Some out => Some (VArr out)
          | None => None
          end
      | _ => None
      end
  | z_enum options =>
      match v with
      | VStr s => if existsb (String.eqb s) options then Some v else None
      | _ => None
      end
  | z_optional inner =>
      match v with
      | VUndefined => Some VUndefined
      | _ => parse inner v
      end
  | z_object shape =>
      match v with
      | VObj props =>
          match
            (fix keys (shape : list (string * zod))
               : option (list (string * value)) :=
               match shape with
               | [] => Some []
               | (k, zk) :: rest =>
                   match parse zk (own_property props k), keys rest with
                   | Some VUndefined, Some out => Some out
                   | Some x, Some out => Some ((k, x) :: out)
                   | _, _ => None
                   end
               end) shape
          with
          | Some out => Some (VObj out)
          | None => None
          end
      | _ => None
      end
  end.


(** How the handler of a tool builds the second argument of [sendCommand]
    from the parsed arguments. *)
Inductive forwarding : Type :=
| Nothing                 (* async () => sendCommand(name) *)
| Only (key : string)     (* async ({ key }) => sendCommand(name, { key }) *)
| Everything.             (* async (params) => sendCommand(name, params) *)

(** One [server.tool(name, description, shape, handler)]. *)
Record tool : Type := mkTool {
  registered_as : string;   (* the name the tool is registered under *)
  shape : list (string * zod);   (* its parameter schema *)
  sends : string;           (* the command its handler passes to sendCommand *)
  forwards : forwarding;
}.

(** [z.number().min(0).max(1)] *)
Definition unit_interval : zod := z_number (Some 0%float) (Some 1%float).
Definition number : zod := z_number None None.

(** The RGBA object of the colour parameters. *)
Definition rgba : zod :=
  z_object [("r", unit_interval); ("g", unit_interval); ("b", unit_interval);
            ("a", z_optional unit_interval)].

(** The registrations, in source order. *)
Definition tools : list tool :=
  [mkTool "get_document_info" [] "get_document_info" Nothing;
   mkTool "get_selection" [] "get_selection" Nothing;
   mkTool "get_node_info" [("nodeId", z_string)] "get_node_info" (Only "nodeId");
   mkTool "get_nodes_info" [("nodeIds", z_array z_string)]
     "get_nodes_info" (Only "nodeIds");
   mkTool "get_styles" [] "get_styles" Nothing;
   mkTool "get_local_components" [] "get_local_components" Nothing;
   mkTool "create_rectangle"
     [("x", number); ("y", number); ("width", number); ("height", number);
      ("color", z_optional rgba); ("name", z_optional z_string)]
     "create_rectangle" Everything;
   mkTool "create_text"
     [("x", number); ("y", number); ("text", z_string);
      ("fontSize", z_optional number); ("color", z_optional rgba);
      ("name", z_optional z_string)]
     "create_text" Everything;
   mkTool "create_frame"
     [("x", number); ("y", number); ("width", number); ("height", number);
      ("name", z_optional z_string); ("backgroundColor", z_optional rgba)]
     "create_frame" Everything;
   mkTool "set_fill_color" [("nodeId", z_string); ("color", rgba)]
     "set_fill_color" Everything;
   mkTool "move_node" [("nodeId", z_string); ("x", number); ("y", number)]
     "move_node" Everything;
   mkTool "resize_node"
     [("nodeId", z_string); ("width", number); ("height", number)]
     "resize_node" Everything;
   mkTool "delete_node" [("nodeId", z_string)] "delete_node" (Only "nodeId");
   mkTool "set_text_content" [("nodeId", z_string); ("text", z_string)]
     "set_text_content" Everything;
   mkTool "export_node_as_image"
     [("nodeId", z_string);
      ("format", z_optional (z_enum ["PNG"; "SVG"; "PDF"; "JPG"]));
      ("scale", z_optional number)]
     "export_node_as_image" Everything].

Definition forwarded (f : forwarding) (args : value) : value :=
  match f with
  | Nothing => VUndefined
  | Only key => VObj [(key, field args key)]
  | Everything => args
  end.

Fixpoint lookup_tool (name : string) (ts : list tool) : option tool :=
  match ts with
  | [] => None
  | t :: rest =>
      if String.eqb (registered_as t) name then Some t else lookup_tool name rest
  end.

(** How a [tools/call] request ends, up to the first suspension of the
    handler's [await sendCommand(...)]. *)
Inductive tool_call : Type :=
| NoSuchTool                      (* no tool of that name: the request fails *)
| InvalidArguments                (* the schema rejects: the handler is not run *)
| Called (st : Issuer.State).     (* the handler ran, on the parsed arguments *)

(** A [tools/call] request for [name] whose [arguments] is the object
    [arguments]: the server parses the arguments with the tool's schema,
    [z.object(shape)], and calls the handler with the parsed object. *)
Definition call_tool (uuidv4 : nat -> string) (name : string)
    (arguments : list (string * value)) (st : Issuer.State) : tool_call :=
  match lookup_tool name tools with
  | None => NoSuchTool
  | Some t =>
      match parse (z_object (shape t)) (VObj arguments) with
      | None => InvalidArguments
      | Some args =>
          Called (Issuer.sendCommand uuidv4 (sends t)
                    (forwarded (forwards t) args) st)
      end
  end.

End Tools.

(** ** Properties of the Hub *)

Module HubFacts.
Import JS Hub.

Ltac run_monad :=
  unfold mbind, mret, M_bind, M_ret, bind, ret, lift, emit, get_channels,
    put_channels, the_key, retain, try_catch in *.


Lemma Set_has_elem (clients : list WS) (ws : WS) :
  Set_has clients ws = true ↔ ws ∈ clients.
Proof.
  unfold Set_has. rewrite existsb_exists. split.
  - intros (x & Hin & Heq). apply Nat.eqb_eq in Heq. subst.
    by apply list_elem_of_In.
  - intros Hin. exists ws. split; [by apply list_elem_of_In | apply Nat.eqb_refl].
Qed.

Lemma Set_add_NoDup (clients : list WS) (ws : WS) :
  NoDup clients → NoDup (Set_add clients ws).
Proof.
  intros Hnd. unfold Set_add. destruct (Set_has clients ws) eqn:Hhas; [done|].
  apply NoDup_app. split_and!; [done | | apply NoDup_singleton].
  intros x Hx Hx'. apply list_elem_of_singleton in Hx'. subst.
  apply Set_has_elem in Hx. congruence.
Qed.

Lemma Set_delete_NoDup (clients : list WS) (ws : WS) :
  NoDup clients → NoDup (Set_delete clients ws).
Proof. intros. by apply NoDup_filter. Qed.

Lemma Map_get_Forall (P : list WS → Prop) m k clients :
  Forall (fun p => P p.2) m → Map_get m k = Some clients → P clients.
Proof.
  induction m as [|[k' s] m IH]; simpl; [done|].
  intros Hall Hget. apply Forall_cons in Hall as [Hs Hm].
  destruct (key_eqb k' k); [by simplify_eq | by apply IH].
Qed.

Lemma Map_set_Forall (P : list WS → Prop) m k s :
  Forall (fun p => P p.2) m → P s → Forall (fun p => P p.2) (Map_set m k s).
Proof.
  induction m as [|[k' s'] m IH]; simpl; intros Hall Hs.
  - by repeat constructor.
  - apply Forall_cons in Hall as [Hs' Hm].
    destruct (key_eqb k' k); constructor; auto.
Qed.

(** *** The delivery loop of the [message] block *)

Section Delivery.
Variable readyState : WS → nat.
Variable envelope : WS → value.

Lemma forEach_send clients st :
  forEach clients (fun client => send_if_open readyState client (envelope client)) st
  = (Normal tt, st,
     (fun c => Send c (envelope c))
       <$> filter (fun c => readyState c = WebSocket_OPEN) clients).
Proof.
  induction clients as [|c clients IH]; [done|].
  cbn [forEach]. run_monad. unfold send_if_open at 1.
  rewrite filter_cons.
  destruct (Nat.eqb_spec (readyState c) WebSocket_OPEN) as [Heq|Hne].
  - rewrite decide_True by done. run_monad. by rewrite IH.
  - rewrite decide_False by done. run_monad. by rewrite IH.
Qed.
End Delivery.

Lemma sent_to_deliveries (envelope : WS → value) w (l : list WS) :
  NoDup l →
  sent_to w ((fun c => Send c (envelope c)) <$> l)
  = if bool_decide (w ∈ l) then [envelope w] else [].
Proof.
  unfold sent_to. induction l as [|c l IH]; intros Hnd.
  - rewrite bool_decide_eq_false_2; [done | apply not_elem_of_nil].
  - apply NoDup_cons in Hnd as [Hc Hl]. cbn [fmap list_fmap omap list_omap].
    specialize (IH Hl). cbn [fmap] in IH. rewrite IH.
    destruct (Nat.eqb_spec c w) as [->|Hne].
    + rewrite (bool_decide_eq_false_2 (w ∈ l)) by done.
      rewrite bool_decide_eq_true_2; [done | apply list_elem_of_here].
    + destruct (bool_decide (w ∈ l)) eqn:Hin.
      * apply bool_decide_eq_true_1 in Hin.
        rewrite bool_decide_eq_true_2; [done | by apply list_elem_of_further].
      * apply bool_decide_eq_false_1 in Hin.
        rewrite bool_decide_eq_false_2; [done|].
        rewrite elem_of_cons. intros [?|?]; congruence.
Qed.



(** *** The registry invariant along runs of the Hub *)

Lemma forEach_pure {A} (f : A → M unit) (l : list A) st :
  (∀ x st', (f x st').1 = (Normal tt, st')) →
  (forEach l f st).1 = (Normal tt, st).
Proof.
  intros Hf. induction l as [|x l IH]; [done|].
  cbn [forEach]. run_monad. specialize (Hf x st).
  destruct (f x st) as [[r st1] out1]. simpl in Hf. simplify_eq.
  by destruct (forEach l f st) as [[r st2] out2]; simpl in *; simplify_eq.
Qed.

Lemma broadcast_pure readyState k data exclude st :
  (broadcast readyState k data exclude st).1 = (Normal tt, st).
Proof.
  unfold broadcast. run_monad. cbn.
  destruct (Map_get (channels st) k) as [clients|]; [|done].
  match goal with |- context [forEach ?l ?f ?s] =>
    pose proof (forEach_pure f l s) as Hp;
    destruct (forEach l f s) as [[r st2] out2] end.
  simpl in *. apply Hp. intros x st'. unfold send_if_open.
  by repeat case_match.
Qed.

Section Invariant.
Variable Number_toString : float → string.
Variable Object_toString : value → completion string.
Variable readyState : WS → nat.

Lemma wf_on_join ws data st :
  wf st →
  wf (state_of (on_join Number_toString Object_toString readyState ws data st)).
Proof.
  intros Hwf. unfold on_join, state_of, template.
  destruct (negb (truthy (field data "channel"))); [done|].
  run_monad. cbn.
  set (k := key_of st (field data "channel")).
  (* the channel exists already, or is created under a value or a reference *)
  destruct (Map_has (channels st) k); [|destruct k as [v|a]]; cbn.
  all: match goal with |- context [Map_get ?m ?k0] =>
         assert (Forall (fun p => NoDup p.2) m) as Hwf1
           by (first [done | apply Map_set_Forall; [done | constructor]]);
         destruct (Map_get m k0) as [clients|] eqn:Hget; [|done]
       end.
  all: cbn; pose proof (Map_get_Forall NoDup _ _ _ Hwf1 Hget) as Hnd.
  all: match goal with |- context [Map_set ?m ?k0 (Set_add ?cl ?w)] =>
         assert (Forall (fun p => NoDup p.2) (Map_set m k0 (Set_add cl w)))
           as Hwf2 by (apply Map_set_Forall; [done | by apply Set_add_NoDup])
       end.
  all: destruct (ToString _ _ (field data "channel")) as [s|e]; [|done]; cbn.
  all: match goal with |- context [broadcast ?r ?k0 ?d ?x ?s0] =>
         pose proof (broadcast_pure r k0 d x s0) as Hb;
         destruct (broadcast r k0 d x s0) as [[rb stb] outb]
       end.
  all: simpl in Hb; by simplify_eq.
Qed.

Lemma on_message_state ws data st :
  state_of (on_message Number_toString Object_toString readyState ws data st) = st.
Proof.
  unfold on_message, state_of, template. run_monad. cbn.
  destruct (Map_get (channels st) _) as [clients|]; [|done].
  destruct (Set_has clients ws); [|done].
  destruct (ToString _ _ (field data "channel")) as [s|e]; [|done]. cbn.
  rewrite forEach_send. done.
Qed.

Lemma wf_message ws raw st :
  wf st →
  wf (state_of (message Number_toString Object_toString readyState ws raw st)).
Proof.
  intros Hwf. unfold message, message_try, state_of. run_monad.
  destruct (JSON_parse raw) as [data|e]; [|done]. cbn.
  destruct (prop data "type") as [ty|e]; [|done]. cbn.
  destruct (is_string ty "join").
  - pose proof (wf_on_join ws data st Hwf) as Hj. unfold state_of in Hj.
    by destruct (on_join _ _ _ ws data st) as [[[[]|e] st1] out1].
  - destruct (is_string ty "message"); [|done].
    pose proof (on_message_state ws data st) as Hm. unfold state_of in Hm.
    destruct (on_message _ _ _ ws data st) as [[[[]|e] st1] out1];
      simpl in *; by subst.
Qed.

Lemma forEach_wf {A} (f : A → M unit) (l : list A) st :
  (∀ x st', wf st' → wf (state_of (f x st'))) →
  wf st → wf (state_of (forEach l f st)).
Proof.
  intros Hf. revert st. induction l as [|x l IH]; intros st Hwf; [done|].
  cbn [forEach]. unfold state_of in *. run_monad.
  specialize (Hf x st Hwf).
  destruct (f x st) as [[[[]|e] st1] out1]; simpl in *; [|done].
  specialize (IH st1 Hf).
  by destruct (forEach l f st1) as [[r st2] out2].
Qed.

Lemma wf_close ws st :
  wf st → wf (state_of (close readyState ws st)).
Proof.
  intros Hwf. unfold close, removeFromChannels, state_of. run_monad. cbn.
  match goal with |- context [forEach ?l ?f ?s] =>
    pose proof (forEach_wf f l s) as Hp;
    destruct (forEach l f s) as [[r st2] out2] end.
  unfold state_of in Hp. simpl in *. apply Hp; [|done].
  clear. intros [k s0] st' Hwf. cbn.
  destruct (Map_get (channels st') k) as [clients|] eqn:Hget; [|done].
  destruct (Set_has clients ws); [|done].
  match goal with |- context [broadcast ?r ?k0 ?d ?x ?s1] =>
    pose proof (broadcast_pure r k0 d x s1) as Hb;
    destruct (broadcast r k0 d x s1) as [[rb stb] outb] end.
  simpl in Hb. simplify_eq. simpl.
  apply Map_set_Forall; [done|]. apply Set_delete_NoDup.
  by eapply (Map_get_Forall NoDup).
Qed.
End Invariant.

(** *** Runs of the Hub *)

Section Runs.
Variable Number_toString : float → string.
Variable Object_toString : value → completion string.

#[local] Abbreviation run := (run Number_toString Object_toString).

Lemma wf_run evs st : wf st → wf (run evs st).
Proof.
  revert st. induction evs as [|[rs ev] evs IH]; intros st Hwf; [done|].
  cbn [run]. apply IH. destruct ev as [ws|ws raw|ws]; cbn [handle].
  - done.
  - by apply wf_message.
  - by apply wf_close.
Qed.

Lemma wf_reachable st :
  reachable Number_toString Object_toString st → wf st.
Proof. intros [evs ->]. apply wf_run. constructor. Qed.
End Runs.

Section HubClaims.
Variable Number_toString : float → string.
Variable Object_toString : value → completion string.
Variable readyState : WS → nat.

#[local] Abbreviation message := (message Number_toString Object_toString readyState).

Lemma message_type_message ws data st :
  prop data "type" = Normal (VStr "message") →
  message ws (Json data) st
  = try_catch (on_message Number_toString Object_toString readyState ws data)
      (fun err => emit (ConsoleError "[WS] Parse error:" err)) st.
Proof.
  intros Hty. unfold Hub.message, message_try, JSON_parse.
  run_monad. rewrite Hty. cbn.
  by destruct (on_message _ _ _ ws data st) as [[[[]|e] st1] out1].
Qed.

(** C6, as the code has it: a [message] frame from a member of channel
    [c] makes the Hub send, to every member of [c] whose socket is OPEN
    (the sender included) exactly one frame, the broadcast envelope
    tagged "You" for the sender and "Remote" for the others; endpoints
    that are not members, or whose socket is not OPEN, are sent nothing;
    the registry is unchanged and the handler returns normally. *)
Theorem message_reaches_open_members st ws (c : string) data :
  reachable Number_toString Object_toString st →
  prop data "type" = Normal (VStr "message") →
  field data "channel" = VStr c →
  member st (VStr c) ws = true →
  let r := message ws (Json data) st in
  completion_of r = Normal tt ∧ state_of r = st ∧
  ∀ w, sent_to w (effects_of r)
       = if member st (VStr c) w && Nat.eqb (readyState w) WebSocket_OPEN
         then [broadcast_envelope ws (VStr c) (field data "message") w]
         else [].
Proof.
  intros Hwf%wf_reachable Hty Hch Hmem r. subst r.
  rewrite message_type_message by done.
  unfold on_message, member, template in *. rewrite Hch. cbn [ToString].
  run_monad. cbn [key_of is_object] in *.
  destruct (Map_get (channels st) (KVal (VStr c))) as [clients|] eqn:Hget;
    [|done].
  rewrite Hmem. cbn. rewrite forEach_send. cbn.
  split_and!; [done..|]. intros w.
  pose proof (Map_get_Forall NoDup _ _ _ Hwf Hget) as Hnd.
  change (sent_to w ((fun c0 => Send c0
            (broadcast_envelope ws (VStr c) (field data "message") c0))
            <$> filter (fun c0 => readyState c0 = WebSocket_OPEN) clients)
          = if Set_has clients w && Nat.eqb (readyState w) WebSocket_OPEN
            then [broadcast_envelope ws (VStr c) (field data "message") w]
            else []).
  rewrite sent_to_deliveries by by apply NoDup_filter.
  destruct (Set_has clients w) eqn:Hw; cbn [andb].
  - apply Set_has_elem in Hw.
    destruct (Nat.eqb_spec (readyState w) WebSocket_OPEN) as [Ho|Ho].
    + rewrite bool_decide_eq_true_2; [done|]. by apply list_elem_of_filter.
    + rewrite bool_decide_eq_false_2; [done|].
      rewrite list_elem_of_filter. tauto.
  - rewrite bool_decide_eq_false_2; [done|].
    rewrite list_elem_of_filter, <- Set_has_elem. intros [_ ?]. congruence.
Qed.

(** C7: a [message] frame naming a channel the sender is not a member of
    (or no channel at all) is answered with the error notice
    "Join a channel first" to the sender only: that is the only effect,
    the registry is unchanged, and the handler returns normally. *)
Theorem message_before_join st ws data :
  prop data "type" = Normal (VStr "message") →
  member st (field data "channel") ws = false →
  message ws (Json data) st
  = (Normal tt, st, [Send ws (error_notice "Join a channel first")]).
Proof.
  intros Hty Hmem. rewrite message_type_message by done.
  unfold on_message, member in *. run_monad.
  destruct (Map_get (channels st) (key_of st (field data "channel")))
    as [clients|]; [|done].
  by rewrite Hmem.
Qed.

(** The handler returns normally on every frame: the [catch] has no
    way out but its end. *)
Lemma message_never_throws st ws raw :
  completion_of (message ws raw st) = Normal tt.
Proof.
  unfold Hub.message, completion_of. run_monad.
  destruct (message_try _ _ _ ws raw st) as [[[[]|e] st1] out1]; done.
Qed.

(** What the [catch] does with an exception of the body: log it, keep the
    state the body left. *)
Lemma message_catch st ws raw e st1 out1 :
  message_try Number_toString Object_toString readyState ws raw st
  = (Throw e, st1, out1) →
  message ws raw st
  = (Normal tt, st1, out1 ++ [ConsoleError "[WS] Parse error:" e]).
Proof. intros Hbody. unfold Hub.message. run_monad. by rewrite Hbody. Qed.

(** C9: a frame that is not valid JSON is dropped: [JSON.parse] throws a
    SyntaxError before anything else has run, the handler catches it and
    returns normally, its only effect is the logged parse error, nothing
    is sent to any endpoint and the channel registry, every member set
    included, is what it was. *)
Theorem message_malformed_dropped st ws (text : string) :
  JSON_parse (Malformed text) = Throw (SyntaxError text) ∧
  completion_of (message ws (Malformed text) st) = Normal tt ∧
  state_of (message ws (Malformed text) st) = st ∧
  effects_of (message ws (Malformed text) st)
  = [ConsoleError "[WS] Parse error:" (SyntaxError text)] ∧
  (∀ w, sent_to w (effects_of (message ws (Malformed text) st)) = []) ∧
  (∀ ch w, member (state_of (message ws (Malformed text) st)) ch w
           = member st ch w).
Proof.
  assert (message ws (Malformed text) st
          = (Normal tt, st, [ConsoleError "[WS] Parse error:" (SyntaxError text)]))
    as Hrun.
  { by rewrite (message_catch st ws (Malformed text) (SyntaxError text) st []). }
  rewrite Hrun. by split_and!.
Qed.

(** C10: a [join] frame whose [channel] is missing or the empty string is
    answered with the error notice "channel is required" to the sender
    only: that is the only effect (no other endpoint is sent anything),
    and the registry is unchanged (no channel created, no member set
    changed). *)
Theorem join_without_channel st ws data :
  prop data "type" = Normal (VStr "join") →
  field data "channel" = VUndefined ∨ field data "channel" = VStr "" →
  message ws (Json data) st
  = (Normal tt, st, [Send ws (error_notice "channel is required")]).
Proof.
  intros Hty Hch. unfold Hub.message, message_try, JSON_parse, on_join.
  run_monad. rewrite Hty. cbn [is_string String.eqb].
  by destruct Hch as [-> | ->].
Qed.

End HubClaims.


(** *** The scenario of the spec: two endpoints on "c1" *)

Example two_joined_registry :
  two_joined = mkState [(KVal (VStr "c1"), [endpointA; endpointB])] 0.
Proof. reflexivity. Qed.

(** With both sockets OPEN, B observes A's payload wrapped and tagged
    "Remote", and A observes its own payload tagged "You". *)
Example round_trip_c1 :
  effects_of (message sample_Number_toString sample_Object_toString all_open
                endpointA (message_frame "c1" foo1) two_joined)
  = [ConsoleLog "[WS] Broadcasting to channel c1:" [foo1];
     Send endpointA (obj [("type", VStr "broadcast"); ("message", foo1);
                          ("sender", VStr "You"); ("channel", VStr "c1")]);
     Send endpointB (obj [("type", VStr "broadcast"); ("message", foo1);
                          ("sender", VStr "Remote"); ("channel", VStr "c1")])].
Proof. reflexivity. Qed.

(** C6 as stated fails: B is a member of "c1" but its socket is no longer
    OPEN when A sends, and the guard on [client.readyState] skips it. *)
Lemma closing_member_is_skipped :
  member two_joined (VStr "c1") endpointA = true ∧
  member two_joined (VStr "c1") endpointB = true ∧
  sent_to endpointB (effects_of
    (message sample_Number_toString sample_Object_toString B_closing
       endpointA (message_frame "c1" foo1) two_joined)) = [] ∧
  ¬ delivers_to_every_member B_closing two_joined endpointA "c1" foo1.
Proof.
  split_and!; [reflexivity..|].
  intros Hall. specialize (Hall endpointB eq_refl). vm_compute in Hall.
  discriminate Hall.
Qed.

Lemma message_reaches_open_members_witness :
  let r := message sample_Number_toString sample_Object_toString B_closing
             endpointA (message_frame "c1" foo1) two_joined in
  completion_of r = Normal tt ∧ state_of r = two_joined ∧
  ∀ w, sent_to w (effects_of r)
       = if member two_joined (VStr "c1") w
            && Nat.eqb (B_closing w) WebSocket_OPEN
         then [broadcast_envelope endpointA (VStr "c1")
                 (field (obj [("type", VStr "message"); ("channel", VStr "c1");
                              ("message", foo1)]) "message") w]
         else [].
Proof.
  apply (message_reaches_open_members sample_Number_toString
           sample_Object_toString B_closing two_joined endpointA "c1").
  - by eexists.
  - reflexivity.
  - reflexivity.
  - reflexivity.
Defined.

Lemma message_before_join_witness :
  message sample_Number_toString sample_Object_toString all_open
    endpointC (message_frame "c1" foo1) two_joined
  = (Normal tt, two_joined, [Send endpointC (error_notice "Join a channel first")]).
Proof.
  apply (message_before_join sample_Number_toString sample_Object_toString
           all_open two_joined endpointC).
  - reflexivity.
  - reflexivity.
Defined.

Lemma join_without_channel_witness :
  message sample_Number_toString sample_Object_toString all_open
    endpointC (Json (obj [("type", VStr "join"); ("channel", VStr "")])) two_joined
  = (Normal tt, two_joined, [Send endpointC (error_notice "channel is required")]).
Proof.
  apply (join_without_channel sample_Number_toString sample_Object_toString
           all_open two_joined endpointC).
  - reflexivity.
  - right. reflexivity.
Defined.

End HubFacts.

(** ** Joining and leaving channels of the Hub *)

Module HubRegistry.
Import JS Hub HubFacts.

(** *** [Map] and [Set] laws the handlers rely on *)

Lemma key_eqb_truthy st ch :
  truthy ch = true → key_eqb (key_of st ch) (key_of st ch) = true.
Proof.
  unfold key_of. destruct ch as [| |b|f|s|l|l]; cbn; try done.
  - by intros ->.
  - unfold PrimFloat.is_nan. by destruct (PrimFloat.eqb f f); rewrite ?orb_true_r.
  - intros _. apply String.eqb_refl.
  - intros _. apply Nat.eqb_refl.
  - intros _. apply Nat.eqb_refl.
Qed.

Lemma key_eqb_string k c :
  key_eqb k (KVal (VStr c)) = true ↔ k = KVal (VStr c).
Proof.
  split.
  - destruct k as [[]|]; cbn; try done. by intros ->%String.eqb_eq.
  - intros ->. apply String.eqb_refl.
Qed.

Lemma Map_get_None m k :
  Map_get m k = None ↔ Forall (fun p => key_eqb p.1 k = false) m.
Proof.
  induction m as [|[k' s] m IH]; cbn.
  - split; [constructor | done].
  - rewrite Forall_cons. cbn. destruct (key_eqb k' k); [|tauto].
    split; [done | by intros []].
Qed.

Lemma Map_get_app m t k :
  Map_get (m ++ t) k
  = match Map_get m k with Some s => Some s | None => Map_get t k end.
Proof.
  induction m as [|[k' s] m IH]; cbn; [done|]. by destruct (key_eqb k' k).
Qed.

Lemma Map_set_app m t k s :
  Map_set (m ++ t) k s
  = match Map_get m k with
    | Some _ => Map_set m k s ++ t
    | None => m ++ Map_set t k s
    end.
Proof.
  induction m as [|[k' s'] m IH]; cbn; [done|].
  destruct (key_eqb k' k); [done|]. rewrite IH. by destruct (Map_get m k).
Qed.

Lemma Map_set_None m k s :
  Map_get m k = None → Map_set m k s = m ++ [(k, s)].
Proof.
  intros Hget. rewrite <- (app_nil_r m) at 1. by rewrite Map_set_app, Hget.
Qed.

Lemma Map_set_same m k s : Map_get m k = Some s → Map_set m k s = m.
Proof.
  induction m as [|[k' s'] m IH]; cbn; [done|].
  destruct (key_eqb k' k); [by intros [= ->] | intros; f_equal; auto].
Qed.

Lemma Map_get_set m k s :
  is_Some (Map_get m k) ∨ key_eqb k k = true →
  Map_get (Map_set m k s) k = Some s.
Proof.
  induction m as [|[k' s'] m IH]; cbn.
  - intros [[? [=]]| ->]. done.
  - destruct (key_eqb k' k) eqn:Hk; cbn; rewrite Hk; [done | exact IH].
Qed.

(** Two string keys: writing under one is seen under the other iff they
    are the same string. *)
Lemma Map_get_set_string m c c' s :
  Map_get (Map_set m (KVal (VStr c)) s) (KVal (VStr c'))
  = if String.eqb c' c then Some s else Map_get m (KVal (VStr c')).
Proof.
  induction m as [|[k' s'] m IH]; cbn.
  - by rewrite String.eqb_sym.
  - destruct (key_eqb k' (KVal (VStr c))) eqn:Hk; cbn.
    + apply key_eqb_string in Hk as ->. cbn. rewrite (String.eqb_sym c c').
      by destruct (String.eqb c' c).
    + destruct (key_eqb k' (KVal (VStr c'))) eqn:Hk'; [|done].
      apply key_eqb_string in Hk' as ->. cbn in Hk. rewrite Hk. done.
Qed.

Lemma Map_get_without ws m k :
  Map_get (without ws m) k = (fun s => Set_delete s ws) <$> Map_get m k.
Proof.
  induction m as [|[k' s] m IH]; cbn; [done|]. by destruct (key_eqb k' k).
Qed.

Lemma Map_set_keys (P : key → Prop) m k s :
  Forall (fun p => P p.1) m → P k → Forall (fun p => P p.1) (Map_set m k s).
Proof.
  induction m as [|[k' s'] m IH]; cbn; intros Hall Hk.
  - by repeat constructor.
  - apply Forall_cons in Hall as [Hk' Hm].
    destruct (key_eqb k' k); constructor; auto.
Qed.

Lemma Set_has_add clients ws w :
  Set_has (Set_add clients ws) w = Set_has clients w || Nat.eqb w ws.
Proof.
  unfold Set_add. destruct (Set_has clients ws) eqn:Hhas.
  - destruct (Nat.eqb_spec w ws) as [->|]; [by rewrite Hhas | by rewrite orb_false_r].
  - unfold Set_has. rewrite existsb_app. cbn. by rewrite orb_false_r.
Qed.

Lemma Set_has_delete clients ws w :
  Set_has (Set_delete clients ws) w = Set_has clients w && negb (Nat.eqb w ws).
Proof.
  apply eq_true_iff_eq. rewrite andb_true_iff, negb_true_iff, Nat.eqb_neq.
  rewrite !Set_has_elem. unfold Set_delete. rewrite list_elem_of_filter. tauto.
Qed.

Lemma Set_add_member clients ws :
  Set_has clients ws = true → Set_add clients ws = clients.
Proof. unfold Set_add. by intros ->. Qed.

Lemma Set_delete_add clients ws :
  Set_delete (Set_add clients ws) ws = Set_delete clients ws.
Proof.
  unfold Set_add. destruct (Set_has clients ws); [done|].
  unfold Set_delete. rewrite filter_app, filter_cons, decide_False by tauto.
  by rewrite filter_nil, app_nil_r.
Qed.

Lemma Set_delete_absent clients ws :
  Set_has clients ws = false → Set_delete clients ws = clients.
Proof.
  intros Hhas. unfold Set_delete.
  induction clients as [|c clients IH]; [done|].
  cbn in Hhas. apply orb_false_iff in Hhas as [Hc Hrest].
  rewrite filter_cons, decide_True.
  - f_equal. by apply IH.
  - apply Nat.eqb_neq in Hc. congruence.
Qed.


(** *** What [broadcast] sends *)

Section Broadcast.
Variable readyState : WS → nat.

Lemma forEach_broadcast clients data exclude st :
  forEach clients (fun client =>
    if bool_decide (Some client ≠ exclude)
    then send_if_open readyState client data else ret tt) st
  = (Normal tt, st, (fun c => Send c data) <$> recipients readyState clients exclude).
Proof.
  unfold recipients. revert st. induction clients as [|c clients IH]; intros st.
  - by destruct exclude.
  - cbn [forEach]. run_monad.
    assert ((if bool_decide (Some c ≠ exclude)
             then send_if_open readyState c data
             else fun st => (Normal (), st, [])) st
            = (Normal tt, st,
               if bool_decide (Some c ≠ exclude ∧ readyState c = WebSocket_OPEN)
               then [Send c data] else [])) as ->.
    { unfold send_if_open, emit, ret.
      destruct (Nat.eqb_spec (readyState c) WebSocket_OPEN);
        destruct (bool_decide (Some c ≠ exclude)) eqn:Hx; try done.
      - rewrite bool_decide_eq_true_2; [done|].
        by apply bool_decide_eq_true_1 in Hx.
      - rewrite bool_decide_eq_false_2; [done|].
        apply bool_decide_eq_false_1 in Hx. tauto.
      - rewrite bool_decide_eq_false_2; [done | tauto].
      - rewrite bool_decide_eq_false_2; [done | tauto]. }
    rewrite IH. f_equal.
    destruct exclude as [x|].
    + unfold Set_delete. rewrite (filter_cons _ c).
      destruct (decide (c = x)) as [->|Hne].
      * rewrite bool_decide_eq_false_2 by tauto.
        by rewrite decide_False by tauto.
      * rewrite decide_True by done. rewrite filter_cons.
        destruct (decide (readyState c = WebSocket_OPEN)).
        -- rewrite bool_decide_eq_true_2; [done | split; congruence].
        -- by rewrite bool_decide_eq_false_2 by tauto.
    + rewrite filter_cons.
      destruct (decide (readyState c = WebSocket_OPEN)).
      * by rewrite bool_decide_eq_true_2.
      * by rewrite bool_decide_eq_false_2 by tauto.
Qed.

Lemma broadcast_run k data exclude st :
  broadcast readyState k data exclude st
  = (Normal tt, st,
     match Map_get (channels st) k with
     | Some clients => (fun c => Send c data) <$> recipients readyState clients exclude
     | None => []
     end).
Proof.
  unfold broadcast. run_monad. cbn.
  destruct (Map_get (channels st) k) as [clients|]; [|done].
  by rewrite forEach_broadcast.
Qed.
End Broadcast.


(** *** The [join] block, run to its end *)

Section Join.
Variable Number_toString : float → string.
Variable Object_toString : value → completion string.
Variable readyState : WS → nat.

Lemma joined_Map_set m k ws :
  key_eqb k k = true →
  joined m k ws = Map_set m k (Set_add (default [] (Map_get m k)) ws).
Proof.
  intros Hk. unfold joined. destruct (Map_get m k) eqn:Hget; [done|].
  by rewrite Map_set_None.
Qed.

(** The state the [join] block leaves, and what it sends, for a truthy
    [channel]. The template literals throw when [channel] is an object whose
    conversion throws; the member has been added by then. *)
Lemma on_join_run ws data st :
  let ch := field data "channel" in
  let k := key_of st ch in
  let before := default [] (Map_get (channels st) k) in
  let st1 :=
    mkState (joined (channels st) k ws)
      (if Map_has (channels st) k then next_ref st
       else match k with
            | KRef a => Nat.max (next_ref st) (S a)
            | KVal _ => next_ref st
            end) in
  truthy ch = true →
  on_join Number_toString Object_toString readyState ws data st
  = match ToString Number_toString Object_toString ch with
    | Throw e => (Throw e, st1, [])
    | Normal s =>
        (Normal tt, st1,
         Send ws (joined_ack ch s)
         :: Send ws (connected_ack ch (field data "id") s)
         :: ((fun c => Send c (joined_notice ch))
               <$> recipients readyState before (Some ws))
         ++ [ConsoleLog ("[WS] Client joined channel: " +:+ s) []])
    end.
Proof.
  intros ch k before st1 Htruthy. subst st1 before.
  pose proof (key_eqb_truthy st ch Htruthy) as Hk. fold k in Hk.
  unfold on_join, template. fold ch. rewrite Htruthy. cbn [negb].
  run_monad. cbn. fold k. unfold Map_has, joined.
  destruct (Map_get (channels st) k) as [clients|] eqn:Hget; cbn.
  - rewrite Hget. cbn.
    destruct (ToString _ _ ch) as [s|e]; [|done]. cbn.
    rewrite broadcast_run. cbn.
    rewrite Map_get_set by (left; by eexists).
    unfold recipients. rewrite Set_delete_add. done.
  - assert (Map_get (Map_set (channels st) k []) k = Some []) as Hnew
      by (by apply Map_get_set; right).
    assert (Map_set (Map_set (channels st) k []) k [ws]
            = channels st ++ [(k, [ws])]) as Hset.
    { rewrite (Map_set_None _ _ _ Hget), Map_set_app, Hget. cbn.
      by rewrite Hk. }
    destruct k as [v|a]; cbn; rewrite Hnew; cbn; rewrite Hset.
    all: destruct (ToString _ _ ch) as [s|e]; [|done]; cbn.
    all: rewrite broadcast_run; cbn.
    all: rewrite Map_get_app, Hget; cbn [Map_get]; rewrite Hk; cbn.
    all: by rewrite decide_False by tauto.
Qed.

End Join.


(** *** [removeFromChannels], run to its end *)

Section Leave.
Variable readyState : WS → nat.

Lemma forEach_leave ws todo : ∀ pre nr,
  keys_ok todo →
  Forall (fun p => Map_get pre p.1 = None) todo →
  forEach todo (leave_one readyState ws) (mkState (pre ++ todo) nr)
  = (Normal tt, mkState (pre ++ without ws todo) nr,
     leave_effects readyState ws todo).
Proof.
  induction todo as [|[k s] t IH]; intros pre nr Hkeys Hpre; [done|].
  destruct Hkeys as (Hkk & Hlater & Hkeys).
  apply Forall_cons in Hpre as [Hk Hpre]. cbn in Hk.
  assert (∀ s', Forall (fun p => Map_get (pre ++ [(k, s')]) p.1 = None) t)
    as Hpre'.
  { intros s'. rewrite Forall_forall in Hpre, Hlater. apply Forall_forall.
    intros p Hp. rewrite Map_get_app, (Hpre p Hp). cbn.
    by rewrite (Hlater p Hp). }
  cbn [forEach]. run_monad. unfold leave_one at 1. run_monad. cbn.
  rewrite Map_get_app, Hk. cbn [Map_get]. rewrite Hkk.
  unfold leave_effects. cbn [flat_map fst snd].
  destruct (Set_has s ws) eqn:Hhas; cbn.
  - rewrite broadcast_run. cbn.
    rewrite Map_set_app, Hk. cbn [Map_set]. rewrite Hkk.
    rewrite Map_get_app, Hk. cbn [Map_get]. rewrite Hkk.
    rewrite (cons_middle _ pre t), app_assoc.
    rewrite (IH _ _ Hkeys (Hpre' _)).
    rewrite <- app_assoc. change (existsb (Nat.eqb ws) s) with (Set_has s ws).
    by rewrite Hhas.
  - rewrite (cons_middle _ pre t), app_assoc.
    rewrite (IH _ _ Hkeys (Hpre' _)).
    rewrite <- app_assoc. change (existsb (Nat.eqb ws) s) with (Set_has s ws).
    rewrite Hhas. change (filter (fun c => c ≠ ws) s) with (Set_delete s ws).
    by rewrite (Set_delete_absent s ws Hhas).
Qed.

Lemma close_run ws st :
  keys_ok (channels st) →
  close readyState ws st
  = (Normal tt, mkState (without ws (channels st)) (next_ref st),
     ConsoleLog "[WS] Client disconnected" []
     :: leave_effects readyState ws (channels st)).
Proof.
  intros Hkeys. destruct st as [m nr]. cbn [channels next_ref] in *.
  unfold close, removeFromChannels. run_monad. cbn.
  match goal with |- context [forEach ?l ?f ?s] =>
    change (forEach l f s)
      with (forEach m (leave_one readyState ws) (mkState ([] ++ m) nr)) end.
  rewrite forEach_leave; [done..|]. by apply Forall_forall.
Qed.
End Leave.


(** *** Frames per endpoint *)

Lemma sent_to_app w out1 out2 :
  sent_to w (out1 ++ out2) = sent_to w out1 ++ sent_to w out2.
Proof. apply omap_app. Qed.

Lemma sent_to_send w to data out :
  sent_to w (Send to data :: out)
  = if Nat.eqb to w then data :: sent_to w out else sent_to w out.
Proof. unfold sent_to. cbn. by destruct (Nat.eqb to w). Qed.

Lemma sent_to_notices (data : value) w (l : list WS) :
  NoDup l →
  sent_to w ((fun c => Send c data) <$> l)
  = if bool_decide (w ∈ l) then [data] else [].
Proof. apply (sent_to_deliveries (fun _ => data)). Qed.

Lemma sent_to_elem w out data :
  data ∈ sent_to w out → Send w data ∈ out.
Proof.
  unfold sent_to. rewrite list_elem_of_omap. intros ([to d| |] & Hin & Hsome);
    try done.
  destruct (Nat.eqb_spec to w); by simplify_eq.
Qed.

Lemma recipients_elem readyState clients exclude w :
  w ∈ recipients readyState clients exclude ↔
  Set_has clients w = true ∧ Some w ≠ exclude ∧ readyState w = WebSocket_OPEN.
Proof.
  unfold recipients. rewrite list_elem_of_filter, Set_has_elem.
  destruct exclude as [x|].
  - unfold Set_delete. rewrite list_elem_of_filter.
    split; [intros (? & ? & ?) | intros (? & ? & ?)]; split_and!; congruence.
  - split; [intros (? & ?) | intros (? & ? & ?)]; by split_and!.
Qed.

Lemma recipients_NoDup readyState clients exclude :
  NoDup clients → NoDup (recipients readyState clients exclude).
Proof.
  intros Hnd. unfold recipients. apply NoDup_filter.
  destruct exclude; [by apply Set_delete_NoDup | done].
Qed.

(** *** Stored keys along runs of the Hub *)

Lemma keys_ok_Map_set m k s :
  keys_ok m → key_eqb k k = true → keys_ok (Map_set m k s).
Proof.
  induction m as [|[k' s'] m IH]; cbn; intros Hkeys Hk.
  - by split_and!.
  - destruct Hkeys as (Hk' & Hlater & Hkeys).
    destruct (key_eqb k' k) eqn:Hkk; cbn; split_and!; auto.
    by apply (Map_set_keys (fun q => key_eqb k' q = false)).
Qed.

Lemma keys_ok_joined m k ws :
  keys_ok m → key_eqb k k = true → keys_ok (joined m k ws).
Proof. intros. rewrite joined_Map_set by done. by apply keys_ok_Map_set. Qed.

Lemma keys_ok_without ws m : keys_ok m → keys_ok (without ws m).
Proof.
  induction m as [|[k s] m IH]; cbn; [done|].
  intros (Hk & Hlater & Hkeys). split_and!; [done| |auto].
  unfold without. by rewrite Forall_map.
Qed.

Section Keys.
Variable Number_toString : float → string.
Variable Object_toString : value → completion string.

#[local] Abbreviation message := (message Number_toString Object_toString).

Lemma message_join readyState ws data st :
  prop data "type" = Normal (VStr "join") →
  message readyState ws (Json data) st
  = try_catch (on_join Number_toString Object_toString readyState ws data)
      (fun err => emit (ConsoleError "[WS] Parse error:" err)) st.
Proof.
  intros Hty. unfold Hub.message, message_try, JSON_parse.
  run_monad. rewrite Hty. cbn.
  by destruct (on_join _ _ _ ws data st) as [[[[]|e] st1] out1].
Qed.

(** A frame leaves the map as it was, or adds its sender to one channel. *)
Lemma message_channels readyState ws raw st :
  channels (state_of (message readyState ws raw st)) = channels st ∨
  ∃ k, key_eqb k k = true ∧
       channels (state_of (message readyState ws raw st))
       = joined (channels st) k ws.
Proof.
  unfold Hub.message, message_try, state_of. run_monad.
  destruct (JSON_parse raw) as [data|e]; [|by left]. cbn.
  destruct (prop data "type") as [ty|e]; [|by left]. cbn.
  destruct (is_string ty "join").
  - destruct (truthy (field data "channel")) eqn:Htruthy.
    + right. exists (key_of st (field data "channel")).
      split; [by apply key_eqb_truthy|].
      rewrite on_join_run by done.
      by destruct (ToString _ _ (field data "channel")).
    + left. unfold on_join. by rewrite Htruthy.
  - left. destruct (is_string ty "message"); [|done].
    pose proof (on_message_state Number_toString Object_toString readyState
                  ws data st) as Hm. unfold state_of in Hm.
    destruct (on_message _ _ _ ws data st) as [[[[]|e] st1] out1];
      simpl in *; by subst.
Qed.

Lemma keys_ok_run evs st :
  keys_ok (channels st) →
  keys_ok (channels (run Number_toString Object_toString evs st)).
Proof.
  revert st. induction evs as [|[rs ev] evs IH]; intros st Hkeys; [done|].
  cbn [run]. apply IH. destruct ev as [ws|ws raw|ws]; cbn [handle].
  - done.
  - destruct (message_channels rs ws raw st) as [-> | (k & Hk & ->)];
      [done | by apply keys_ok_joined].
  - rewrite close_run by done. by apply keys_ok_without.
Qed.

Lemma keys_ok_reachable st :
  reachable Number_toString Object_toString st → keys_ok (channels st).
Proof. intros [evs ->]. by apply keys_ok_run. Qed.
End Keys.


Lemma sent_to_leave readyState ws w m :
  Forall (fun p => NoDup p.2) m →
  sent_to w (leave_effects readyState ws m)
  = if negb (Nat.eqb w ws) && Nat.eqb (readyState w) WebSocket_OPEN
    then replicate
           (length (filter (fun p => Set_has p.2 ws && Set_has p.2 w = true) m))
           left_notice
    else [].
Proof.
  induction m as [|[k s] m IH]; intros Hwf.
  - cbn. by destruct (negb _ && _).
  - apply Forall_cons in Hwf as [Hs Hm]. cbn in Hs.
    unfold leave_effects in *. cbn [flat_map fst snd].
    rewrite sent_to_app, (IH Hm), filter_cons. cbn [fst snd]. clear IH.
    destruct (Set_has s ws) eqn:Hws; cbn [andb].
    + change (filter (fun c => readyState c = WebSocket_OPEN) (Set_delete s ws))
        with (recipients readyState s (Some ws)).
      rewrite sent_to_notices by by apply recipients_NoDup.
      destruct (Nat.eqb_spec w ws) as [->|Hne]; cbn [negb andb].
      { rewrite bool_decide_eq_false_2; [done|].
        rewrite recipients_elem. tauto. }
      destruct (Nat.eqb_spec (readyState w) WebSocket_OPEN) as [Ho|Ho].
      * destruct (Set_has s w) eqn:Hw.
        -- rewrite decide_True by done.
           rewrite bool_decide_eq_true_2; [done|].
           rewrite recipients_elem. split_and!; [done | congruence | done].
        -- rewrite decide_False by done.
           rewrite bool_decide_eq_false_2; [done|].
           rewrite recipients_elem. intros (? & _). congruence.
      * rewrite bool_decide_eq_false_2; [done|].
        rewrite recipients_elem. tauto.
    + rewrite decide_False by done. done.
Qed.

(** *** Joining and leaving *)

Section HubExtras.
Variable Number_toString : float → string.
Variable Object_toString : value → completion string.
Variable readyState : WS → nat.

#[local] Abbreviation message := (Hub.message Number_toString Object_toString readyState).
#[local] Abbreviation reachable := (Hub.reachable Number_toString Object_toString).

(** X1: a [join] frame with a non-empty string channel [c] returns
    normally and adds the sender to [c], and changes nothing else: every
    other endpoint is in exactly the string channels it was in, and the
    sender stays in every channel it had joined before. *)
Theorem join_adds_sender_only st ws (c : string) data :
  prop data "type" = Normal (VStr "join") →
  field data "channel" = VStr c →
  truthy (VStr c) = true →
  let r := message ws (Json data) st in
  completion_of r = Normal tt ∧
  ∀ c' w, member (state_of r) (VStr c') w
          = member st (VStr c') w || (String.eqb c' c && Nat.eqb w ws).
Proof.
  intros Hty Hch Htruthy r. subst r. rewrite message_join by done.
  unfold try_catch. rewrite on_join_run by by rewrite Hch.
  rewrite Hch. cbn [ToString]. split; [done|]. intros c' w.
  unfold state_of, member. cbn [fst snd channels key_of is_object].
  rewrite joined_Map_set by apply String.eqb_refl.
  rewrite Map_get_set_string.
  destruct (String.eqb c' c) eqn:Hc; cbn [andb].
  - apply String.eqb_eq in Hc as ->. rewrite Set_has_add.
    by destruct (Map_get (channels st) (KVal (VStr c))).
  - by rewrite orb_false_r.
Qed.

(** X2: on such a [join] the sender is sent the two acknowledgements
    ("Joined channel: c", then the one that carries the frame's [id] and
    "Connected to channel: c") and nothing else; every other endpoint that
    was a member of [c] and whose socket is OPEN is sent "A new user
    joined" once; nobody else is sent anything. *)
Theorem join_acknowledged_and_announced st ws (c : string) data :
  reachable st →
  prop data "type" = Normal (VStr "join") →
  field data "channel" = VStr c →
  truthy (VStr c) = true →
  ∀ w, sent_to w (effects_of (message ws (Json data) st))
       = if Nat.eqb w ws
         then [joined_ack (VStr c) c;
               connected_ack (VStr c) (field data "id") c]
         else if member st (VStr c) w && Nat.eqb (readyState w) WebSocket_OPEN
              then [joined_notice (VStr c)]
              else [].
Proof.
  intros Hwf%wf_reachable Hty Hch Htruthy w. rewrite message_join by done.
  unfold try_catch. rewrite on_join_run by by rewrite Hch.
  rewrite Hch. cbn [ToString]. unfold effects_of. cbn [snd].
  set (before := default [] (Map_get (channels st) (key_of st (VStr c)))).
  assert (NoDup before) as Hnd.
  { subst before. destruct (Map_get _ _) as [clients|] eqn:Hget; cbn.
    - by apply (Map_get_Forall NoDup _ _ _ Hwf Hget).
    - constructor. }
  assert (member st (VStr c) w = Set_has before w) as ->.
  { unfold member. subst before. by destruct (Map_get _ _). }
  rewrite !sent_to_send, sent_to_app, (Nat.eqb_sym ws w).
  change (sent_to w [ConsoleLog _ _]) with (@nil value). rewrite app_nil_r.
  rewrite sent_to_notices by by apply recipients_NoDup.
  destruct (Nat.eqb_spec w ws) as [->|Hne].
  - rewrite bool_decide_eq_false_2; [done|]. rewrite recipients_elem. tauto.
  - destruct (Set_has before w) eqn:Hw; cbn [andb].
    + destruct (Nat.eqb_spec (readyState w) WebSocket_OPEN) as [Ho|Ho].
      * rewrite bool_decide_eq_true_2; [done|]. rewrite recipients_elem.
        split_and!; [done | congruence | done].
      * rewrite bool_decide_eq_false_2; [done|]. rewrite recipients_elem. tauto.
    + rewrite bool_decide_eq_false_2; [done|]. rewrite recipients_elem.
      intros (? & _). congruence.
Qed.

(** X3: a [join] frame from an endpoint that is already a member of the
    channel it names leaves the registry exactly as it was. *)
Theorem join_again_keeps_registry st ws data :
  prop data "type" = Normal (VStr "join") →
  member st (field data "channel") ws = true →
  state_of (message ws (Json data) st) = st.
Proof.
  intros Hty Hmem. rewrite message_join by done. unfold try_catch.
  destruct (truthy (field data "channel")) eqn:Htruthy.
  - rewrite on_join_run by done. unfold member, Map_has, joined in *.
    destruct (Map_get (channels st) _) as [clients|] eqn:Hget; [|done].
    rewrite (Set_add_member _ _ Hmem), (Map_set_same _ _ _ Hget).
    destruct st as [m nr].
    by destruct (ToString _ _ (field data "channel")).
  - unfold on_join. by rewrite Htruthy.
Qed.

(** X4: when an endpoint's socket closes, the handler returns normally
    and the endpoint is a member of no channel afterwards; every other
    endpoint is in exactly the channels it was in, and the map keeps every
    channel it had, emptied ones included. *)
Theorem close_leaves_every_channel st ws :
  reachable st →
  let r := close readyState ws st in
  completion_of r = Normal tt ∧
  (∀ ch w, member (state_of r) ch w = member st ch w && negb (Nat.eqb w ws)) ∧
  (channels (state_of r)).*1 = (channels st).*1.
Proof.
  intros Hkeys%keys_ok_reachable r. subst r. rewrite close_run by done.
  split_and!; [done| |].
  - intros ch w. unfold state_of, member, key_of. cbn [fst snd channels next_ref].
    rewrite Map_get_without.
    destruct (Map_get (channels st) _) as [clients|]; cbn; [|done].
    apply Set_has_delete.
  - unfold state_of, without. cbn [fst snd channels].
    rewrite <- list_fmap_compose. done.
Qed.

(** X5: when an endpoint's socket closes, every other endpoint whose
    socket is OPEN is sent "A user has left the channel" once for each
    channel it shared with the closed endpoint; the closed endpoint itself
    and endpoints that are not OPEN are sent nothing. *)
Theorem close_notifies_open_peers st ws w :
  reachable st →
  sent_to w (effects_of (close readyState ws st))
  = if negb (Nat.eqb w ws) && Nat.eqb (readyState w) WebSocket_OPEN
    then replicate (shared_channels st ws w) left_notice
    else [].
Proof.
  intros Hreach. rewrite close_run by by eapply keys_ok_reachable.
  unfold effects_of. cbn [snd].
  change (sent_to w (ConsoleLog ?t ?a :: ?l)) with (sent_to w l).
  apply sent_to_leave. by eapply wf_reachable.
Qed.

(** Whoever else is sent something while a frame is handled is an OPEN
    member of the channel the frame names. *)
Lemma other_recipient_is_member st ws raw w d :
  w ≠ ws →
  Send w d ∈ effects_of (message ws raw st) →
  readyState w = WebSocket_OPEN ∧
  ∃ data, raw = Json data ∧ member st (field data "channel") w = true.
Proof.
  intros Hne.
  unfold Hub.message, message_try, effects_of. run_monad.
  destruct raw as [data|text]; cbn [JSON_parse].
  2: { cbn. rewrite list_elem_of_singleton. done. }
  destruct (prop data "type") as [ty|e];
    [|cbn; rewrite list_elem_of_singleton; done].
  cbn -[on_join on_message].
  assert (∀ (l : list effect) e,
            Send w d ∈ l ++ [ConsoleError "[WS] Parse error:" e] → Send w d ∈ l)
    as Hcatch.
  { intros l e. rewrite elem_of_app, list_elem_of_singleton. by intros [|]. }
  destruct (is_string ty "join"); [|destruct (is_string ty "message")].
  - destruct (truthy (field data "channel")) eqn:Htruthy.
    + rewrite on_join_run by done.
      destruct (ToString _ _ (field data "channel")) as [s|e]; cbn.
      2: { rewrite list_elem_of_singleton. done. }
      rewrite !elem_of_cons, elem_of_app, list_elem_of_singleton.
      intros [?|[?|[Hin|?]]]; try congruence.
      apply list_elem_of_fmap in Hin as (x & [= <-] & Hx).
      apply (recipients_elem readyState _ (Some ws)) in Hx as (Hw & _ & Ho).
      split; [done|]. exists data. split; [done|]. unfold member.
      by destruct (Map_get (channels st) _).
    + unfold on_join. rewrite Htruthy. cbn.
      rewrite list_elem_of_singleton. congruence.
  - unfold on_message, template. run_monad. cbn.
    destruct (Map_get (channels st) _) as [clients|] eqn:Hget; cbn.
    2: { rewrite list_elem_of_singleton. congruence. }
    destruct (Set_has clients ws) eqn:Hws; cbn.
    2: { rewrite list_elem_of_singleton. congruence. }
    destruct (ToString _ _ (field data "channel")) as [s|e]; cbn.
    2: { rewrite list_elem_of_singleton. done. }
    rewrite forEach_send. cbn. rewrite elem_of_cons.
    intros [?|Hin]; [done|].
    apply list_elem_of_fmap in Hin as (x & [= <- _] & Hx).
    apply list_elem_of_filter in Hx as [Ho Hx].
    split; [done|]. exists data. split; [done|]. unfold member.
    rewrite Hget. by apply Set_has_elem.
  - cbn. by rewrite elem_of_nil.
Qed.

(** X6: frames stay within their channel. Whatever frame an endpoint
    sends, any other endpoint that is sent something because of it has an
    OPEN socket and was a member of the channel the frame names. *)
Theorem frames_stay_in_channel st ws raw w d :
  w ≠ ws →
  d ∈ sent_to w (effects_of (message ws raw st)) →
  readyState w = WebSocket_OPEN ∧
  ∃ data, raw = Json data ∧ member st (field data "channel") w = true.
Proof.
  intros Hne Hin%sent_to_elem. by eapply other_recipient_is_member.
Qed.

End HubExtras.

(** *** The two-endpoint scenario, a third endpoint joining and one leaving *)

Lemma join_adds_sender_only_witness :
  let r := message sample_Number_toString sample_Object_toString all_open
             endpointC (join_frame "c1") two_joined in
  completion_of r = Normal tt ∧
  ∀ c' w, member (state_of r) (VStr c') w
          = member two_joined (VStr c') w
            || (String.eqb c' "c1" && Nat.eqb w endpointC).
Proof.
  apply (join_adds_sender_only sample_Number_toString sample_Object_toString
           all_open two_joined endpointC "c1").
  - reflexivity.
  - reflexivity.
  - reflexivity.
Defined.

Lemma join_acknowledged_and_announced_witness :
  let out := effects_of
    (message sample_Number_toString sample_Object_toString B_closing
       endpointC (join_frame "c1") two_joined) in
  sent_to endpointC out
  = (if Nat.eqb endpointC endpointC
     then [joined_ack (VStr "c1") "c1";
           connected_ack (VStr "c1") (VStr "j1") "c1"]
     else if member two_joined (VStr "c1") endpointC
             && Nat.eqb (B_closing endpointC) WebSocket_OPEN
          then [joined_notice (VStr "c1")]
          else []) ∧
  sent_to endpointA out
  = (if Nat.eqb endpointA endpointC
     then [joined_ack (VStr "c1") "c1";
           connected_ack (VStr "c1") (VStr "j1") "c1"]
     else if member two_joined (VStr "c1") endpointA
             && Nat.eqb (B_closing endpointA) WebSocket_OPEN
          then [joined_notice (VStr "c1")]
          else []).
Proof.
  split.
  - apply (join_acknowledged_and_announced sample_Number_toString
             sample_Object_toString B_closing two_joined endpointC "c1"
             (obj [("type", VStr "join"); ("channel", VStr "c1");
                   ("id", VStr "j1")])).
    + by eexists.
    + reflexivity.
    + reflexivity.
    + reflexivity.
  - apply (join_acknowledged_and_announced sample_Number_toString
             sample_Object_toString B_closing two_joined endpointC "c1"
             (obj [("type", VStr "join"); ("channel", VStr "c1");
                   ("id", VStr "j1")])).
    + by eexists.
    + reflexivity.
    + reflexivity.
    + reflexivity.
Defined.

Lemma join_again_keeps_registry_witness :
  state_of (message sample_Number_toString sample_Object_toString all_open
              endpointA (join_frame "c1") two_joined)
  = two_joined.
Proof.
  apply (join_again_keeps_registry sample_Number_toString
           sample_Object_toString all_open two_joined endpointA).
  - reflexivity.
  - reflexivity.
Defined.

Lemma close_leaves_every_channel_witness :
  let r := close all_open endpointB two_joined in
  completion_of r = Normal tt ∧
  (∀ ch w, member (state_of r) ch w
           = member two_joined ch w && negb (Nat.eqb w endpointB)) ∧
  (channels (state_of r)).*1 = (channels two_joined).*1.
Proof.
  apply (close_leaves_every_channel sample_Number_toString
           sample_Object_toString all_open two_joined endpointB).
  by eexists.
Defined.

Lemma close_notifies_open_peers_witness :
  sent_to endpointA (effects_of (close all_open endpointB two_joined))
  = if negb (Nat.eqb endpointA endpointB)
       && Nat.eqb (all_open endpointA) WebSocket_OPEN
    then replicate (shared_channels two_joined endpointB endpointA) left_notice
    else [].
Proof.
  apply (close_notifies_open_peers sample_Number_toString
           sample_Object_toString all_open two_joined endpointB endpointA).
  by eexists.
Defined.

Lemma frames_stay_in_channel_witness :
  all_open endpointB = WebSocket_OPEN ∧
  ∃ data, message_frame "c1" foo1 = Json data ∧
          member two_joined (field data "channel") endpointB = true.
Proof.
  apply (frames_stay_in_channel sample_Number_toString sample_Object_toString
           all_open two_joined endpointA (message_frame "c1" foo1) endpointB
           (broadcast_envelope endpointA (VStr "c1") foo1 endpointB)).
  - unfold endpointA, endpointB. lia.
  - vm_compute. apply list_elem_of_here.
Defined.

End HubRegistry.

(** ** Runs of the Hub after a close *)

Module HubRuns.
Import JS Hub HubFacts HubRegistry.

Section Silence.
Variable Number_toString : float → string.
Variable Object_toString : value → completion string.

#[local] Abbreviation handle := (Hub.handle Number_toString Object_toString).
#[local] Abbreviation reachable := (Hub.reachable Number_toString Object_toString).

Lemma sent_to_nil_intro w out :
  (∀ d, Send w d ∉ out) → sent_to w out = [].
Proof.
  intros Hno. destruct (sent_to w out) as [|d l] eqn:Hsent; [done|exfalso].
  apply (Hno d), sent_to_elem. rewrite Hsent. apply list_elem_of_here.
Qed.

Lemma leave_effects_elem readyState ws w d m :
  Send w d ∈ leave_effects readyState ws m →
  ∃ p, p ∈ m ∧ Set_has p.2 w = true.
Proof.
  unfold leave_effects. rewrite list_elem_of_In, in_flat_map.
  intros ([k s] & Hp%list_elem_of_In & Hin%list_elem_of_In). cbn [fst snd] in Hin.
  exists (k, s). split; [done|].
  destruct (Set_has s ws); [|by apply elem_of_nil in Hin].
  apply list_elem_of_fmap in Hin as (x & [= <-] & Hx).
  apply list_elem_of_filter in Hx as [_ Hx].
  unfold Set_delete in Hx. apply list_elem_of_filter in Hx as [_ Hx].
  by apply Set_has_elem.
Qed.

(** One event of another endpoint sends nothing to an endpoint that is in
    no channel, and leaves it in no channel. *)
Lemma absent_handle readyState st ws ev :
  keys_ok (channels st) → absent ws st → endpoint_of ev ≠ ws →
  let r := handle readyState ev st in
  keys_ok (channels (state_of r)) ∧ absent ws (state_of r) ∧
  sent_to ws (effects_of r) = [].
Proof.
  intros Hkeys Habs Hne r. subst r.
  destruct ev as [w'|w' raw|w']; cbn [Hub.handle endpoint_of] in *.
  - split_and!; [done | done |]. apply sent_to_nil_intro. intros d.
    unfold open, effects_of. run_monad. cbn.
    rewrite !elem_of_cons, elem_of_nil. intros [?|[?|[]]]; congruence.
  - split_and!.
    + destruct (message_channels Number_toString Object_toString readyState
                  w' raw st) as [-> | (k & Hk & ->)];
        [done | by apply keys_ok_joined].
    + unfold absent.
      destruct (message_channels Number_toString Object_toString readyState
                  w' raw st) as [-> | (k & Hk & ->)]; [done|].
      rewrite joined_Map_set by done.
      apply (Map_set_Forall (fun s => Set_has s ws = false)); [done|].
      rewrite Set_has_add, (proj2 (Nat.eqb_neq ws w')) by congruence.
      rewrite orb_false_r.
      destruct (Map_get (channels st) k) as [clients|] eqn:Hget; [|done].
      by apply (Map_get_Forall (fun s => Set_has s ws = false) _ _ _ Habs Hget).
    + apply sent_to_nil_intro. intros d Hin.
      apply other_recipient_is_member in Hin as (_ & data & _ & Hmem);
        [|congruence].
      unfold member in Hmem.
      destruct (Map_get (channels st) _) as [clients|] eqn:Hget; [|done].
      pose proof (Map_get_Forall (fun s => Set_has s ws = false) _ _ _ Habs Hget).
      congruence.
  - rewrite close_run by done. unfold state_of, effects_of.
    cbn [fst snd channels]. split_and!.
    + by apply keys_ok_without.
    + unfold absent, without in *. cbn [channels]. rewrite Forall_map.
      eapply Forall_impl; [exact Habs|]. intros [k s] Hs. cbn [fst snd] in *.
      by rewrite Set_has_delete, Hs.
    + apply sent_to_nil_intro. intros d. rewrite elem_of_cons.
      intros [?|Hin]; [done|].
      apply leave_effects_elem in Hin as (p & Hp & Hmem).
      unfold absent in Habs. rewrite Forall_forall in Habs.
      specialize (Habs p Hp). congruence.
Qed.

(** X18: once the close of an endpoint has been handled, the Hub never
    sends to it again: whatever the other endpoints do afterwards (connect,
    join, send, close), and whatever the sockets' states, none of the frames
    the Hub sends goes to the closed endpoint. *)
Theorem closed_endpoint_is_left_alone readyState st ws evs :
  reachable st →
  Forall (fun e => endpoint_of e.2 ≠ ws) evs →
  sent_to ws (run_effects Number_toString Object_toString evs
                (state_of (close readyState ws st))) = [].
Proof.
  intros Hkeys%keys_ok_reachable Hevs.
  assert (keys_ok (channels (state_of (close readyState ws st))) ∧
          absent ws (state_of (close readyState ws st))) as [Hk Ha].
  { rewrite close_run by done. unfold state_of, absent. cbn [fst snd channels].
    split; [by apply keys_ok_without|]. unfold without. rewrite Forall_map.
    apply Forall_forall. intros [k s] _. cbn [fst snd].
    by rewrite Set_has_delete, Nat.eqb_refl, andb_false_r. }
  clear Hkeys. revert Hk Ha.
  generalize (state_of (close readyState ws st)). clear st.
  induction Hevs as [|[rs ev] evs Hne _ IH]; intros st Hk Ha; [done|].
  cbn [run_effects]. rewrite sent_to_app.
  destruct (absent_handle rs st ws ev Hk Ha Hne) as (Hk' & Ha' & ->).
  by apply IH.
Qed.

End Silence.

Lemma closed_endpoint_is_left_alone_witness :
  sent_to endpointB
    (run_effects sample_Number_toString sample_Object_toString
       [(all_open, Message endpointA (message_frame "c1" foo1));
        (all_open, Message endpointC (join_frame "c1"));
        (all_open, Close endpointA)]
       (state_of (close all_open endpointB two_joined))) = [].
Proof.
  apply (closed_endpoint_is_left_alone sample_Number_toString
           sample_Object_toString all_open two_joined endpointB).
  - by eexists.
  - repeat constructor; unfold endpointA, endpointB, endpointC; cbn; lia.
Defined.

End HubRuns.

(** ** Properties of the Executor *)

Module ExecutorFacts.
Import JS Executor.

Section ExecutorClaims.
Variable World : Type.
Variable call : handler_ref → value → World → outcome * World.
Variable Number_toString : float → string.
Variable Object_toString : value → completion string.
Variable engine_message : exn → string.

#[local] Abbreviation onmessage :=
  (onmessage World call Number_toString Object_toString engine_message).

(** C8, as the code has it: for a [figma_command] envelope whose [command]
    is a string, exactly one reply is posted, and it carries the
    envelope's [id]. If [handlers[command]] finds nothing (the name is
    neither a key of the table nor a property inherited from
    [Object.prototype]) the reply is [{id, error: "Unknown command: " +
    command}] and no handler ran; if the property found throws when called,
    the reply is [{id, error: err.message}]; if it returns, the reply is
    [{id, result}]. An error reply has no [result] field and a result
    reply no [error] field. *)
Theorem onmessage_replies_once (msg : value) (command : string) (w : World) :
  prop msg "type" = Normal (VStr "figma_command") →
  field msg "command" = VStr command →
  let id := field msg "id" in
  let params := match field msg "params" with
                | VUndefined => VObj []
                | p => p
                end in
  ∃ reply w',
    onmessage msg w = (Normal tt, w', [PostMessage reply]) ∧
    (handlers_get command = None →
       reply = VObj [("id", id);
                     ("error", VStr ("Unknown command: " +:+ command))] ∧
       w' = w) ∧
    (∀ h result w1,
       handlers_get command = Some h →
       call h params w = (Returned result, w1) →
       reply = VObj [("id", id); ("result", result)] ∧ w' = w1) ∧
    (∀ h err w1,
       handlers_get command = Some h →
       call h params w = (Threw err, w1) →
       reply = VObj [("id", id); ("error", message_of engine_message err)] ∧
       w' = w1).
Proof.
  intros Hty Hcmd id params. unfold Executor.onmessage, dispatch.
  rewrite Hty, Hcmd. cbn [is_string String.eqb negb ToString].
  fold id. fold params.
  destruct (handlers_get command) as [h|] eqn:Hget.
  - destruct (call h params w) as [[result|err] w1] eqn:Hcall.
    + eexists _, _. split_and!; [done | done | |].
      * intros h0 r0 w0 [= <-] Hc. rewrite Hcall in Hc. by injection Hc as <- <-.
      * intros h0 e0 w0 [= <-] Hc. rewrite Hcall in Hc. discriminate Hc.
    + eexists _, _. split_and!; [done | done | |].
      * intros h0 r0 w0 [= <-] Hc. rewrite Hcall in Hc. discriminate Hc.
      * intros h0 e0 w0 [= <-] Hc. rewrite Hcall in Hc. by injection Hc as <- <-.
  - eexists _, _. split_and!; [done | done | |]; intros; discriminate.
Qed.

End ExecutorClaims.

(** C8 as stated fails on the text of the error: for a command that no
    lookup finds, the reply is not [{id, error: "unknown command"}]. *)
Lemma unknown_command_reply_text :
  handlers_get "nope" = None ∧
  Executor.onmessage nat sample_call Hub.sample_Number_toString
    Hub.sample_Object_toString sample_engine_message
    (command_envelope "r1" "nope" (VObj [])) 0
  = (Normal tt, 0,
     [PostMessage (VObj [("id", VStr "r1");
                         ("error", VStr "Unknown command: nope")])]) ∧
  Executor.onmessage nat sample_call Hub.sample_Number_toString
    Hub.sample_Object_toString sample_engine_message
    (command_envelope "r1" "nope" (VObj [])) 0
  ≠ (Normal tt, 0, [PostMessage (spec_unknown_reply (VStr "r1"))]).
Proof. split_and!; [reflexivity | reflexivity | discriminate]. Qed.

(** A name that is not a key of the table but that [Object.prototype]
    provides is looked up successfully and called. *)
Example inherited_property_is_called :
  has_name handler_names "toString" = false ∧
  Executor.onmessage nat sample_call Hub.sample_Number_toString
    Hub.sample_Object_toString sample_engine_message
    (command_envelope "r2" "toString" (VObj [])) 0
  = (Normal tt, 1,
     [PostMessage (VObj [("id", VStr "r2"); ("result", VStr "toString")])]).
Proof. split; reflexivity. Qed.

Lemma onmessage_replies_once_witness :
  ∃ reply w',
    Executor.onmessage nat sample_call Hub.sample_Number_toString
      Hub.sample_Object_toString sample_engine_message
      (command_envelope "r3" "get_node_info" (VObj [("nodeId", VStr "1:2")])) 0
    = (Normal tt, w', [PostMessage reply]) ∧
    (handlers_get "get_node_info" = None →
       reply = VObj [("id", VStr "r3");
                     ("error", VStr ("Unknown command: " +:+ "get_node_info"))] ∧
       w' = 0) ∧
    (∀ h result w1,
       handlers_get "get_node_info" = Some h →
       sample_call h (VObj [("nodeId", VStr "1:2")]) 0 = (Returned result, w1) →
       reply = VObj [("id", VStr "r3"); ("result", result)] ∧ w' = w1) ∧
    (∀ h err w1,
       handlers_get "get_node_info" = Some h →
       sample_call h (VObj [("nodeId", VStr "1:2")]) 0 = (Threw err, w1) →
       reply = VObj [("id", VStr "r3");
                     ("error", message_of sample_engine_message err)] ∧
       w' = w1).
Proof.
  apply (onmessage_replies_once nat sample_call Hub.sample_Number_toString
           Hub.sample_Object_toString sample_engine_message
           (command_envelope "r3" "get_node_info" (VObj [("nodeId", VStr "1:2")]))
           "get_node_info" 0).
  - reflexivity.
  - reflexivity.
Defined.

End ExecutorFacts.

(** ** Properties of the node handlers *)

Module HandlersFacts.
Import JS Executor Handlers.

Ltac run_handler :=
  unfold mbind, mret, H_bind, H_ret, bind, ret, throw, lift, read, finish in *.

Section HandlerExtras.
Variable World : Type.
Variable Node : Type.
Variable getNodeById : value → World → completion (option Node).
Variable has : Node → string → World → bool.
Variable assign : Node → string → value → H World unit.
Variable resize : Node → value → value → H World unit.
Variable remove : Node → H World unit.
Variable serializeNode : Node → World → completion value.
Variable Number_toString : float → string.
Variable Object_toString : value → completion string.
Variable other : handler_ref → value → World → outcome * World.
Variable engine_message : exn → string.

#[local] Abbreviation onmessage :=
  (onmessage World Node getNodeById has assign resize remove serializeNode
     Number_toString Object_toString other engine_message).
#[local] Abbreviation call :=
  (call World Node getNodeById has assign resize remove serializeNode
     Number_toString Object_toString other).
#[local] Abbreviation ToString := (ToString Number_toString Object_toString).
#[local] Abbreviation answers := (answers World Node getNodeById serializeNode).

(** What [onmessage] posts for a command the table has, given how the
    call of its handler ends. *)
Lemma onmessage_own msg command w :
  prop msg "type" = Normal (VStr "figma_command") →
  field msg "command" = VStr command →
  handlers_get command = Some (Own command) →
  onmessage msg w
  = match call (Own command) (params_of msg) w with
    | (Returned result, w') =>
        (Normal tt, w',
         [PostMessage (VObj [("id", field msg "id"); ("result", result)])])
    | (Threw err, w') =>
        (Normal tt, w',
         [PostMessage (VObj [("id", field msg "id");
                             ("error", message_of engine_message err)])])
    end.
Proof.
  intros Hty Hcmd Hget. unfold Handlers.onmessage, Executor.onmessage, dispatch.
  rewrite Hty, Hcmd. cbn [is_string String.eqb negb JS.ToString]. by rewrite Hget.
Qed.

(** X14: the five handlers that take one node id ([get_node_info],
    [set_fill_color], [move_node], [resize_node], [delete_node]) answer a
    request for an id no node has with the error "Node not found: " followed
    by the id. That is the only reply, and the document is left as it was. *)
Theorem missing_node_is_reported msg command nodeId s w :
  prop msg "type" = Normal (VStr "figma_command") →
  field msg "command" = VStr command →
  has_name by_node_id command = true →
  prop (params_of msg) "nodeId" = Normal nodeId →
  getNodeById nodeId w = Normal None →
  ToString nodeId = Normal s →
  onmessage msg w
  = (Normal tt, w,
     [PostMessage (VObj [("id", field msg "id");
                         ("error", VStr ("Node not found: " +:+ s))])]).
Proof.
  intros Hty Hcmd Hin Hid Hnone Hs.
  unfold has_name in Hin. apply existsb_exists in Hin as (x & Hin & ->%String.eqb_eq).
  cbn in Hin. destruct Hin as [<-|[<-|[<-|[<-|[<-|[]]]]]].
  all: rewrite (onmessage_own msg _ w Hty Hcmd eq_refl).
  all: cbn [Handlers.call String.eqb Ascii.eqb Bool.eqb].
  all: unfold get_node_info, set_fill_color, move_node, resize_node,
         delete_node, node_not_found; run_handler.
  all: rewrite Hid, Hnone, Hs; reflexivity.
Qed.

(** X15: the handlers that write to a node check first that it can take
    the write: [set_fill_color] needs [fills], [move_node] needs [x],
    [resize_node] needs [resize]. On a node without that property the
    request is answered with "Node does not support ..." and nothing has
    been written. *)
Theorem unsupported_node_is_refused msg command property text nodeId n w :
  prop msg "type" = Normal (VStr "figma_command") →
  field msg "command" = VStr command →
  capability command = Some (property, text) →
  prop (params_of msg) "nodeId" = Normal nodeId →
  getNodeById nodeId w = Normal (Some n) →
  has n property w = false →
  onmessage msg w
  = (Normal tt, w,
     [PostMessage (VObj [("id", field msg "id"); ("error", VStr text)])]).
Proof.
  intros Hty Hcmd Hcap Hid Hnode Hhas. unfold capability in Hcap.
  destruct (String.eqb_spec command "set_fill_color") as [->|_];
    [|destruct (String.eqb_spec command "move_node") as [->|_];
      [|destruct (String.eqb_spec command "resize_node") as [->|_]; [|done]]].
  all: injection Hcap as <- <-.
  all: rewrite (onmessage_own msg _ w Hty Hcmd eq_refl).
  all: cbn [Handlers.call String.eqb Ascii.eqb Bool.eqb].
  all: unfold set_fill_color, move_node, resize_node; run_handler.
  all: rewrite Hid, Hnode, Hhas; reflexivity.
Qed.

Lemma mapM_answers ids entries w :
  Forall2 (answers w) ids entries →
  mapM (fun id =>
    node ← read (getNodeById id);
    match node with
    | Some n => read (serializeNode n)
    | None => ret (VObj [("id", id); ("error", VStr "Not found")])
    end) ids w
  = (Normal entries, w).
Proof.
  set (f := fun id : value => _ : H World value).
  induction 1 as [|id e ids entries He _ IH]; [done|].
  assert (f id w = (Normal e, w)) as Hf.
  { subst f. cbn beta. run_handler. unfold Handlers.answers in He.
    destruct (getNodeById id w) as [[n|]|]; [by rewrite He | by subst | done]. }
  cbn [mapM]. unfold mbind, H_bind, bind. rewrite Hf, IH. done.
Qed.

(** X16: [get_nodes_info] answers for each id on its own. Given an array
    of ids, the reply is a result, never an error for a missing node: an
    array with one entry per id, in the order asked, the entry of an id no
    node has being [{id, error: "Not found"}] and the others the
    serialized nodes. The document is left as it was. *)
Theorem get_nodes_info_answers_each msg ids entries w :
  prop msg "type" = Normal (VStr "figma_command") →
  field msg "command" = VStr "get_nodes_info" →
  prop (params_of msg) "nodeIds" = Normal (VArr ids) →
  Forall2 (answers w) ids entries →
  onmessage msg w
  = (Normal tt, w,
     [PostMessage (VObj [("id", field msg "id"); ("result", VArr entries)])]).
Proof.
  intros Hty Hcmd Hids Hall.
  rewrite (onmessage_own msg _ w Hty Hcmd eq_refl).
  cbn [Handlers.call String.eqb Ascii.eqb Bool.eqb].
  unfold get_nodes_info. run_handler. rewrite Hids.
  pose proof (mapM_answers ids entries w Hall) as Hmap. run_handler.
  by rewrite Hmap.
Qed.

End HandlerExtras.

Section AnyCommand.
Variable World : Type.
Variable call : handler_ref → value → World → outcome * World.
Variable Number_toString : float → string.
Variable Object_toString : value → completion string.
Variable engine_message : exn → string.

(** X17: every [figma_command] envelope is answered exactly once,
    whatever its [command] is, a string or not: one reply is posted, it
    carries the envelope's [id] and either a [result] or an [error], never
    both. An envelope without [command] is answered with the error
    "Unknown command: undefined" and no handler runs. *)
Theorem every_command_is_answered msg w :
  prop msg "type" = Normal (VStr "figma_command") →
  ∃ w' key v,
    Executor.onmessage World call Number_toString Object_toString
      engine_message msg w
    = (Normal tt, w', [PostMessage (VObj [("id", field msg "id"); (key, v)])]) ∧
    (key = "result" ∨ key = "error") ∧
    (field msg "command" = VUndefined →
     key = "error" ∧ v = VStr "Unknown command: undefined" ∧ w' = w).
Proof.
  intros Hty. unfold Executor.onmessage, dispatch. rewrite Hty.
  cbn [is_string String.eqb negb].
  destruct (field msg "command") eqn:Hcmd; cbn [ToString].
  1: { eexists _, _, _. split; [done|]. split; [by right | done]. }
  all: match goal with
       | |- context [match ?t with Normal _ => _ | Throw _ => _ end] =>
           destruct t as [k|e]
       | _ => idtac
       end.
  all: try match goal with
       | |- context [handlers_get ?k] => destruct (handlers_get k) as [h|]
       end.
  all: try match goal with
       | |- context [call ?h ?p ?w0] => destruct (call h p w0) as [[r|e0] w1]
       end.
  all: eexists _, _, _; split; [done|]; split; [by auto | done].
Qed.

End AnyCommand.

(** *** Concrete requests *)

Lemma missing_node_is_reported_witness :
  sample_onmessage
    (command_envelope "r1" "delete_node" (VObj [("nodeId", VStr "9:9")]))
    sample_document
  = (Normal tt, sample_document,
     [PostMessage (VObj [("id", VStr "r1");
                         ("error", VStr ("Node not found: " +:+ "9:9"))])]).
Proof.
  apply (missing_node_is_reported sample_World nat sample_getNodeById sample_has
           (fun _ _ _ => sample_bump) (fun _ _ _ => sample_bump)
           (fun _ => sample_bump) sample_serializeNode
           Hub.sample_Number_toString Hub.sample_Object_toString sample_other
           sample_engine_message
           (command_envelope "r1" "delete_node" (VObj [("nodeId", VStr "9:9")]))
           "delete_node" (VStr "9:9") "9:9" sample_document).
  - reflexivity.
  - reflexivity.
  - reflexivity.
  - reflexivity.
  - reflexivity.
  - reflexivity.
Defined.

Lemma unsupported_node_is_refused_witness :
  sample_onmessage
    (command_envelope "r2" "move_node"
       (VObj [("nodeId", VStr "1:3"); ("x", VNum 1%float); ("y", VNum 1%float)]))
    sample_document
  = (Normal tt, sample_document,
     [PostMessage (VObj [("id", VStr "r2");
                         ("error", VStr "Node does not support position")])]).
Proof.
  apply (unsupported_node_is_refused sample_World nat sample_getNodeById
           sample_has (fun _ _ _ => sample_bump) (fun _ _ _ => sample_bump)
           (fun _ => sample_bump) sample_serializeNode
           Hub.sample_Number_toString Hub.sample_Object_toString sample_other
           sample_engine_message
           (command_envelope "r2" "move_node"
              (VObj [("nodeId", VStr "1:3"); ("x", VNum 1%float);
                     ("y", VNum 1%float)]))
           "move_node" "x" "Node does not support position" (VStr "1:3") 1
           sample_document).
  - reflexivity.
  - reflexivity.
  - reflexivity.
  - reflexivity.
  - reflexivity.
  - reflexivity.
Defined.

Lemma get_nodes_info_answers_each_witness :
  sample_onmessage
    (command_envelope "r3" "get_nodes_info"
       (VObj [("nodeIds", VArr [VStr "1:2"; VStr "9:9"])]))
    sample_document
  = (Normal tt, sample_document,
     [PostMessage
        (VObj [("id", VStr "r3");
               ("result",
                VArr [VObj [("id", VStr "1:2"); ("type", VStr "RECTANGLE")];
                      VObj [("id", VStr "9:9"); ("error", VStr "Not found")]])])]).
Proof.
  apply (get_nodes_info_answers_each sample_World nat sample_getNodeById
           sample_has (fun _ _ _ => sample_bump) (fun _ _ _ => sample_bump)
           (fun _ => sample_bump) sample_serializeNode
           Hub.sample_Number_toString Hub.sample_Object_toString sample_other
           sample_engine_message
           (command_envelope "r3" "get_nodes_info"
              (VObj [("nodeIds", VArr [VStr "1:2"; VStr "9:9"])]))
           [VStr "1:2"; VStr "9:9"]).
  - reflexivity.
  - reflexivity.
  - reflexivity.
  - repeat constructor.
Defined.

Lemma every_command_is_answered_witness :
  ∃ w' key v,
    Executor.onmessage nat sample_call Hub.sample_Number_toString
      Hub.sample_Object_toString sample_engine_message
      (VObj [("type", VStr "figma_command"); ("id", VStr "r4")]) 0
    = (Normal tt, w',
       [PostMessage (VObj [("id", field (VObj [("type", VStr "figma_command");
                                               ("id", VStr "r4")]) "id");
                           (key, v)])]) ∧
    (key = "result" ∨ key = "error") ∧
    (field (VObj [("type", VStr "figma_command"); ("id", VStr "r4")]) "command"
     = VUndefined →
     key = "error" ∧ v = VStr "Unknown command: undefined" ∧ w' = 0).
Proof.
  apply (every_command_is_answered nat sample_call Hub.sample_Number_toString
           Hub.sample_Object_toString sample_engine_message
           (VObj [("type", VStr "figma_command"); ("id", VStr "r4")]) 0).
  reflexivity.
Defined.

End HandlersFacts.


(** ** Properties of the Issuer *)

Module IssuerFacts.
Import JS Issuer.

Lemma count_app f (a b : list effect) :
  count f (a ++ b) = count f a + count f b.
Proof. induction a as [|e a IH]; simpl; [done | rewrite IH; lia]. Qed.

Lemma count_quiet_set k out : Forall quiet out → count (is_set k) out = 0.
Proof. induction 1 as [|x l Hx _ IH]; [done|]. by destruct x. Qed.

Lemma count_quiet_del i out : Forall quiet out → count (is_del i) out = 0.
Proof. induction 1 as [|x l Hx _ IH]; [done|]. by destruct x. Qed.

Lemma guarded_nil T R : guarded T R [].
Proof. intros [|x pre] e post Heq; discriminate Heq. Qed.

(** Appending events keeps the trace guarded when each new [T]-event finds
    its [R]-witness among what comes before it. *)
Lemma guarded_app T R tr out :
  guarded T R tr →
  (∀ pre e post, out = pre ++ e :: post → T e →
     ∃ e', e' ∈ tr ++ pre ∧ R e' e) →
  guarded T R (tr ++ out).
Proof.
  intros Htr Hout pre e post Heq HT.
  apply app_eq_app in Heq as [mid [[-> Hpost]|[-> Hmid]]].
  - destruct mid as [|e0 mid]; simpl in Hpost.
    + destruct (Hout [] e post) as (e' & Hin & HR); [by subst | done |].
      exists e'. split; [|done]. by rewrite !app_nil_r in *.
    + injection Hpost as <- ->. by eapply Htr.
  - by eapply Hout.
Qed.

Lemma guarded_app_quiet T R tr out :
  guarded T R tr → Forall (fun e => ¬ T e) out → guarded T R (tr ++ out).
Proof.
  intros Htr Hq. apply guarded_app; [done|].
  intros pre e post -> HT. exfalso.
  apply Forall_app in Hq as [_ Hq]. apply Forall_cons in Hq as [He _]. done.
Qed.

(** *** The registry invariant *)

Section Registry.
Variable uuidv4 : nat → string.
Hypothesis uuidv4_inj : Inj (=) (=) uuidv4.

#[local] Abbreviation call_ok := (call_ok uuidv4).
#[local] Abbreviation registry_ok := (registry_ok uuidv4).

Lemma registry_ok_initial : registry_ok initial.
Proof. by split. Qed.

(** Steps that touch neither the registry nor the life of any call. *)
Lemma registry_ok_quiet st st' out :
  registry_ok st →
  pending st' = pending st → uuids st ≤ uuids st' →
  trace st' = trace st ++ out → Forall quiet out →
  length (calls st') = length (calls st) →
  (∀ k c', calls st' !! k = Some c' →
     ∃ c, calls st !! k = Some c ∧ same_life c c') →
  registry_ok st'.
Proof.
  intros [Hcalls Hpend Hsets Hdels Hdist] Hp Hu Ht Hq Hlen Hsame.
  assert (∀ k, count (is_set k) (trace st') = count (is_set k) (trace st)) as Hcs.
  { intros k. rewrite Ht, count_app, (count_quiet_set k out Hq). lia. }
  assert (∀ i, count (is_del i) (trace st') = count (is_del i) (trace st)) as Hcd.
  { intros i. rewrite Ht, count_app, (count_quiet_del i out Hq). lia. }
  split.
  - intros k c' Hc'. destruct (Hsame k c' Hc') as (c & Hc & Hcor & Htim & Hset & Hcon).
    specialize (Hcalls k c Hc). unfold Issuer.call_ok in *.
    rewrite Hcor, Htim, Hset, Hcs, Hp.
    destruct (correlation c) as [i|] eqn:Hi; [|done].
    rewrite Hcd, Hcon by done.
    destruct Hcalls as (? & ? & (n & Hn & ?) & ?).
    split_and!; [done | done | exists n; split; [lia | done] | done].
  - intros i k Hik. rewrite Hp in Hik. destruct (Hpend i k Hik) as (c & Hc & Hi).
    assert (is_Some (calls st' !! k)) as [c' Hc'].
    { apply lookup_lt_is_Some. rewrite Hlen. by eapply lookup_lt_Some. }
    destruct (Hsame k c' Hc') as (c0 & Hc0 & Hcor & _). simplify_eq.
    exists c'. split; [done | congruence].
  - intros k Hk. rewrite Hcs. apply Hsets. lia.
  - intros n Hn. rewrite Hcd. apply Hdels. lia.
  - intros k k' c1 c1' i Hk Hk' Hi Hi'.
    destruct (Hsame k c1 Hk) as (c & Hc & Hcor & _).
    destruct (Hsame k' c1' Hk') as (c' & Hc' & Hcor' & _).
    eapply (Hdist k k' c c' i); congruence.
Qed.

Lemma same_life_refl c : same_life c c.
Proof. by repeat split. Qed.

(** The calls after [alter f k], read back. *)
Lemma lookup_alter_same_life (f : call → call) k (cs : list call) j c' :
  (∀ c, same_life c (f c)) →
  alter f k cs !! j = Some c' →
  ∃ c, cs !! j = Some c ∧ same_life c c'.
Proof.
  intros Hf Hj. destruct (decide (k = j)) as [->|Hne].
  - rewrite list_lookup_alter_eq in Hj.
    destruct (cs !! j) as [c|]; [|done]. simpl in Hj. simplify_eq. eauto.
  - rewrite list_lookup_alter_ne in Hj by done. eauto using same_life_refl.
Qed.

Lemma registry_ok_emit st out :
  registry_ok st → Forall quiet out → registry_ok (emit out st).
Proof.
  intros Hok Hq. eapply (registry_ok_quiet st); eauto using same_life_refl.
Qed.

Lemma registry_ok_set_ws st w : registry_ok st → registry_ok (set_ws w st).
Proof.
  intros Hok. eapply (registry_ok_quiet st _ []); eauto using same_life_refl.
  by rewrite app_nil_r.
Qed.

Lemma registry_ok_set_now st t : registry_ok st → registry_ok (set_now t st).
Proof.
  intros Hok. eapply (registry_ok_quiet st _ []); eauto using same_life_refl.
  by rewrite app_nil_r.
Qed.

Lemma registry_ok_set_uuids st n :
  registry_ok st → uuids st ≤ n → registry_ok (set_uuids n st).
Proof.
  intros Hok Hn. eapply (registry_ok_quiet st _ []); eauto using same_life_refl.
  by rewrite app_nil_r.
Qed.

Lemma registry_ok_update_known st k c f :
  registry_ok st → calls st !! k = Some c → same_life c (f c) →
  registry_ok (update_call k f st).
Proof.
  intros Hok Hk Hf. eapply (registry_ok_quiet st _ []); eauto.
  - by rewrite app_nil_r.
  - cbn. apply length_alter.
  - intros j c' Hj. cbn in Hj. destruct (decide (k = j)) as [<-|Hne].
    + rewrite list_lookup_alter_eq, Hk in Hj. simpl in Hj. simplify_eq. eauto.
    + rewrite list_lookup_alter_ne in Hj by done. eauto using same_life_refl.
Qed.

Lemma registry_ok_update_call st k f :
  registry_ok st → (∀ c, same_life c (f c)) → registry_ok (update_call k f st).
Proof.
  intros Hok Hf. eapply (registry_ok_quiet st _ []); eauto.
  - by rewrite app_nil_r.
  - cbn. apply length_alter.
  - intros j c' Hj. cbn in Hj. by eapply lookup_alter_same_life.
Qed.

(** A new call enters unregistered. *)
Lemma registry_ok_new_call st c0 :
  registry_ok st →
  correlation c0 = None → timer c0 = None → settlements c0 = [] →
  registry_ok (set_calls (calls st ++ [c0]) st).
Proof.
  intros [Hcalls Hpend Hsets Hdels Hdist] Hcor Htim Hset.
  assert (∀ k c, (calls st ++ [c0]) !! k = Some c →
            calls st !! k = Some c ∨ (k = length (calls st) ∧ c = c0)) as Hlk.
  { intros k c Hk. apply lookup_app_Some in Hk as [Hk|[Hge Hk]]; [by left|].
    right. apply list_lookup_singleton_Some in Hk as [Hk ->].
    split; [lia | done]. }
  split; cbn.
  - intros k c Hk. destruct (Hlk k c Hk) as [Hold|[-> ->]].
    + apply (Hcalls k c Hold).
    + unfold Issuer.call_ok. rewrite Hcor. cbn. split_and!; [done..|].
      by apply Hsets.
  - intros i k Hik. destruct (Hpend i k Hik) as (c & Hc & Hi).
    exists c. split; [|done]. by apply lookup_app_l_Some.
  - intros k Hk. apply Hsets. rewrite length_app in Hk. lia.
  - done.
  - intros k k' c c' i Hk Hk' Hi Hi'.
    destruct (Hlk k c Hk) as [Hold|[-> ->]]; [|congruence].
    destruct (Hlk k' c' Hk') as [Hold'|[-> ->]]; [|congruence].
    by eapply Hdist.
Qed.

(** Registration under a newly drawn id. *)
Lemma registry_ok_register st k c :
  registry_ok st →
  calls st !! k = Some c →
  correlation c = None → connected c = ConnFulfilled →
  registry_ok (register k (uuidv4 (uuids st)) (set_uuids (S (uuids st)) st)).
Proof.
  intros [Hcalls Hpend Hsets Hdels Hdist] Hk Hcor Hcon.
  set (id := uuidv4 (uuids st)).
  pose proof (Hcalls k c Hk) as Hokc. unfold Issuer.call_ok in Hokc.
  rewrite Hcor in Hokc. destruct Hokc as (Htim & Hset & Hcnt).
  assert (∀ j cj i, calls st !! j = Some cj → correlation cj = Some i → i ≠ id)
    as Hfresh.
  { intros j cj i Hj Hi ->. pose proof (Hcalls j cj Hj) as Hokj.
    unfold Issuer.call_ok in Hokj. rewrite Hi in Hokj.
    destruct Hokj as (_ & _ & (n & Hn & Heq) & _).
    apply uuidv4_inj in Heq. lia. }
  split; cbn.
  - intros j c' Hj. destruct (decide (k = j)) as [<-|Hne].
    + rewrite list_lookup_alter_eq, Hk in Hj. simpl in Hj. simplify_eq.
      unfold Issuer.call_ok. cbn. split_and!; [done| |by exists (uuids st); split; [lia|]|].
      * rewrite count_app, Hcnt. cbn. by rewrite Nat.eqb_refl.
      * left. rewrite lookup_insert_eq. split_and!; [done | by eexists | done |].
        rewrite count_app. cbn. unfold id. rewrite (Hdels (uuids st)) by lia. done.
    + rewrite list_lookup_alter_ne in Hj by done.
      pose proof (Hcalls j c' Hj) as Hokj. unfold Issuer.call_ok in *. cbn.
      assert (count (is_set j) (trace st ++ [PendingSet id k])
              = count (is_set j) (trace st)) as ->.
      { rewrite count_app. cbn. destruct (Nat.eqb_spec k j); [done | lia]. }
      destruct (correlation c') as [i|] eqn:Hi; [|done].
      destruct Hokj as (? & ? & (n & Hn & Heq) & Hlife).
      assert (i ≠ id) by by eapply Hfresh.
      rewrite lookup_insert_ne by done.
      assert (count (is_del i) (trace st ++ [PendingSet id k])
              = count (is_del i) (trace st)) as ->.
      { rewrite count_app. cbn. lia. }
      split_and!; [done | done | exists n; split; [lia | done] | done].
  - intros i j Hij. destruct (decide (id = i)) as [<-|Hne].
    + rewrite lookup_insert_eq in Hij. simplify_eq.
      rewrite list_lookup_alter_eq, Hk. by eexists.
    + rewrite lookup_insert_ne in Hij by done.
      destruct (Hpend i j Hij) as (cj & Hj & Hi).
      assert (k ≠ j) by (intros <-; congruence).
      rewrite list_lookup_alter_ne by done. eauto.
  - intros j Hj. rewrite length_alter in Hj. rewrite count_app, Hsets by done.
    cbn. apply lookup_lt_Some in Hk. destruct (Nat.eqb_spec k j); [lia | done].
  - intros n Hn. rewrite count_app, Hdels by lia. done.
  - intros j j' cj cj' i Hj Hj' Hi Hi'.
    destruct (decide (k = j)) as [<-|Hne]; destruct (decide (k = j')) as [<-|Hne'];
      [done | | |].
    + rewrite list_lookup_alter_eq, Hk in Hj. simpl in Hj. simplify_eq.
      rewrite list_lookup_alter_ne in Hj' by done. cbn in Hi. simplify_eq.
      by destruct (Hfresh j' cj' _ Hj' Hi').
    + rewrite list_lookup_alter_eq, Hk in Hj'. simpl in Hj'. simplify_eq.
      rewrite list_lookup_alter_ne in Hj by done. cbn in Hi'. simplify_eq.
      by destruct (Hfresh j cj _ Hj Hi).
    + rewrite list_lookup_alter_ne in Hj, Hj' by done. by eapply Hdist.
Qed.

Lemma alter_as_insert (f : call → call) k (cs : list call) c :
  cs !! k = Some c → alter f k cs = <[k := f c]> cs.
Proof.
  intros Hk. apply list_eq. intros j. destruct (decide (k = j)) as [<-|Hne].
  - rewrite list_lookup_alter_eq, Hk, list_lookup_insert_eq; [done|].
    by eapply lookup_lt_Some.
  - by rewrite list_lookup_alter_ne, list_lookup_insert_ne.
Qed.

Lemma is_del_other i j b : i ≠ j → is_del j (PendingDelete i b) = false.
Proof.
  intros Hne. destruct b; [|done]. cbn. by apply String.eqb_neq.
Qed.

(** The entry of call [k] is deleted, by the reply or by the timer, and the
    call is either left as it is or settled with its timer gone. *)
Lemma registry_ok_retire st st' k c c' i :
  registry_ok st →
  calls st !! k = Some c → correlation c = Some i → is_Some (timer c) →
  pending st' = delete i (pending st) →
  uuids st' = uuids st →
  trace st' = trace st
                ++ [PendingDelete i (bool_decide (is_Some (pending st !! i)))] →
  calls st' = <[k := c']> (calls st) →
  correlation c' = Some i → connected c' = connected c →
  (timer c' = timer c ∧ settlements c' = settlements c) ∨
  (timer c' = None ∧ ∃ o, settlements c' = settlements c ++ [o]) →
  registry_ok st'.
Proof.
  intros [Hcalls Hpend Hsets Hdels Hdist] Hk Hi Htim Hp Hu Ht Hc Hi' Hcon Hlife.
  pose proof (lookup_lt_Some _ _ _ Hk) as Hlt.
  pose proof (Hcalls k c Hk) as Hokc. unfold Issuer.call_ok in Hokc.
  rewrite Hi in Hokc. destruct Hokc as (Hconn & Hcnt & (n & Hn & Hin) & Hst).
  assert (∀ j, count (is_set j) (trace st') = count (is_set j) (trace st)) as Hcs.
  { intros j. rewrite Ht, count_app. cbn. lia. }
  assert (∀ j, i ≠ j → count (is_del j) (trace st') = count (is_del j) (trace st))
    as Hcd.
  { intros j Hne. rewrite Ht, count_app. cbn [count].
    rewrite is_del_other by done. lia. }
  split.
  - intros j cj Hj. rewrite Hc in Hj. destruct (decide (k = j)) as [<-|Hne].
    + rewrite list_lookup_insert_eq in Hj by done. simplify_eq.
      unfold Issuer.call_ok. rewrite Hi', Hcon, Hcs, Hu, Hp, lookup_delete_eq.
      split_and!; [done | done | by eauto |]. right. split; [done|].
      rewrite Ht, count_app. cbn.
      destruct Hst as [(Hpi & _ & Hset & Hcd0)|(Hpi & Hcd1 & Hrest)].
      * rewrite Hpi, bool_decide_eq_true_2 by by eexists. cbn.
        rewrite String.eqb_refl, Hcd0. split; [done|].
        destruct Hlife as [[-> ->]|[-> [o ->]]]; [by left | right].
        by rewrite Hset.
      * rewrite Hpi, bool_decide_eq_false_2 by by intros [? ?]. cbn.
        split; [lia|]. destruct Hrest as [[_ Hset]|[Hnone _]].
        -- destruct Hlife as [[-> ->]|[-> [o ->]]]; [by left | right].
           by rewrite Hset.
        -- rewrite Hnone in Htim. by destruct Htim.
    + rewrite list_lookup_insert_ne in Hj by done.
      pose proof (Hcalls j cj Hj) as Hokj. unfold Issuer.call_ok in *.
      rewrite Hcs, Hu, Hp. destruct (correlation cj) as [ij|] eqn:Hij; [|done].
      assert (i ≠ ij) as Hneq.
      { intros <-. apply Hne. by eapply (Hdist k j c cj i). }
      rewrite Hcd, lookup_delete_ne by done. done.
  - intros i0 j Hj. rewrite Hp in Hj.
    apply lookup_delete_Some in Hj as [Hne Hj].
    destruct (Hpend i0 j Hj) as (cj & Hcj & Hij).
    assert (k ≠ j) by (intros <-; congruence).
    exists cj. by rewrite Hc, list_lookup_insert_ne.
  - intros j Hj. rewrite Hc, length_insert in Hj. rewrite Hcs. by apply Hsets.
  - intros m Hm. rewrite Hu in Hm. rewrite Hcd; [by apply Hdels|].
    intros Heq. rewrite Hin in Heq. apply uuidv4_inj in Heq. lia.
  - assert (∀ j cj ij, calls st' !! j = Some cj → correlation cj = Some ij →
              ∃ cj0, calls st !! j = Some cj0 ∧ correlation cj0 = Some ij) as Hback.
    { intros j cj ij Hj Hij. rewrite Hc in Hj.
      destruct (decide (k = j)) as [<-|Hne].
      - rewrite list_lookup_insert_eq in Hj by done. simplify_eq.
        exists c. split; [done | congruence].
      - rewrite list_lookup_insert_ne in Hj by done. eauto. }
    intros j j' cj cj' ij Hj Hj' Hij Hij'.
    destruct (Hback j cj ij Hj Hij) as (? & ? & ?).
    destruct (Hback j' cj' ij Hj' Hij') as (? & ? & ?).
    by eapply Hdist.
Qed.

End Registry.

(** *** Sockets and the wire *)

Lemma readyState_update_call st k f s :
  (∀ c, socket (f c) = socket c) →
  readyState (update_call k f st) s = readyState st s.
Proof.
  intros Hf. unfold readyState. cbn.
  destruct (decide (k = s)) as [<-|Hne].
  - rewrite list_lookup_alter_eq. destruct (calls st !! k); [|done]. cbn. apply Hf.
  - by rewrite list_lookup_alter_ne.
Qed.

Lemma readyState_set_other st s r s' :
  s ≠ s' → readyState (set_readyState s r st) s' = readyState st s'.
Proof.
  intros Hne. unfold readyState, set_readyState. cbn.
  by rewrite list_lookup_alter_ne.
Qed.

Lemma readyState_set_same st s r :
  is_Some (readyState st s) → readyState (set_readyState s r st) s = Some r.
Proof.
  unfold readyState, set_readyState. cbn. rewrite list_lookup_alter_eq.
  destruct (calls st !! s); [done | by intros [? ?]].
Qed.

Lemma wire_ok_initial : wire_ok initial.
Proof. split; [apply guarded_nil | apply guarded_nil | done]. Qed.

(** Steps that send no request. *)
Lemma wire_ok_quiet st st' out :
  wire_ok st →
  trace st' = trace st ++ out →
  Forall (fun e => ¬ is_request e) out →
  (∀ s, ws st' = Some s → readyState st' s = Some OPEN →
     (ws st = Some s ∧ readyState st s = Some OPEN) ∨
     ∃ u, Transmit s (JoinFrame u) ∈ trace st') →
  wire_ok st'.
Proof.
  intros [Hreg Hjoin Hws] Ht Hq Hws'. split.
  - rewrite Ht. by apply guarded_app_quiet.
  - rewrite Ht. by apply guarded_app_quiet.
  - intros s Hs Ho. destruct (Hws' s Hs Ho) as [[Hs0 Ho0]|Hin]; [|done].
    destruct (Hws s Hs0 Ho0) as (u & Hu). exists u. rewrite Ht.
    apply elem_of_app. by left.
Qed.

Section Steps.
Variable uuidv4 : nat → string.
Hypothesis uuidv4_inj : Inj (=) (=) uuidv4.
Variable Number_toString : float → string.
Variable Object_toString : value → completion string.

#[local] Abbreviation registry_ok := (registry_ok uuidv4).
#[local] Abbreviation invariant := (invariant uuidv4).
#[local] Abbreviation sendCommand_resume := (sendCommand_resume uuidv4).
#[local] Abbreviation step := (step uuidv4 Number_toString Object_toString).
#[local] Abbreviation run := (run uuidv4 Number_toString Object_toString).
#[local] Abbreviation reachable :=
  (reachable uuidv4 Number_toString Object_toString).

(** What [sendCommand_resume] does when the global socket accepts a [send]. *)
Lemma sendCommand_resume_sends st k c g :
  calls st !! k = Some c → ws st = Some g →
  readyState st g ≠ Some CONNECTING →
  sendCommand_resume k st
  = emit (match readyState st g with
          | Some OPEN =>
              [Transmit g (RequestFrame (uuidv4 (uuids st)) (command c) (params c))]
          | Some CLOSING | Some CLOSED =>
              [Discard g (RequestFrame (uuidv4 (uuids st)) (command c) (params c))]
          | _ => []
          end)
      (register k (uuidv4 (uuids st)) (set_uuids (S (uuids st)) st)).
Proof.
  intros Hk Hg Hnc. unfold Issuer.sendCommand_resume. rewrite Hk.
  unfold ws_send, socket_send. cbn [ws register emit set_pending update_call set_calls set_uuids].
  rewrite Hg.
  match goal with |- context [readyState ?s g] =>
    replace (readyState s g) with (readyState st g) end.
  2:{ unfold readyState. cbn. destruct (decide (k = g)) as [<-|Hne].
      - rewrite list_lookup_alter_eq, Hk. done.
      - by rewrite list_lookup_alter_ne. }
  destruct (readyState st g) as [[]|]; done.
Qed.

Lemma invariant_resume st k c g :
  invariant st →
  calls st !! k = Some c → correlation c = None → connected c = ConnFulfilled →
  ws st = Some g → readyState st g ≠ Some CONNECTING →
  invariant (sendCommand_resume k st).
Proof.
  intros [Hreg Hwire] Hk Hcor Hcon Hg Hnc.
  rewrite (sendCommand_resume_sends st k c g) by done.
  set (id := uuidv4 (uuids st)).
  set (out := match readyState st g with
              | Some OPEN => [Transmit g (RequestFrame id (command c) (params c))]
              | Some CLOSING | Some CLOSED =>
                  [Discard g (RequestFrame id (command c) (params c))]
              | _ => []
              end).
  split.
  - apply registry_ok_emit; [by eapply registry_ok_register|].
    unfold out. destruct (readyState st g) as [[]|]; repeat constructor.
  - destruct Hwire as [Hfirst Hjoin Hws]. split; cbn.
    + rewrite <- app_assoc. apply guarded_app; [done|].
      intros pre e post Heq He. unfold out in Heq.
      destruct (readyState st g) as [[]|];
        destruct pre as [|e1 [|e2 [|e3 pre]]]; cbn in Heq; simplify_eq;
        try done.
      exists (PendingSet id k). split; [|done].
      apply elem_of_app. right. apply list_elem_of_here.
    + rewrite <- app_assoc. apply guarded_app; [done|].
      intros pre e post Heq He. unfold out in Heq.
      destruct (readyState st g) as [[]|] eqn:Hrs;
        destruct pre as [|e1 [|e2 [|e3 pre]]]; cbn in Heq; simplify_eq;
        try done.
      destruct (Hws g Hg Hrs) as (u & Hu).
      exists (Transmit g (JoinFrame u)). split; [|done].
      apply elem_of_app. by left.
    + intros s Hs Ho. rewrite Hs in Hg. simplify_eq.
      change (readyState (update_call k
                (fun c0 => with_timer (Some (now st + TIMEOUT_MS)%N)
                             (with_correlation (Some id) c0)) st) g = Some OPEN) in Ho.
      rewrite readyState_update_call in Ho by done.
      destruct (Hws g Hs Ho) as (u & Hu). exists u.
      rewrite <- app_assoc. apply elem_of_app. by left.
Qed.

Lemma readyState_Some_lt st s r : readyState st s = Some r → s < length (calls st).
Proof.
  unfold readyState. intros Hr.
  destruct (calls st !! s) as [c|] eqn:Hs; [|done]. by eapply lookup_lt_Some.
Qed.

Lemma readyState_new_call st c0 s :
  s < length (calls st) →
  readyState (set_calls (calls st ++ [c0]) st) s = readyState st s.
Proof. intros Hlt. unfold readyState. cbn. by rewrite lookup_app_l. Qed.

Lemma readyState_new_call_self st c0 :
  readyState (set_calls (calls st ++ [c0]) st) (length (calls st)) = socket c0.
Proof. unfold readyState. cbn. by rewrite list_lookup_middle. Qed.

Lemma readyState_new_call_inv st c0 s r :
  readyState (set_calls (calls st ++ [c0]) st) s = Some r →
  readyState st s = Some r ∨ (s = length (calls st) ∧ socket c0 = Some r).
Proof.
  intros Hr. destruct (decide (s < length (calls st))) as [Hlt|Hge].
  - left. by rewrite readyState_new_call in Hr.
  - right. pose proof (readyState_Some_lt _ _ _ Hr) as Hlt. cbn in Hlt.
    rewrite length_app in Hlt. cbn in Hlt.
    assert (s = length (calls st)) as -> by lia.
    by rewrite readyState_new_call_self in Hr.
Qed.

Lemma alter_snoc (f : call → call) (cs : list call) c0 :
  alter f (length cs) (cs ++ [c0]) = cs ++ [f c0].
Proof.
  replace (length cs) with (length cs + 0) at 1 by lia.
  by rewrite alter_app_r.
Qed.

Lemma readyState_snoc_unopened st c0 s :
  socket c0 = None →
  readyState (set_calls (calls st ++ [c0]) st) s = readyState st s.
Proof.
  intros H0. unfold readyState. cbn.
  destruct (decide (s < length (calls st))) as [Hlt|Hge].
  - by rewrite lookup_app_l.
  - rewrite (lookup_ge_None_2 (calls st)) by lia.
    destruct (decide (s = length (calls st))) as [->|Hne].
    + rewrite list_lookup_middle by done. cbn. by rewrite H0.
    + rewrite lookup_ge_None_2; [done|]. rewrite length_app. cbn. lia.
Qed.

(** [sendCommand] by cases on what [connect()] finds. *)
Lemma sendCommand_unfold cmd ps st :
  sendCommand uuidv4 cmd ps st
  = match ws st ≫= readyState st with
    | Some OPEN =>
        sendCommand_resume (length (calls st))
          (set_calls (calls st ++ [mkCall cmd (or_default ps) None ConnFulfilled None None []]) st)
    | _ =>
        set_ws (Some (length (calls st)))
          (set_calls (calls st ++ [mkCall cmd (or_default ps) (Some CONNECTING) ConnPending
                                     None None []]) st)
    end.
Proof.
  unfold sendCommand, connect. cbn [ws set_calls].
  assert (ws st ≫= readyState
            (set_calls (calls st ++ [mkCall cmd (or_default ps) None ConnPending None None []]) st)
          = ws st ≫= readyState st) as Heq.
  { destruct (ws st) as [g|]; [|done]. cbn.
    by apply readyState_snoc_unopened. }
  change (mkState (ws st)
            (calls st ++ [mkCall cmd (or_default ps) None ConnPending None None []])
            (pending st) (uuids st) (now st) (trace st))
    with (set_calls (calls st ++ [mkCall cmd (or_default ps) None ConnPending None None []]) st).
  rewrite Heq. clear Heq.
  destruct (ws st ≫= readyState st) as [[]|];
    unfold update_call, set_ws, set_calls; cbn [calls ws pending uuids now trace];
    rewrite alter_snoc, list_lookup_middle by done; done.
Qed.

Lemma invariant_sendCommand st cmd ps :
  invariant st → invariant (sendCommand uuidv4 cmd ps st).
Proof.
  intros [Hreg Hwire]. rewrite sendCommand_unfold.
  destruct (ws st ≫= readyState st) as [[]|] eqn:Hopen.
  2:{ destruct (ws st) as [g|] eqn:Hg; [|done]. cbn in Hopen.
      pose proof (readyState_Some_lt _ _ _ Hopen) as Hlt.
      set (c0 := mkCall cmd (or_default ps) None ConnFulfilled None None []).
      eapply (invariant_resume _ _ c0 g).
      - split; [by apply registry_ok_new_call|].
        eapply (wire_ok_quiet st _ []); [done | by rewrite app_nil_r | done |].
        intros s Hs Ho. left. split; [done|].
        by destruct (readyState_new_call_inv _ _ _ _ Ho) as [?|[_ ?]].
      - cbn. by rewrite list_lookup_middle.
      - done.
      - done.
      - done.
      - rewrite readyState_new_call by done. by rewrite Hopen. }
  all: set (c0 := mkCall cmd (or_default ps) (Some CONNECTING) ConnPending None None []);
    (split;
     [ by apply registry_ok_set_ws, registry_ok_new_call
     | eapply (wire_ok_quiet st _ []); [done | by rewrite app_nil_r | done |];
       intros s Hs Ho; cbn in Hs; simplify_eq;
       change (readyState (set_calls (calls st ++ [c0]) st) (length (calls st))
               = Some OPEN) in Ho;
       by rewrite readyState_new_call_self in Ho ]).
Qed.

(** Removal of the entry of call [k], with or without settlement: the
    common part of the reply path and the timeout path. *)
Lemma invariant_retire st st' k c c' i :
  invariant st →
  calls st !! k = Some c → correlation c = Some i → is_Some (timer c) →
  ws st' = ws st →
  pending st' = delete i (pending st) →
  uuids st' = uuids st →
  trace st' = trace st
                ++ [PendingDelete i (bool_decide (is_Some (pending st !! i)))] →
  calls st' = <[k := c']> (calls st) →
  correlation c' = Some i → connected c' = connected c → socket c' = socket c →
  (timer c' = timer c ∧ settlements c' = settlements c) ∨
  (timer c' = None ∧ ∃ o, settlements c' = settlements c ++ [o]) →
  invariant st'.
Proof.
  intros [Hreg Hwire] Hk Hi Htim Hws Hp Hu Ht Hc Hi' Hcon Hsock Hlife. split.
  - by eapply (registry_ok_retire uuidv4 uuidv4_inj st st' k c c' i).
  - eapply (wire_ok_quiet st st' [PendingDelete i _]);
      [done | exact Ht | apply Forall_singleton; cbn; tauto |].
    intros s Hs Ho. left. rewrite Hws in Hs. split; [done|].
    unfold readyState in *. rewrite Hc in Ho.
    destruct (decide (k = s)) as [<-|Hne].
    + rewrite list_lookup_insert_eq in Ho by by eapply lookup_lt_Some.
      rewrite Hk. cbn in *. congruence.
    + by rewrite list_lookup_insert_ne in Ho.
Qed.

Lemma pending_get_Some st id i k :
  pending_get st id = Some (i, k) ↔ id = VStr i ∧ pending st !! i = Some k.
Proof.
  unfold pending_get. destruct id as [| | | |i0| |]; try (split; [done | by intros [? ?]]).
  destruct (pending st !! i0) as [k0|] eqn:Hi0; cbn.
  - split; [by intros [= <- <-] | intros [[= <-] ?]; by simplify_eq].
  - split; [done | intros [[= <-] ?]; congruence].
Qed.

(** A waiting call: registered, timer armed, promise unsettled. *)
Lemma pending_call_waiting st i k :
  registry_ok st → pending st !! i = Some k →
  ∃ c, calls st !! k = Some c ∧ correlation c = Some i ∧
       connected c = ConnFulfilled ∧ is_Some (timer c) ∧ settlements c = [].
Proof.
  intros Hreg Hik. destruct (pending_ok _ _ Hreg i k Hik) as (c & Hk & Hi).
  pose proof (calls_ok _ _ Hreg k c Hk) as Hok. unfold call_ok in Hok.
  rewrite Hi in Hok. destruct Hok as (Hcon & _ & _ & [(_ & Ht & Hs & _)|(Hn & _)]).
  - by exists c.
  - congruence.
Qed.

Lemma invariant_on_message st raw :
  invariant st → invariant (on_message Number_toString Object_toString raw st).
Proof.
  intros Hinv. unfold on_message.
  destruct (JSON_parse raw) as [data|]; [|done].
  destruct (prop data "type") as [ty|]; [|done].
  destruct (is_string ty "broadcast" && truthy (field data "message")); [|done].
  destruct (pending_get st _) as [[i k]|] eqn:Hget; [|done].
  apply pending_get_Some in Hget as [_ Hik].
  destruct (pending_call_waiting st i k (proj1 Hinv) Hik)
    as (c & Hk & Hi & Hcon & Htim & Hset).
  destruct (truthy (field (field data "message") "error")).
  - destruct (ToString _ _ _) as [m|].
    + eapply (invariant_retire st _ k c
                (settle (Rejected (Error m)) (with_timer None c)) i);
        try done; [|right; split; [done | by eexists]].
      cbn. by apply (alter_as_insert (fun c0 => settle _ (with_timer None c0))).
    + eapply (invariant_retire st _ k c c i); try done; [|by left].
      cbn. symmetry. by apply list_insert_id.
  - eapply (invariant_retire st _ k c
              (settle (Resolved (field (field data "message") "result"))
                 (with_timer None c)) i);
      try done; [|right; split; [done | by eexists]].
    cbn. by apply (alter_as_insert (fun c0 => settle _ (with_timer None c0))).
Qed.

Lemma invariant_timer_fire st k due :
  invariant st →
  timer <$> calls st !! k = Some (Some due) →
  invariant (on_timeout k (update_call k (with_timer None) st)).
Proof.
  intros Hinv Hdue. destruct (calls st !! k) as [c|] eqn:Hk; [|done].
  cbn in Hdue. injection Hdue as Hdue.
  pose proof (calls_ok _ _ (proj1 Hinv) k c Hk) as Hok. unfold call_ok in Hok.
  unfold on_timeout. cbn [calls update_call set_calls].
  rewrite list_lookup_alter_eq, Hk. cbn [fmap option_fmap option_map correlation with_timer].
  destruct (correlation c) as [i|] eqn:Hi.
  2:{ destruct Hok as (Hnone & _). congruence. }
  eapply (invariant_retire st _ k c
            (settle (Rejected (Error ("Timeout waiting for Figma response (command: "
                                      +:+ command c +:+ ")")))
               (with_timer None c)) i);
    try done; [|right; split; [done | by eexists]].
  cbn. rewrite (alter_as_insert _ k (calls st) c Hk).
  rewrite (alter_as_insert _ k _ (with_timer None c)).
  - by rewrite list_insert_insert_eq.
  - apply list_lookup_insert_eq. by eapply lookup_lt_Some.
Qed.

Lemma invariant_set_readyState st s r :
  invariant st → r ≠ OPEN → invariant (set_readyState s r st).
Proof.
  intros [Hreg Hwire] Hr. split.
  - by apply registry_ok_update_call.
  - eapply (wire_ok_quiet st _ []); [done | by rewrite app_nil_r | done |].
    intros s' Hs' Ho. left. split; [done|].
    destruct (decide (s = s')) as [<-|Hne].
    + unfold readyState, set_readyState in Ho. cbn in Ho.
      rewrite list_lookup_alter_eq in Ho.
      destruct (calls st !! s); cbn in Ho; congruence.
    + by rewrite readyState_set_other in Ho.
Qed.

Lemma invariant_emit_log st lv m :
  invariant st → invariant (emit [Stderr lv m] st).
Proof.
  intros [Hreg Hwire]. split.
  - apply registry_ok_emit; [done | by repeat constructor].
  - eapply (wire_ok_quiet st _ [Stderr lv m]);
      [done | done | apply Forall_singleton; cbn; tauto | by left].
Qed.

Lemma invariant_set_ws_None st : invariant st → invariant (set_ws None st).
Proof.
  intros [Hreg Hwire]. split; [by apply registry_ok_set_ws|].
  by eapply (wire_ok_quiet st _ []); [done | by rewrite app_nil_r | done |].
Qed.

Lemma invariant_set_now st t : invariant st → invariant (set_now t st).
Proof.
  intros [Hreg Hwire]. split; [by apply registry_ok_set_now|].
  eapply (wire_ok_quiet st _ []); [done | by rewrite app_nil_r | done |].
  by left.
Qed.

(** A call whose connect promise is not fulfilled has not registered. *)
Lemma unconnected_unregistered st k c :
  registry_ok st → calls st !! k = Some c → connected c ≠ ConnFulfilled →
  correlation c = None.
Proof.
  intros Hreg Hk Hcon. pose proof (calls_ok _ _ Hreg k c Hk) as Hok.
  unfold call_ok in Hok. destruct (correlation c); [|done].
  by destruct Hok as (? & _).
Qed.

Lemma invariant_on_error st s m :
  invariant st → invariant (on_error s m st).
Proof.
  intros Hinv. unfold on_error.
  pose proof (invariant_emit_log st ERROR ("WebSocket error: " +:+ m) Hinv)
    as [Hreg Hwire].
  set (st1 := emit [Stderr ERROR ("WebSocket error: " +:+ m)] st) in *.
  set (f := fun c => match connected c with
                     | ConnPending => with_connected (ConnRejected (Error m)) c
                     | _ => c
                     end).
  split.
  - eapply (registry_ok_quiet _ st1 _ []); try done.
    + by rewrite app_nil_r.
    + cbn. apply length_alter.
    + intros j c' Hj. change (alter f s (calls st1) !! j = Some c') in Hj.
      destruct (decide (s = j)) as [<-|Hne].
      * rewrite list_lookup_alter_eq in Hj.
        destruct (calls st1 !! s) as [c|] eqn:Hs; [|done].
        cbn in Hj. simplify_eq. exists c. split; [done|].
        unfold f. destruct (connected c) eqn:Hc; try apply same_life_refl.
        repeat split; try done. intros [i Hi].
        rewrite (unconnected_unregistered st1 s c) in Hi; [done..|congruence].
      * rewrite list_lookup_alter_ne in Hj by done. eauto using same_life_refl.
  - eapply (wire_ok_quiet st1 _ []); [done | by rewrite app_nil_r | done |].
    intros s' Hs' Ho. left. split; [done|].
    rewrite readyState_update_call in Ho; [done|].
    intros c. unfold f. by destruct (connected c).
Qed.

(** The [open] listener once its join has been handed to [send]: [out] is
    what that [send] did. *)
Lemma invariant_open_sent st s g out st' :
  invariant st → ws st = Some g →
  let st1 := emit [Stderr INFO "Connected to WebSocket server"]
               (set_readyState s OPEN st) in
  readyState st1 g ≠ Some CONNECTING →
  Forall quiet out → Forall (fun e => ¬ is_request e) out →
  (readyState st1 g = Some OPEN → ∃ u, Transmit g (JoinFrame u) ∈ out) →
  let st2 := emit out (set_uuids (S (uuids st1)) st1) in
  match connected <$> calls st2 !! s with
  | Some ConnPending =>
      Running (sendCommand_resume s (update_call s (with_connected ConnFulfilled) st2))
  | _ => Running st2
  end = Running st' →
  invariant st'.
Proof.
  intros [Hreg Hwire] Hg st1 Hnc Hq Hnr Hjoin st2 Hres.
  assert (invariant st2) as [Hreg2 Hwire2].
  { split.
    - apply registry_ok_emit; [|done]. apply registry_ok_set_uuids; [|cbn; lia].
      apply registry_ok_emit; [|by repeat constructor].
      by apply registry_ok_update_call.
    - eapply (wire_ok_quiet st st2
                ([Stderr INFO "Connected to WebSocket server"] ++ out)).
      + done.
      + cbn. by rewrite <- app_assoc.
      + apply Forall_app. split; [apply Forall_singleton; cbn; tauto | done].
      + intros s' Hs' Ho. right. cbn in Hs'. rewrite Hg in Hs'. simplify_eq.
        destruct (Hjoin Ho) as (u & Hu). exists u. cbn.
        apply elem_of_app. by right. }
  destruct (calls st2 !! s) as [c2|] eqn:Hs2; cbn in Hres; [|by simplify_eq].
  destruct (connected c2) eqn:Hc2; try by simplify_eq.
  injection Hres as <-.
  eapply (invariant_resume _ s (with_connected ConnFulfilled c2) g).
  - split.
    + apply (registry_ok_update_known _ st2 s c2); [done | done |].
      repeat split; try done. intros [i Hi].
      rewrite (unconnected_unregistered st2 s c2) in Hi; [done..|congruence].
    + eapply (wire_ok_quiet st2 _ []); [done | by rewrite app_nil_r | done |].
      intros s' Hs' Ho. left. split; [done|].
      by rewrite readyState_update_call in Ho.
  - change (alter (with_connected ConnFulfilled) s (calls st2) !! s
            = Some (with_connected ConnFulfilled c2)).
    by rewrite list_lookup_alter_eq, Hs2.
  - cbn. apply (unconnected_unregistered st2 s c2); [done | done | congruence].
  - done.
  - done.
  - by rewrite readyState_update_call.
Qed.

Lemma invariant_on_open st s st' :
  invariant st →
  on_open uuidv4 s (set_readyState s OPEN st) = Running st' →
  invariant st'.
Proof.
  intros Hinv. unfold on_open.
  set (st1 := emit [Stderr INFO "Connected to WebSocket server"]
                (set_readyState s OPEN st)).
  destruct (ws st1) as [g|] eqn:Hg; [|done].
  unfold socket_send.
  destruct (readyState st1 g) as [[]|] eqn:Hrg; [done|..];
    apply (invariant_open_sent st s g); try done;
    fold st1; rewrite ?Hrg; try done;
    try (by repeat constructor);
    try (apply Forall_singleton; cbn; tauto).
  intros _. eexists. apply list_elem_of_here.
Qed.

(** *** The invariant holds in every reachable state *)

Lemma invariant_initial : invariant initial.
Proof. split; [apply registry_ok_initial | apply wire_ok_initial]. Qed.

Lemma invariant_step st ev st' :
  invariant st → step st ev = Running st' → invariant st'.
Proof.
  intros Hinv Hstep. destruct ev as [cmd ps|s|s raw|s|s m|s|k|dt]; cbn in Hstep.
  - injection Hstep as <-. by apply invariant_sendCommand.
  - destruct (readyState st s) as [[]|]; try by simplify_eq.
    by eapply invariant_on_open.
  - destruct (readyState st s) as [[]|]; simplify_eq; try done;
      by apply invariant_on_message.
  - destruct (readyState st s) as [[]|]; simplify_eq; try done.
    by apply invariant_set_readyState.
  - destruct (readyState st s) as [[]|]; simplify_eq; try done;
      by apply invariant_on_error, invariant_set_readyState.
  - destruct (readyState st s) as [[]|]; simplify_eq; try done;
      by apply invariant_set_ws_None, invariant_emit_log,
           invariant_set_readyState.
  - destruct (timer <$> calls st !! k) as [[due|]|] eqn:Hdue; try by simplify_eq.
    destruct (due <=? now st)%N; simplify_eq; [|done].
    by eapply invariant_timer_fire.
  - injection Hstep as <-. by apply invariant_set_now.
Qed.

Lemma invariant_run evs st st' :
  invariant st → run st evs = Running st' → invariant st'.
Proof.
  revert st. induction evs as [|ev evs IH]; intros st Hinv Hrun; cbn in Hrun.
  - by simplify_eq.
  - destruct (step st ev) as [st1|] eqn:Hstep; [|done].
    eapply IH; [|done]. by eapply invariant_step.
Qed.

Lemma invariant_reachable st : reachable st → invariant st.
Proof. intros [evs Hrun]. eapply invariant_run; [apply invariant_initial | done]. Qed.

Lemma reachable_step st ev st' :
  reachable st → step st ev = Running st' → reachable st'.
Proof.
  intros [evs Hrun] Hstep. exists (evs ++ [ev]).
  revert Hrun. generalize initial. induction evs as [|e evs IH]; intros s0 Hrun; cbn in *.
  - simplify_eq. by rewrite Hstep.
  - destruct (step s0 e); [by apply IH | done].
Qed.

End Steps.

(** *** Connecting sockets *)

Lemma connecting_ok_alter (f : call → call) k cs :
  connecting_ok cs →
  (∀ c, cs !! k = Some c →
     (socket c = Some CONNECTING → connected c = ConnPending) →
     socket (f c) = Some CONNECTING → connected (f c) = ConnPending) →
  connecting_ok (alter f k cs).
Proof.
  intros Hok Hf j c' Hj Hs. destruct (decide (k = j)) as [<-|Hne].
  - rewrite list_lookup_alter_eq in Hj.
    destruct (cs !! k) as [c|] eqn:Hk; [|done]. cbn in Hj. simplify_eq.
    apply (Hf c); [done | by apply (Hok k) | done].
  - rewrite list_lookup_alter_ne in Hj by done. by apply (Hok j).
Qed.

Lemma connecting_ok_snoc cs c0 :
  connecting_ok cs →
  (socket c0 = Some CONNECTING → connected c0 = ConnPending) →
  connecting_ok (cs ++ [c0]).
Proof.
  intros Hok H0 j c Hj Hs. apply lookup_app_Some in Hj as [Hj|[_ Hj]].
  - by apply (Hok j).
  - apply list_lookup_singleton_Some in Hj as [_ ->]. by apply H0.
Qed.

Section Connecting.
Variable uuidv4 : nat → string.
Variable Number_toString : float → string.
Variable Object_toString : value → completion string.

#[local] Abbreviation step := (step uuidv4 Number_toString Object_toString).
#[local] Abbreviation reachable :=
  (reachable uuidv4 Number_toString Object_toString).

Ltac connecting_alter :=
  apply connecting_ok_alter; [|by intros ? _ ? ?; cbn in *; auto].

Lemma connecting_ok_resume st k :
  connecting_ok (calls st) → connecting_ok (calls (sendCommand_resume uuidv4 k st)).
Proof.
  intros Hok. unfold sendCommand_resume. destruct (calls st !! k) as [c|]; [|done].
  destruct (ws_send _ _); cbn; repeat connecting_alter; done.
Qed.

Lemma connecting_ok_step st ev st' :
  connecting_ok (calls st) → step st ev = Running st' →
  connecting_ok (calls st').
Proof.
  intros Hok Hstep.
  destruct ev as [cmd ps|s|s raw|s|s m|s|k|dt]; cbn in Hstep.
  - injection Hstep as <-. rewrite (sendCommand_unfold uuidv4).
    destruct (ws st ≫= readyState st) as [[]|]; cbn;
      try (by apply connecting_ok_snoc).
    apply connecting_ok_resume. cbn. by apply connecting_ok_snoc.
  - destruct (readyState st s) as [[]|]; try by simplify_eq.
    unfold on_open in Hstep. cbn [ws emit set_readyState update_call set_calls] in Hstep.
    destruct (ws st) as [g|]; [|done].
    destruct (socket_send _ g _) as [out|]; [|done].
    assert (connecting_ok (alter (with_socket (Some OPEN)) s (calls st))) as Hok1.
    { by connecting_alter. }
    cbn in Hstep.
    destruct (alter (with_socket (Some OPEN)) s (calls st) !! s) as [c1|] eqn:Hs1;
      cbn in Hstep; [|by simplify_eq].
    destruct (connected c1); try by simplify_eq.
    injection Hstep as <-. apply connecting_ok_resume. cbn.
    apply connecting_ok_alter; [done|]. intros c Hc _ Hsock. cbn in *.
    rewrite list_lookup_alter_eq in Hc.
    destruct (calls st !! s); cbn in Hc; by simplify_eq.
  - assert (connecting_ok
              (calls (on_message Number_toString Object_toString raw st))).
    { unfold on_message. destruct (JSON_parse raw); [|done].
      destruct (prop _ _); [|done]. destruct (_ && _); [|done].
      destruct (pending_get _ _) as [[i k]|]; [|done].
      destruct (truthy _); [destruct (ToString _ _ _)|]; cbn;
        try connecting_alter; done. }
    destruct (readyState st s) as [[]|]; by simplify_eq.
  - destruct (readyState st s) as [[]|]; simplify_eq; try done.
    cbn. by connecting_alter.
  - destruct (readyState st s) as [[]|]; simplify_eq; try done; cbn.
    all: apply connecting_ok_alter; [by connecting_alter|].
    all: intros c Hc _ Hsock; rewrite list_lookup_alter_eq in Hc.
    all: destruct (calls st !! s); cbn in Hc; [|done]; simplify_eq.
    all: cbn in *; by destruct (connected c0).
  - destruct (readyState st s) as [[]|]; simplify_eq; try done; cbn;
      by connecting_alter.
  - destruct (timer <$> calls st !! k) as [[due|]|]; try by simplify_eq.
    destruct (due <=? now st)%N; simplify_eq; [|done].
    unfold on_timeout. cbn [calls update_call set_calls].
    destruct (alter _ k (calls st) !! k) as [c|]; [|cbn; by connecting_alter].
    destruct (correlation c); cbn; repeat connecting_alter; done.
  - by simplify_eq.
Qed.

Lemma connecting_ok_reachable st : reachable st → connecting_ok (calls st).
Proof.
  intros [evs Hrun]. revert Hrun.
  assert (connecting_ok (calls initial)) as Hinit by done.
  revert Hinit. generalize initial. induction evs as [|ev evs IH];
    intros s0 Hok Hrun; cbn in Hrun.
  - by simplify_eq.
  - destruct (Issuer.step _ _ _ s0 ev) as [s1|] eqn:Hstep; [|done].
    eapply IH; [|done]. by eapply connecting_ok_step.
Qed.

End Connecting.

(** *** The claims about the Issuer *)

Section IssuerClaims.
Variable uuidv4 : nat → string.
Hypothesis uuidv4_inj : Inj (=) (=) uuidv4.
Variable Number_toString : float → string.
Variable Object_toString : value → completion string.

#[local] Abbreviation step := (step uuidv4 Number_toString Object_toString).
#[local] Abbreviation reachable :=
  (reachable uuidv4 Number_toString Object_toString).
#[local] Abbreviation ToString := (ToString Number_toString Object_toString).

Lemma step_message_deliverable st s raw :
  readyState st s = Some OPEN ∨ readyState st s = Some CLOSING →
  step st (SockMessage s raw)
  = Running (on_message Number_toString Object_toString raw st).
Proof. intros [Hs|Hs]; cbn; by rewrite Hs. Qed.

(** The [message] listener taken alone: while call [k] waits under
    correlation id [i], a broadcast envelope whose message carries [id = i]
    settles exactly that call: it resolves with the envelope's [result]
    when its [error] is falsy, and rejects with [new Error(error)]
    otherwise; the entry is removed. Any frame that is not such an
    envelope, in particular the reply to another outstanding call, leaves
    call [k] and its entry untouched, whatever the order of arrival. The
    listener does not look at [sender]: see [RelayFacts] for what that
    means behind the Hub. *)
Lemma listener_settles_by_id st i k s :
  reachable st →
  pending st !! i = Some k →
  readyState st s = Some OPEN ∨ readyState st s = Some CLOSING →
  (∀ data,
     prop data "type" = Normal (VStr "broadcast") →
     truthy (field data "message") = true →
     field (field data "message") "id" = VStr i →
     ∃ st' c',
       step st (SockMessage s (Json data)) = Running st' ∧
       calls st' !! k = Some c' ∧
       pending st' !! i = None ∧
       if truthy (field (field data "message") "error")
       then ∀ m, ToString (field (field data "message") "error") = Normal m →
                 outcome c' = Some (Rejected (Error m))
       else outcome c' = Some (Resolved (field (field data "message") "result")))
  ∧
  (∀ raw,
     (∀ data, raw = Json data →
        prop data "type" = Normal (VStr "broadcast") →
        truthy (field data "message") = true →
        field (field data "message") "id" ≠ VStr i) →
     ∃ st',
       step st (SockMessage s raw) = Running st' ∧
       calls st' !! k = calls st !! k ∧
       pending st' !! i = Some k).
Proof.
  intros Hreach Hik Hs.
  pose proof (invariant_reachable uuidv4 uuidv4_inj _ _ st Hreach) as [Hreg _].
  destruct (pending_call_waiting uuidv4 st i k Hreg Hik)
    as (c & Hk & Hi & Hcon & Htim & Hset).
  pose proof (lookup_lt_Some _ _ _ Hk) as Hlt.
  split.
  - intros data Hty Hmsg Hid. rewrite step_message_deliverable by done.
    unfold on_message. cbn [JSON_parse]. rewrite Hty. cbn [is_string String.eqb].
    rewrite Hmsg. cbn [andb]. rewrite Hid. cbn [pending_get]. rewrite Hik.
    cbn [mbind option_bind].
    destruct (truthy (field (field data "message") "error")).
    + destruct (ToString _) as [m|e] eqn:Hm.
      * eexists _, _. split_and!; [done | | apply lookup_delete_eq |].
        -- cbn. rewrite list_lookup_alter_eq, Hk. done.
        -- intros m' [= <-]. unfold outcome. cbn. by rewrite Hcon, Hset.
      * eexists _, c. split_and!; [done | done | apply lookup_delete_eq | done].
    + eexists _, _. split_and!; [done | | apply lookup_delete_eq |].
      * cbn. rewrite list_lookup_alter_eq, Hk. done.
      * unfold outcome. cbn. by rewrite Hcon, Hset.
  - intros raw Hother. rewrite step_message_deliverable by done.
    eexists. split; [done|]. unfold on_message.
    destruct raw as [data|text]; cbn [JSON_parse]; [|done].
    destruct (prop data "type") as [ty|] eqn:Hty; [|done].
    destruct (is_string ty "broadcast") eqn:Hb; [|done]. cbn [andb].
    destruct (truthy (field data "message")) eqn:Hmsg; [|done].
    destruct (pending_get st _) as [[i' k']|] eqn:Hget; [|done].
    apply pending_get_Some in Hget as [Hid' Hik'].
    assert (ty = VStr "broadcast") as ->.
    { destruct ty; try done. cbn in Hb. by apply String.eqb_eq in Hb as ->. }
    assert (i' ≠ i) as Hne.
    { intros ->. by eapply (Hother data). }
    assert (k' ≠ k) as Hnek.
    { intros ->. destruct (pending_ok _ _ Hreg i' k Hik') as (c0 & Hc0 & Hi0).
      congruence. }
    assert (∀ st0, pending st0 = delete i' (pending st) →
              pending st0 !! i = Some k) as Hp.
    { intros st0 ->. by rewrite lookup_delete_ne. }
    destruct (truthy (field (field data "message") "error")).
    + destruct (ToString _) as [m|e].
      * split; [|by apply Hp]. cbn. by rewrite list_lookup_alter_ne.
      * split; [done | by apply Hp].
    + split; [|by apply Hp]. cbn. by rewrite list_lookup_alter_ne.
Qed.

(** C3: the timer of a call is armed at registration for
    [now + TIMEOUT_MS], 30000 ms, and does nothing before it is due. When it
    fires on a call still waiting for its reply, the call is rejected with
    the timeout error for its command and its entry leaves the registry;
    from then on a frame carrying that id changes nothing at all. *)
Theorem timeout_rejects_and_unregisters st k c i due :
  reachable st →
  calls st !! k = Some c →
  correlation c = Some i →
  pending st !! i = Some k →
  timer c = Some due →
  TIMEOUT_MS = 30000%N ∧
  (∀ st0 k0 c0, calls st0 !! k0 = Some c0 →
     timer <$> calls (sendCommand_resume uuidv4 k0 st0) !! k0
     = Some (Some (now st0 + TIMEOUT_MS)%N)) ∧
  ((now st < due)%N → step st (TimerFire k) = Running st) ∧
  ((due ≤ now st)%N →
   ∃ st' c',
     step st (TimerFire k) = Running st' ∧
     calls st' !! k = Some c' ∧
     outcome c' = Some (Rejected (Error
       ("Timeout waiting for Figma response (command: " +:+ command c +:+ ")"))) ∧
     timer c' = None ∧
     pending st' !! i = None ∧
     ∀ s data,
       field (field data "message") "id" = VStr i →
       step st' (SockMessage s (Json data)) = Running st').
Proof.
  intros Hreach Hk Hi Hik Hdue.
  pose proof (invariant_reachable uuidv4 uuidv4_inj _ _ st Hreach) as [Hreg _].
  destruct (pending_call_waiting uuidv4 st i k Hreg Hik)
    as (c0 & Hk0 & _ & Hcon & _ & Hset). simplify_eq.
  split_and!.
  - done.
  - intros st0 k0 c0 Hk0. unfold sendCommand_resume. rewrite Hk0.
    destruct (ws_send _ _); cbn; rewrite ?list_lookup_alter_eq, Hk0;
      cbn; rewrite ?list_lookup_alter_eq, ?Hk0; done.
  - intros Hlt. cbn. rewrite Hk. cbn. rewrite Hdue.
    by rewrite (proj2 (N.leb_gt _ _) Hlt).
  - intros Hle. cbn [step]. rewrite Hk. cbn [fmap option_fmap option_map].
    rewrite Hdue. rewrite (proj2 (N.leb_le _ _) Hle).
    unfold on_timeout. cbn [calls update_call set_calls].
    rewrite list_lookup_alter_eq, Hk.
    cbn [fmap option_fmap option_map correlation with_timer]. rewrite Hi.
    eexists _, _. split_and!; [done | | | | |].
    + cbn. rewrite list_lookup_alter_eq, list_lookup_alter_eq, Hk. done.
    + unfold outcome. cbn. by rewrite Hcon, Hset.
    + done.
    + cbn. apply lookup_delete_eq.
    + intros s data Hid. cbn [step].
      match goal with |- match readyState ?s0 s with _ => _ end = _ =>
        destruct (readyState s0 s) as [[]|]; try done end.
      all: unfold on_message; cbn [JSON_parse];
        destruct (prop data "type") as [ty|]; [|done];
        destruct (is_string ty "broadcast" && truthy (field data "message"));
          [|done];
        rewrite Hid; cbn; by rewrite lookup_delete_eq.
Qed.

(** C2, as the code has it: the [close] listener logs and resets the
    global socket, and that is all. No pending request is failed or
    removed by the close of the transport: every call that was waiting is
    still registered under its id, unsettled, with its timer armed, so that
    only a later reply or its own timeout settles it. *)
Theorem close_leaves_pending_waiting st s :
  reachable st →
  ∃ st',
    step st (SockClose s) = Running st' ∧
    pending st' = pending st ∧
    (is_Some (readyState st s) → readyState st s ≠ Some CLOSED → ws st' = None) ∧
    ∀ i k, pending st !! i = Some k →
      ∃ c', calls st' !! k = Some c' ∧ correlation c' = Some i ∧
            outcome c' = None ∧ is_Some (timer c').
Proof.
  intros Hreach.
  pose proof (invariant_reachable uuidv4 uuidv4_inj _ _ st Hreach) as [Hreg _].
  assert (∀ st', pending st' = pending st →
            (∀ k c, calls st !! k = Some c →
               ∃ c', calls st' !! k = Some c' ∧ correlation c' = correlation c ∧
                     connected c' = connected c ∧ timer c' = timer c ∧
                     settlements c' = settlements c) →
            ∀ i k, pending st !! i = Some k →
              ∃ c', calls st' !! k = Some c' ∧ correlation c' = Some i ∧
                    outcome c' = None ∧ is_Some (timer c')) as Hkeep.
  { intros st' Hp Hc i k Hik.
    destruct (pending_call_waiting uuidv4 st i k Hreg Hik)
      as (c & Hk & Hi & Hcon & Htim & Hset).
    destruct (Hc k c Hk) as (c' & Hk' & Hi' & Hcon' & Htim' & Hset').
    exists c'. unfold outcome. rewrite Hcon', Hcon, Hset', Hset, Htim', Hi'.
    by split_and!. }
  assert (∀ r k c, calls st !! k = Some c →
            ∃ c', alter (with_socket (Some r)) s (calls st) !! k = Some c' ∧
                  correlation c' = correlation c ∧ connected c' = connected c ∧
                  timer c' = timer c ∧ settlements c' = settlements c) as Halter.
  { intros r k c Hk. destruct (decide (s = k)) as [<-|Hne].
    - rewrite list_lookup_alter_eq, Hk. by eexists.
    - rewrite list_lookup_alter_ne by done. by eexists. }
  cbn [step]. destruct (readyState st s) as [[]|] eqn:Hs.
  1-3: eexists; split_and!; [done | done | done |];
       apply Hkeep; [done | apply Halter].
  - eexists; split_and!; [done | done | by intros _ ? |].
    apply Hkeep; [done | by eauto 10].
  - eexists; split_and!; [done | done | by intros [? ?] |].
    apply Hkeep; [done | by eauto 10].
Qed.


(** C5: a request is only ever put on the wire of a socket after a join
    envelope has been put on the wire of that same socket. A call made
    while the global socket is not open transmits nothing: it makes a new
    socket, still CONNECTING, the global one, and suspends on its connect
    promise. When that socket, still the global one, opens, the listener
    sends the join and only then does the call go on to register and send
    its request. *)
Theorem request_follows_join st :
  reachable st →
  guarded is_request joins (trace st) ∧
  (∀ cmd ps,
     ws st ≫= readyState st ≠ Some OPEN →
     ∃ st',
       step st (Invoke cmd ps) = Running st' ∧
       trace st' = trace st ∧
       pending st' = pending st ∧
       ws st' = Some (length (calls st)) ∧
       readyState st' (length (calls st)) = Some CONNECTING ∧
       calls st' !! length (calls st)
       = Some (mkCall cmd (or_default ps) (Some CONNECTING) ConnPending None None [])) ∧
  (∀ s c,
     ws st = Some s → calls st !! s = Some c → socket c = Some CONNECTING →
     ∃ st',
       step st (SockOpen s) = Running st' ∧
       trace st'
       = trace st
           ++ [Stderr INFO "Connected to WebSocket server";
               Transmit s (JoinFrame (uuidv4 (uuids st)));
               PendingSet (uuidv4 (S (uuids st))) s;
               Transmit s (RequestFrame (uuidv4 (S (uuids st)))
                             (command c) (params c))]).
Proof.
  intros Hreach.
  pose proof (invariant_reachable uuidv4 uuidv4_inj _ _ st Hreach)
    as [_ [_ Hjoin _]].
  split_and!; [done | |].
  - intros cmd ps Hno. cbn [step]. rewrite (sendCommand_unfold uuidv4).
    destruct (ws st ≫= readyState st) as [[]|]; try done.
    all: eexists; split_and!; [done | done | done | done | |];
      [ unfold readyState; cbn; by rewrite list_lookup_middle
      | cbn; by rewrite list_lookup_middle ].
  - intros s c Hws Hs Hsock.
    pose proof (connecting_ok_reachable _ _ _ st Hreach s c Hs Hsock) as Hcon.
    cbn [step]. unfold readyState at 1. rewrite Hs. cbn [mbind option_bind].
    rewrite Hsock. unfold on_open, socket_send, readyState. cbn.
    rewrite Hws. cbn. rewrite !list_lookup_alter_eq, Hs. cbn. rewrite Hcon.
    unfold sendCommand_resume. cbn. rewrite !list_lookup_alter_eq, Hs. cbn.
    unfold ws_send, socket_send, readyState. cbn. rewrite Hws.
    rewrite !list_lookup_alter_eq, Hs. cbn.
    eexists. split; [done|]. cbn. by rewrite <- !app_assoc.
Qed.

End IssuerClaims.

(** *** Concrete runs: two calls outstanding at once *)

Lemma sample_uuidv4_inj : Inj (=) (=) sample_uuidv4.
Proof.
  intros n m Heq. unfold sample_uuidv4 in Heq.
  apply (inj (String.app "uuid-")) in Heq. by apply (inj pretty) in Heq.
Qed.

Lemma two_outstanding_reachable :
  reachable sample_uuidv4 Hub.sample_Number_toString Hub.sample_Object_toString
    two_outstanding.
Proof. exists two_outstanding_events. vm_compute. reflexivity. Qed.

Example two_outstanding_pending :
  pending two_outstanding !! "uuid-1" = Some 0 ∧
  pending two_outstanding !! "uuid-2" = Some 1 ∧
  trace two_outstanding
  = [Stderr INFO "Connected to WebSocket server";
     Transmit 0 (JoinFrame "uuid-0");
     PendingSet "uuid-1" 0;
     Transmit 0 (RequestFrame "uuid-1" "get_selection" (VObj []));
     PendingSet "uuid-2" 1;
     Transmit 0 (RequestFrame "uuid-2" "get_styles" (VObj []))].
Proof. split_and!; vm_compute; reflexivity. Qed.

(** Replies in reversed order reach the calls they belong to. *)
Example replies_in_reversed_order :
  ∃ st,
    sample_run two_outstanding
      [SockMessage 0 (broadcast (reply_result "uuid-2" (VStr "styles")));
       SockMessage 0 (broadcast (reply_error "uuid-1" "Node not found: 1:2"))]
    = Running st ∧
    outcome <$> calls st !! 0
    = Some (Some (Rejected (Error "Node not found: 1:2"))) ∧
    outcome <$> calls st !! 1 = Some (Some (Resolved (VStr "styles"))) ∧
    pending st = ∅.
Proof. eexists. split_and!; vm_compute; reflexivity. Qed.

(** Two calls made before any socket is open: when the socket of the first
    opens, the global [ws] is the second socket, still CONNECTING, and the
    [send] of the join throws out of the listener. *)
Example concurrent_connects_crash :
  sample_run initial
    [Invoke "get_selection" (VObj []); Invoke "get_styles" (VObj []); SockOpen 0]
  = Crashed (Error "WebSocket is not open: readyState 0 (CONNECTING)").
Proof. vm_compute. reflexivity. Qed.

(** C2 as stated fails: call 0 waits under "uuid-1" when socket 0 closes,
    and after the close it is still in the registry, not rejected. *)
Lemma close_does_not_fail_pending :
  pending two_outstanding !! "uuid-1" = Some 0 ∧
  ¬ close_fails_all_pending two_outstanding 0.
Proof.
  split; [vm_compute; reflexivity|].
  intros Hall.
  destruct (Hall "uuid-1" 0) as (st' & c & e & Hstep & _ & _ & Hgone).
  { vm_compute. reflexivity. }
  vm_compute in Hstep. injection Hstep as <-.
  vm_compute in Hgone. discriminate Hgone.
Qed.

Lemma two_overdue_reachable :
  reachable sample_uuidv4 Hub.sample_Number_toString Hub.sample_Object_toString
    two_overdue.
Proof.
  exists (two_outstanding_events ++ [Tick 30000]). vm_compute. reflexivity.
Qed.

Lemma timeout_rejects_and_unregisters_witness :
  ∃ st' c',
    sample_step two_overdue (TimerFire 0) = Running st' ∧
    calls st' !! 0 = Some c' ∧
    outcome c' = Some (Rejected (Error
      ("Timeout waiting for Figma response (command: " +:+ "get_selection" +:+ ")"))) ∧
    timer c' = None ∧
    pending st' !! "uuid-1" = None ∧
    ∀ s data,
      field (field data "message") "id" = VStr "uuid-1" →
      sample_step st' (SockMessage s (Json data)) = Running st'.
Proof.
  destruct (timeout_rejects_and_unregisters sample_uuidv4 sample_uuidv4_inj
              Hub.sample_Number_toString Hub.sample_Object_toString
              two_overdue 0
              (mkCall "get_selection" (VObj []) (Some OPEN) ConnFulfilled
                 (Some "uuid-1") (Some 30000%N) [])
              "uuid-1" 30000%N) as (_ & _ & _ & Hfire).
  - apply two_overdue_reachable.
  - vm_compute. reflexivity.
  - reflexivity.
  - vm_compute. reflexivity.
  - reflexivity.
  - apply Hfire. vm_compute. discriminate.
Defined.

Lemma close_leaves_pending_waiting_witness :
  ∃ st',
    sample_step two_outstanding (SockClose 0) = Running st' ∧
    pending st' = pending two_outstanding ∧
    (is_Some (readyState two_outstanding 0) →
     readyState two_outstanding 0 ≠ Some CLOSED → ws st' = None) ∧
    ∀ i k, pending two_outstanding !! i = Some k →
      ∃ c', calls st' !! k = Some c' ∧ correlation c' = Some i ∧
            outcome c' = None ∧ is_Some (timer c').
Proof.
  apply (close_leaves_pending_waiting sample_uuidv4 sample_uuidv4_inj
           Hub.sample_Number_toString Hub.sample_Object_toString
           two_outstanding 0).
  apply two_outstanding_reachable.
Defined.

Lemma one_connecting_reachable :
  reachable sample_uuidv4 Hub.sample_Number_toString Hub.sample_Object_toString
    one_connecting.
Proof. exists [Invoke "get_selection" (VObj [])]. vm_compute. reflexivity. Qed.

Lemma request_follows_join_witness :
  ∃ st',
    sample_step one_connecting (SockOpen 0) = Running st' ∧
    trace st'
    = trace one_connecting
        ++ [Stderr INFO "Connected to WebSocket server";
            Transmit 0 (JoinFrame (sample_uuidv4 (uuids one_connecting)));
            PendingSet (sample_uuidv4 (S (uuids one_connecting))) 0;
            Transmit 0 (RequestFrame (sample_uuidv4 (S (uuids one_connecting)))
                          "get_selection" (VObj []))].
Proof.
  destruct (request_follows_join sample_uuidv4 sample_uuidv4_inj
              Hub.sample_Number_toString Hub.sample_Object_toString
              one_connecting) as (_ & _ & Hopen).
  - apply one_connecting_reachable.
  - apply (Hopen 0 (mkCall "get_selection" (VObj []) (Some CONNECTING)
                      ConnPending None None [])); reflexivity.
Defined.

(** *** The Issuer behind the Hub *)

(** The Hub delivers a message to every member of the channel, the sender
    included. The Issuer's own request therefore comes back to it as a
    broadcast envelope carrying the request's id, and the [message]
    listener, which does not look at [sender], settles the call with the
    [result] field of that envelope, which is [undefined]. *)
Example own_request_comes_back :
  let request := RequestFrame "uuid-1" "get_selection" (VObj []) in
  let echo := Hub.broadcast_envelope Relay.issuer_endpoint (VStr CHANNEL)
                (field (payload request) "message") Relay.issuer_endpoint in
  pending one_outstanding !! "uuid-1" = Some 0 ∧
  Relay.hub_to_issuer request = [echo] ∧
  field echo "sender" = VStr "You" ∧
  ∃ st,
    sample_step one_outstanding (SockMessage 0 (Json echo)) = Running st ∧
    outcome <$> calls st !! 0 = Some (Some (Resolved VUndefined)) ∧
    pending st = ∅.
Proof.
  split_and!; [vm_compute; reflexivity..|].
  eexists. split_and!; vm_compute; reflexivity.
Qed.

End IssuerFacts.

(** ** More on the Issuer: connecting, errors, tools *)

Module IssuerMore.
Import JS Issuer IssuerFacts.

Section IssuerExtras.
Variable uuidv4 : nat → string.
Hypothesis uuidv4_inj : Inj (=) (=) uuidv4.
Variable Number_toString : float → string.
Variable Object_toString : value → completion string.

#[local] Abbreviation step := (step uuidv4 Number_toString Object_toString).
#[local] Abbreviation run := (run uuidv4 Number_toString Object_toString).
#[local] Abbreviation reachable :=
  (reachable uuidv4 Number_toString Object_toString).
#[local] Abbreviation ToString := (ToString Number_toString Object_toString).

Lemma fresh_id_unregistered st :
  reachable st → pending st !! uuidv4 (uuids st) = None.
Proof.
  intros Hreach.
  pose proof (invariant_reachable uuidv4 uuidv4_inj _ _ st Hreach) as [Hreg _].
  destruct (pending st !! uuidv4 (uuids st)) as [k|] eqn:Hik; [|done].
  destruct (pending_call_waiting uuidv4 st _ k Hreg Hik) as (c & Hk & Hi & _).
  pose proof (calls_ok _ _ Hreg k c Hk) as Hok. unfold call_ok in Hok.
  rewrite Hi in Hok. destruct Hok as (_ & _ & (n & Hlt & Heq) & _).
  apply uuidv4_inj in Heq. lia.
Qed.


(** X7: a call made while the global socket is OPEN goes out in the same
    turn, without a new connection: it draws a fresh id under which nothing
    is registered, arms its timer for [now + 30000] ms, registers, and then
    puts the request on the wire of the global socket, with [{}] for
    [params] when none were given. *)
Theorem sendCommand_on_open_socket st g cmd ps :
  reachable st →
  ws st = Some g →
  readyState st g = Some OPEN →
  let k := length (calls st) in
  let id := uuidv4 (uuids st) in
  ∃ st',
    step st (Invoke cmd ps) = Running st' ∧
    pending st !! id = None ∧
    pending st' = <[id := k]> (pending st) ∧
    trace st'
    = trace st ++ [PendingSet id k;
                   Transmit g (RequestFrame id cmd (or_default ps))] ∧
    calls st'
    = calls st ++ [mkCall cmd (or_default ps) None ConnFulfilled (Some id)
                     (Some (now st + 30000)%N) []] ∧
    ws st' = Some g.
Proof.
  intros Hreach Hws Hopen k id. eexists. split; [done|].
  split; [by apply fresh_id_unregistered|].
  rewrite (sendCommand_unfold uuidv4). rewrite Hws. cbn [mbind option_bind].
  rewrite Hopen.
  set (c0 := mkCall cmd (or_default ps) None ConnFulfilled None None []).
  rewrite (sendCommand_resume_sends uuidv4 _ k c0 g).
  - rewrite readyState_snoc_unopened by done. rewrite Hopen.
    cbn. subst k. rewrite alter_snoc. cbn. rewrite <- app_assoc. done.
  - cbn. by apply list_lookup_middle.
  - done.
  - rewrite readyState_snoc_unopened by done. by rewrite Hopen.
Qed.

(** X8: when the socket a call is connecting on reports an error before
    it opened, the call is rejected with that error. Nothing was registered
    or sent for it and it has no timer; the registry is unchanged and the
    error is logged. *)
Theorem connect_error_rejects_call st s m c :
  reachable st →
  calls st !! s = Some c →
  socket c = Some CONNECTING →
  ∃ st' c',
    step st (SockError s m) = Running st' ∧
    calls st' !! s = Some c' ∧
    outcome c' = Some (Rejected (Error m)) ∧
    correlation c' = None ∧ timer c' = None ∧
    pending st' = pending st ∧
    trace st' = trace st ++ [Stderr ERROR ("WebSocket error: " +:+ m)].
Proof.
  intros Hreach Hs Hsock.
  pose proof (invariant_reachable uuidv4 uuidv4_inj _ _ st Hreach) as [Hreg _].
  pose proof (connecting_ok_reachable _ _ _ st Hreach s c Hs Hsock) as Hcon.
  assert (correlation c = None) as Hcor.
  { apply (unconnected_unregistered uuidv4 st s c Hreg Hs). congruence. }
  pose proof (calls_ok _ _ Hreg s c Hs) as Hok. unfold call_ok in Hok.
  rewrite Hcor in Hok. destruct Hok as (Htim & Hset & _).
  cbn [step]. unfold readyState at 1. rewrite Hs. cbn [mbind option_bind].
  rewrite Hsock. eexists _, _. split; [done|]. unfold on_error. cbn.
  rewrite !list_lookup_alter_eq, Hs. cbn. rewrite Hcon.
  split_and!; done.
Qed.

(** X9: an error on a socket, whatever its state, never touches a
    registered request: the registry and the global socket are what they
    were, and every call that was waiting is still registered under its id,
    unsettled, with its timer armed. *)
Theorem socket_error_spares_pending st s m :
  reachable st →
  ∃ st',
    step st (SockError s m) = Running st' ∧
    pending st' = pending st ∧
    ws st' = ws st ∧
    ∀ i k, pending st !! i = Some k →
      ∃ c', calls st' !! k = Some c' ∧ correlation c' = Some i ∧
            outcome c' = None ∧ is_Some (timer c').
Proof.
  intros Hreach.
  pose proof (invariant_reachable uuidv4 uuidv4_inj _ _ st Hreach) as [Hreg _].
  assert (∀ i k, pending st !! i = Some k →
            ∃ c', calls st !! k = Some c' ∧ correlation c' = Some i ∧
                  outcome c' = None ∧ is_Some (timer c')) as Hsame.
  { intros i k Hik.
    destruct (pending_call_waiting uuidv4 st i k Hreg Hik)
      as (c & Hk & Hi & Hcon & Htim & Hset).
    exists c. unfold outcome. by rewrite Hcon, Hset. }
  assert (∀ i k, pending st !! i = Some k →
            ∃ c', calls (on_error s m (set_readyState s CLOSING st)) !! k = Some c' ∧
                  correlation c' = Some i ∧
                  outcome c' = None ∧ is_Some (timer c')) as Herr.
  { intros i k Hik.
    destruct (pending_call_waiting uuidv4 st i k Hreg Hik)
      as (c & Hk & Hi & Hcon & Htim & Hset).
    unfold on_error. cbn. destruct (decide (s = k)) as [->|Hne].
    - rewrite !list_lookup_alter_eq, Hk. cbn. rewrite Hcon. eexists.
      split; [done|]. unfold outcome. cbn. by rewrite Hcon, Hset.
    - rewrite !list_lookup_alter_ne by done. exists c.
      unfold outcome. by rewrite Hcon, Hset. }
  cbn [step]. destruct (readyState st s) as [[]|]; eexists; by split_and!.
Qed.

(** X10: a reply is final. Once the reply to a call has been handled, the
    call is settled, its entry is gone and its timer is cleared, so that
    neither the timer nor another frame carrying the same id changes
    anything. *)
Theorem reply_is_final st i k s data :
  reachable st →
  pending st !! i = Some k →
  readyState st s = Some OPEN ∨ readyState st s = Some CLOSING →
  prop data "type" = Normal (VStr "broadcast") →
  truthy (field data "message") = true →
  field (field data "message") "id" = VStr i →
  (∀ e, ToString (field (field data "message") "error") ≠ Throw e) →
  ∃ st' c',
    step st (SockMessage s (Json data)) = Running st' ∧
    calls st' !! k = Some c' ∧
    length (settlements c') = 1 ∧ timer c' = None ∧
    pending st' !! i = None ∧
    step st' (TimerFire k) = Running st' ∧
    ∀ s' data',
      field (field data' "message") "id" = VStr i →
      step st' (SockMessage s' (Json data')) = Running st'.
Proof.
  intros Hreach Hik Hs Hty Hmsg Hid Hconv.
  pose proof (invariant_reachable uuidv4 uuidv4_inj _ _ st Hreach) as [Hreg _].
  destruct (pending_call_waiting uuidv4 st i k Hreg Hik)
    as (c & Hk & Hi & Hcon & Htim & Hset).
  assert (∀ o, let st' := handler_settle k o (pending_delete i st) in
            calls st' !! k = Some (settle o (with_timer None c)) ∧
            pending st' !! i = None ∧
            step st' (TimerFire k) = Running st' ∧
            ∀ s' data',
              field (field data' "message") "id" = VStr i →
              step st' (SockMessage s' (Json data')) = Running st') as Hfinal.
  { intros o st'.
    assert (calls st' !! k = Some (settle o (with_timer None c))) as Hk'.
    { subst st'. cbn. by rewrite list_lookup_alter_eq, Hk. }
    assert (pending st' !! i = None) as Hgone by apply lookup_delete_eq.
    split_and!; [done | done | |].
    - cbn [step]. by rewrite Hk'.
    - intros s' data' Hid'. cbn [step].
      destruct (readyState st' s') as [[]|]; try done.
      all: unfold on_message; cbn [JSON_parse];
        destruct (prop data' "type") as [ty|]; [|done];
        destruct (is_string ty "broadcast" && truthy (field data' "message"));
          [|done];
        rewrite Hid'; cbn [pending_get]; by rewrite Hgone. }
  assert (step st (SockMessage s (Json data))
          = Running (on_message Number_toString Object_toString (Json data) st))
    as -> by (destruct Hs as [Hs|Hs]; cbn; by rewrite Hs).
  unfold on_message. cbn [JSON_parse]. rewrite Hty. cbn [is_string String.eqb].
  rewrite Hmsg. cbn [andb]. rewrite Hid. cbn [pending_get]. rewrite Hik.
  cbn [mbind option_bind].
  destruct (truthy (field (field data "message") "error")).
  - destruct (ToString _) as [m'|e] eqn:Hm; [|by destruct (Hconv e)].
    destruct (Hfinal (Rejected (Error m'))) as (Hk' & Hgone & Hfire & Hmore).
    eexists _, _. split_and!; [done | exact Hk' | | done..].
    cbn. rewrite Hset. done.
  - destruct (Hfinal (Resolved (field (field data "message") "result")))
      as (Hk' & Hgone & Hfire & Hmore).
    eexists _, _. split_and!; [done | exact Hk' | | done..].
    cbn. rewrite Hset. done.
Qed.

(** X11: two calls started while the global socket is not OPEN each make
    a socket of their own, and the second becomes the global one. When the
    socket of the first then opens, its listener sends the join through
    the global socket, which is still CONNECTING: [send] throws, outside
    of any [try], and the exception escapes the listener. *)
Theorem concurrent_first_calls_throw st cmd1 ps1 cmd2 ps2 :
  ws st ≫= readyState st ≠ Some OPEN →
  run st [Invoke cmd1 ps1; Invoke cmd2 ps2; SockOpen (length (calls st))]
  = Crashed (Error "WebSocket is not open: readyState 0 (CONNECTING)").
Proof.
  intros Hno. cbn [Issuer.run Issuer.step].
  rewrite !(sendCommand_unfold uuidv4).
  assert (ws st ≫= readyState st = None ∨
          (∃ r, ws st ≫= readyState st = Some r ∧ r ≠ OPEN)) as Hcase.
  { destruct (ws st ≫= readyState st) as [r|]; [right|by left].
    exists r. split; [done | congruence]. }
  set (c1 := mkCall cmd1 (or_default ps1) (Some CONNECTING) ConnPending None None []).
  set (c2 := mkCall cmd2 (or_default ps2) (Some CONNECTING) ConnPending None None []).
  set (st1 := set_ws (Some (length (calls st))) (set_calls (calls st ++ [c1]) st)).
  assert (match ws st ≫= readyState st with
          | Some OPEN =>
              sendCommand_resume uuidv4 (length (calls st))
                (set_calls (calls st ++ [mkCall cmd1 (or_default ps1) None
                                           ConnFulfilled None None []]) st)
          | _ => st1
          end = st1) as ->.
  { destruct (ws st ≫= readyState st) as [[]|]; done. }
  assert (ws st1 ≫= readyState st1 = Some CONNECTING) as Hst1.
  { subst st1. cbn. unfold readyState. cbn. by rewrite list_lookup_middle. }
  rewrite Hst1.
  set (st2 := set_ws (Some (length (calls st1)))
                (set_calls (calls st1 ++ [c2]) st1)).
  assert (length (calls st1) = S (length (calls st))) as Hlen.
  { subst st1. cbn. rewrite length_app. cbn. lia. }
  assert (calls st2 = calls st ++ [c1; c2]) as Hcalls.
  { subst st2 st1. cbn. by rewrite <- app_assoc. }
  assert (readyState st2 (length (calls st)) = Some CONNECTING) as Hs.
  { unfold readyState. rewrite Hcalls.
    by rewrite (list_lookup_middle (calls st) [c2] c1). }
  rewrite Hs. unfold on_open, socket_send. cbn [ws emit set_readyState update_call set_calls].
  assert (ws st2 = Some (S (length (calls st)))) as ->
    by (subst st2; cbn [ws set_ws]; by rewrite Hlen).
  assert (readyState (emit [Stderr INFO "Connected to WebSocket server"]
                       (set_readyState (length (calls st)) OPEN st2))
            (S (length (calls st))) = Some CONNECTING) as ->; [|done].
  change (readyState (emit ?o ?s0) ?x) with (readyState s0 x).
  rewrite readyState_set_other by lia. unfold readyState. rewrite Hcalls.
  replace (calls st ++ [c1; c2]) with ((calls st ++ [c1]) ++ [c2])
    by (by rewrite <- app_assoc).
  rewrite (list_lookup_middle (calls st ++ [c1]) [] c2)
    by (rewrite length_app; cbn; lia).
  done.
Qed.

End IssuerExtras.

(** *** Concrete runs *)

Lemma one_outstanding_reachable :
  reachable sample_uuidv4 Hub.sample_Number_toString Hub.sample_Object_toString
    one_outstanding.
Proof.
  exists [Invoke "get_selection" (VObj []); SockOpen 0]. vm_compute. reflexivity.
Qed.

Lemma sendCommand_on_open_socket_witness :
  ∃ st',
    sample_step one_outstanding (Invoke "get_styles" VUndefined) = Running st' ∧
    pending one_outstanding !! sample_uuidv4 (uuids one_outstanding) = None ∧
    pending st'
    = <[sample_uuidv4 (uuids one_outstanding) := length (calls one_outstanding)]>
        (pending one_outstanding) ∧
    trace st'
    = trace one_outstanding
        ++ [PendingSet (sample_uuidv4 (uuids one_outstanding))
              (length (calls one_outstanding));
            Transmit 0 (RequestFrame (sample_uuidv4 (uuids one_outstanding))
                          "get_styles" (or_default VUndefined))] ∧
    calls st'
    = calls one_outstanding
        ++ [mkCall "get_styles" (or_default VUndefined) None ConnFulfilled
              (Some (sample_uuidv4 (uuids one_outstanding)))
              (Some (now one_outstanding + 30000)%N) []] ∧
    ws st' = Some 0.
Proof.
  apply (sendCommand_on_open_socket sample_uuidv4 sample_uuidv4_inj
           Hub.sample_Number_toString Hub.sample_Object_toString
           one_outstanding 0 "get_styles" VUndefined).
  - apply one_outstanding_reachable.
  - reflexivity.
  - reflexivity.
Defined.

Lemma connect_error_rejects_call_witness :
  ∃ st' c',
    sample_step one_connecting (SockError 0 "connect ECONNREFUSED") = Running st' ∧
    calls st' !! 0 = Some c' ∧
    outcome c' = Some (Rejected (Error "connect ECONNREFUSED")) ∧
    correlation c' = None ∧ timer c' = None ∧
    pending st' = pending one_connecting ∧
    trace st'
    = trace one_connecting
        ++ [Stderr ERROR ("WebSocket error: " +:+ "connect ECONNREFUSED")].
Proof.
  apply (connect_error_rejects_call sample_uuidv4 sample_uuidv4_inj
           Hub.sample_Number_toString Hub.sample_Object_toString
           one_connecting 0 "connect ECONNREFUSED"
           (mkCall "get_selection" (VObj []) (Some CONNECTING) ConnPending
              None None [])).
  - apply one_connecting_reachable.
  - reflexivity.
  - reflexivity.
Defined.

Lemma socket_error_spares_pending_witness :
  ∃ st',
    sample_step two_outstanding (SockError 0 "read ECONNRESET") = Running st' ∧
    pending st' = pending two_outstanding ∧
    ws st' = ws two_outstanding ∧
    ∀ i k, pending two_outstanding !! i = Some k →
      ∃ c', calls st' !! k = Some c' ∧ correlation c' = Some i ∧
            outcome c' = None ∧ is_Some (timer c').
Proof.
  apply (socket_error_spares_pending sample_uuidv4 sample_uuidv4_inj
           Hub.sample_Number_toString Hub.sample_Object_toString
           two_outstanding 0 "read ECONNRESET").
  apply two_outstanding_reachable.
Defined.

Lemma reply_is_final_witness :
  ∃ st' c',
    sample_step two_outstanding
      (SockMessage 0 (broadcast (reply_result "uuid-2" (VStr "styles"))))
    = Running st' ∧
    calls st' !! 1 = Some c' ∧
    length (settlements c') = 1 ∧ timer c' = None ∧
    pending st' !! "uuid-2" = None ∧
    sample_step st' (TimerFire 1) = Running st' ∧
    ∀ s' data',
      field (field data' "message") "id" = VStr "uuid-2" →
      sample_step st' (SockMessage s' (Json data')) = Running st'.
Proof.
  apply (reply_is_final sample_uuidv4 sample_uuidv4_inj
           Hub.sample_Number_toString Hub.sample_Object_toString
           two_outstanding "uuid-2" 1 0
           (VObj [("type", VStr "broadcast");
                  ("message", reply_result "uuid-2" (VStr "styles"));
                  ("sender", VStr "Remote");
                  ("channel", VStr CHANNEL)])).
  - apply two_outstanding_reachable.
  - vm_compute. reflexivity.
  - left. vm_compute. reflexivity.
  - reflexivity.
  - reflexivity.
  - reflexivity.
  - intros e. vm_compute. discriminate.
Defined.

Lemma concurrent_first_calls_throw_witness :
  sample_run initial
    [Invoke "get_selection" (VObj []); Invoke "get_styles" (VObj []);
     SockOpen (length (calls initial))]
  = Crashed (Error "WebSocket is not open: readyState 0 (CONNECTING)").
Proof.
  apply (concurrent_first_calls_throw sample_uuidv4
           Hub.sample_Number_toString Hub.sample_Object_toString initial).
  vm_compute. discriminate.
Defined.

End IssuerMore.

(** ** The life of a call: registration, removal, settlement *)

Module Registration.
Import JS Issuer IssuerFacts IssuerMore.


Section Life.
Variable uuidv4 : nat → string.
Hypothesis uuidv4_inj : Inj (=) (=) uuidv4.
Variable Number_toString : float → string.
Variable Object_toString : value → completion string.

#[local] Abbreviation step := (step uuidv4 Number_toString Object_toString).
#[local] Abbreviation reachable :=
  (reachable uuidv4 Number_toString Object_toString).
#[local] Abbreviation ToString := (ToString Number_toString Object_toString).









End Life.



End Registration.

(** ** Tool calls *)

Module ToolsFacts.
Import JS Issuer IssuerFacts IssuerMore.




Section ToolCalls.
Variable uuidv4 : nat → string.


End ToolCalls.


(** A call whose arguments lack a required key does not reach the handler,
    and keys outside the schema do not reach the wire. *)
Example move_node_without_y :
  Tools.call_tool sample_uuidv4 "move_node"
    [("nodeId", VStr "1:2"); ("x", VNum 1%float)] one_outstanding
  = Tools.InvalidArguments.
Proof. vm_compute. reflexivity. Qed.

Example move_node_extra_key :
  Tools.parse (Tools.z_object [("nodeId", Tools.z_string); ("x", Tools.number);
                               ("y", Tools.number)])
    (VObj [("nodeId", VStr "1:2"); ("x", VNum 1%float); ("y", VNum 1%float);
           ("z", VNum 1%float)])
  = Some (VObj [("nodeId", VStr "1:2"); ("x", VNum 1%float); ("y", VNum 1%float)]).
Proof. vm_compute. reflexivity. Qed.

End ToolsFacts.

(** ** The Issuer behind the Hub *)

Module RelayFacts.
Import JS.

Section Echo.
Variable uuidv4 : nat → string.
Hypothesis uuidv4_inj : Inj (=) (=) uuidv4.
Variable Number_toString : float → string.
Variable Object_toString : value → completion string.

(** X13: the Issuer's own request comes back to it and settles the call.
    When the Issuer, an OPEN member of its channel at the Hub, sends the
    request of a registered call, the Hub sends it back exactly one frame,
    the broadcast envelope of that request tagged "You"; and the Issuer's
    [message] listener, which does not look at [sender], takes that frame
    for the reply: it removes the entry and resolves the call with the
    envelope's [result], which is [undefined]. *)
Theorem own_request_echo_settles_call
    (hub : Hub.State) (hub_readyState : Hub.WS → nat) (w : Hub.WS)
    (st : Issuer.State) i k s cmd ps :
  Hub.reachable Number_toString Object_toString hub →
  Hub.member hub (VStr Issuer.CHANNEL) w = true →
  hub_readyState w = Hub.WebSocket_OPEN →
  Issuer.reachable uuidv4 Number_toString Object_toString st →
  Issuer.pending st !! i = Some k →
  Issuer.readyState st s = Some Issuer.OPEN ∨
  Issuer.readyState st s = Some Issuer.CLOSING →
  let request := Issuer.RequestFrame i cmd ps in
  let echo := Hub.broadcast_envelope w (VStr Issuer.CHANNEL)
                (field (Issuer.payload request) "message") w in
  Hub.sent_to w (Hub.effects_of
    (Hub.message Number_toString Object_toString hub_readyState w
       (Json (Issuer.payload request)) hub)) = [echo] ∧
  field echo "sender" = VStr "You" ∧
  ∃ st' c',
    Issuer.step uuidv4 Number_toString Object_toString st
      (Issuer.SockMessage s (Json echo)) = Issuer.Running st' ∧
    Issuer.calls st' !! k = Some c' ∧
    Issuer.outcome c' = Some (Issuer.Resolved VUndefined) ∧
    Issuer.pending st' !! i = None.
Proof.
  intros Hwf%HubFacts.wf_reachable Hmem Hopen Hreach Hik Hs request echo.
  split_and!.
  - rewrite HubFacts.message_type_message by done.
    unfold Hub.on_message, Hub.member, Hub.template in *.
    change (field (Issuer.payload request) "channel") with (VStr Issuer.CHANNEL).
    cbn [ToString] in *. HubFacts.run_monad.
    change (Hub.key_of hub (VStr Issuer.CHANNEL))
      with (Hub.KVal (VStr Issuer.CHANNEL)) in *.
    destruct (Hub.Map_get (Hub.channels hub) (Hub.KVal (VStr Issuer.CHANNEL)))
      as [clients|] eqn:Hget; [|done].
    rewrite Hmem. cbn -[Issuer.payload request]. rewrite HubFacts.forEach_send.
    cbn -[Issuer.payload request].
    pose proof (HubFacts.Map_get_Forall NoDup _ _ _ Hwf Hget) as Hnd.
    change (Hub.sent_to w ((fun c0 => Hub.Send c0
              (Hub.broadcast_envelope w (VStr Issuer.CHANNEL)
                 (field (Issuer.payload request) "message") c0))
              <$> filter (fun c0 => hub_readyState c0 = Hub.WebSocket_OPEN) clients)
            = [echo]).
    rewrite HubFacts.sent_to_deliveries by by apply NoDup_filter.
    rewrite bool_decide_eq_true_2; [done|].
    apply list_elem_of_filter. split; [done | by apply HubFacts.Set_has_elem].
  - subst echo. unfold Hub.broadcast_envelope. cbn. by rewrite Nat.eqb_refl.
  - pose proof (IssuerFacts.invariant_reachable uuidv4 uuidv4_inj _ _ st Hreach)
      as [Hreg _].
    destruct (IssuerFacts.pending_call_waiting uuidv4 st i k Hreg Hik)
      as (c & Hk & Hi & Hcon & Htim & Hset).
    assert (Issuer.step uuidv4 Number_toString Object_toString st
              (Issuer.SockMessage s (Json echo))
            = Issuer.Running
                (Issuer.on_message Number_toString Object_toString (Json echo) st))
      as -> by (destruct Hs as [Hs|Hs]; cbn; by rewrite Hs).
    unfold Issuer.on_message. subst echo request. cbn. rewrite Hik. cbn.
    eexists _, _. split_and!; [done | | | apply lookup_delete_eq].
    + cbn. rewrite list_lookup_alter_eq, Hk. done.
    + unfold Issuer.outcome. cbn. by rewrite Hcon, Hset.
Qed.

End Echo.

Lemma own_request_echo_settles_call_witness :
  let request := Issuer.RequestFrame "uuid-1" "get_selection" (VObj []) in
  let echo := Hub.broadcast_envelope Relay.issuer_endpoint (VStr Issuer.CHANNEL)
                (field (Issuer.payload request) "message") Relay.issuer_endpoint in
  Hub.sent_to Relay.issuer_endpoint (Hub.effects_of
    (Hub.message Hub.sample_Number_toString Hub.sample_Object_toString
       Hub.all_open Relay.issuer_endpoint
       (Json (Issuer.payload request)) Relay.hub_joined)) = [echo] ∧
  field echo "sender" = VStr "You" ∧
  ∃ st' c',
    Issuer.step Issuer.sample_uuidv4 Hub.sample_Number_toString
      Hub.sample_Object_toString Issuer.one_outstanding
      (Issuer.SockMessage 0 (Json echo)) = Issuer.Running st' ∧
    Issuer.calls st' !! 0 = Some c' ∧
    Issuer.outcome c' = Some (Issuer.Resolved VUndefined) ∧
    Issuer.pending st' !! "uuid-1" = None.
Proof.
  apply (own_request_echo_settles_call Issuer.sample_uuidv4
           IssuerFacts.sample_uuidv4_inj Hub.sample_Number_toString
           Hub.sample_Object_toString Relay.hub_joined Hub.all_open
           Relay.issuer_endpoint Issuer.one_outstanding "uuid-1" 0 0
           "get_selection" (VObj [])).
  - by eexists.
  - vm_compute. reflexivity.
  - reflexivity.
  - apply IssuerMore.one_outstanding_reachable.
  - vm_compute. reflexivity.
  - left. vm_compute. reflexivity.
Defined.

(** C1 fails behind the Hub of this repository. Call 0 of [one_outstanding]
    waits under "uuid-1" for the reply to its request. The Hub sends that
    request back to the Issuer, tagged "You"; the [message] listener takes
    the echo for the reply, deletes the entry and resolves the call with
    the [result] of the echo, which is [undefined]. The reply of the
    Executor, which carries the result "selection" under the same id,
    arrives after it, finds no entry and changes nothing: the call has not
    resolved with the result of its reply. *)
Theorem reply_loses_to_own_echo :
  let request := Issuer.RequestFrame "uuid-1" "get_selection" (VObj []) in
  let echo := Hub.broadcast_envelope Relay.issuer_endpoint (VStr Issuer.CHANNEL)
                (field (Issuer.payload request) "message") Relay.issuer_endpoint in
  let reply := Issuer.broadcast (Issuer.reply_result "uuid-1" (VStr "selection")) in
  Issuer.pending Issuer.one_outstanding !! "uuid-1" = Some 0 ∧
  Relay.hub_to_issuer request = [echo] ∧
  field echo "sender" = VStr "You" ∧
  field (field echo "message") "result" = VUndefined ∧
  (∃ st,
     Issuer.sample_step Issuer.one_outstanding (Issuer.SockMessage 0 (Json echo))
     = Issuer.Running st ∧
     Issuer.outcome <$> Issuer.calls st !! 0
     = Some (Some (Issuer.Resolved VUndefined)) ∧
     Issuer.pending st !! "uuid-1" = None ∧
     Issuer.sample_step st (Issuer.SockMessage 0 reply) = Issuer.Running st) ∧
  ¬ Issuer.resolves_with_reply Issuer.one_outstanding [Json echo; reply] 0
      (VStr "selection").
Proof.
  intros request echo reply.
  split_and!; [vm_compute; reflexivity..| |].
  - eexists. split_and!; vm_compute; reflexivity.
  - intros (st' & Hrun & Hout). vm_compute in Hrun. injection Hrun as <-.
    vm_compute in Hout. discriminate Hout.
Qed.

End RelayFacts.

(** ** The Executor's reply at the Issuer *)

Module RoundTrip.
Import JS.

Section Reply.
Variable uuidv4 : nat → string.
Hypothesis uuidv4_inj : Inj (=) (=) uuidv4.
Variable Number_toString : float → string.
Variable Object_toString : value → completion string.
Variable World : Type.
Variable call : Executor.handler_ref → value → World → Executor.outcome * World.
Variable engine_message : exn → string.

(** X19: the reply the Executor posts is the reply the Issuer waits for.
    For a command envelope that carries the id of a waiting call, the
    Executor posts exactly one reply; delivered to the Issuer in a
    broadcast envelope, that reply settles exactly that call and removes
    its entry. The call resolves with the handler's result when the handler
    returned, and rejects with [new Error(message)] when it threw with a
    non-empty message; when the message of the exception is the empty
    string, the [error] field is falsy and the call resolves, with
    [undefined]. *)
Theorem executor_reply_settles_call st i k s command params w :
  Issuer.reachable uuidv4 Number_toString Object_toString st →
  Issuer.pending st !! i = Some k →
  Issuer.readyState st s = Some Issuer.OPEN ∨
  Issuer.readyState st s = Some Issuer.CLOSING →
  let msg := Executor.command_envelope i command params in
  let handled := Executor.dispatch World call Number_toString Object_toString
                   (VStr command) (Handlers.params_of msg) w in
  ∃ reply st' c',
    Executor.onmessage World call Number_toString Object_toString
      engine_message msg w
    = (Normal tt, handled.2, [Executor.PostMessage reply]) ∧
    Issuer.step uuidv4 Number_toString Object_toString st
      (Issuer.SockMessage s (Issuer.broadcast reply)) = Issuer.Running st' ∧
    Issuer.calls st' !! k = Some c' ∧
    Issuer.pending st' !! i = None ∧
    (∀ result, handled.1 = Executor.Returned result →
       Issuer.outcome c' = Some (Issuer.Resolved result)) ∧
    (∀ err m, handled.1 = Executor.Threw err →
       Executor.message_of engine_message err = VStr m →
       Issuer.outcome c'
       = Some (if String.eqb m "" then Issuer.Resolved VUndefined
               else Issuer.Rejected (Error m))).
Proof.
  intros Hreach Hik Hs msg handled.
  pose proof (IssuerFacts.invariant_reachable uuidv4 uuidv4_inj _ _ st Hreach)
    as [Hreg _].
  destruct (IssuerFacts.pending_call_waiting uuidv4 st i k Hreg Hik)
    as (c & Hk & Hi & Hcon & Htim & Hset).
  assert (∀ raw, Issuer.step uuidv4 Number_toString Object_toString st
                   (Issuer.SockMessage s raw)
                 = Issuer.Running
                     (Issuer.on_message Number_toString Object_toString raw st))
    as Hstep by (intros raw; destruct Hs as [Hs|Hs]; cbn; by rewrite Hs).
  unfold Executor.onmessage.
  fold (Handlers.params_of msg).
  change (prop msg "type") with (Normal (VStr "figma_command")).
  change (field msg "command") with (VStr command).
  change (field msg "id") with (VStr i).
  cbn [is_string String.eqb Ascii.eqb Bool.eqb negb].
  fold handled. destruct handled as [[result|err] w'].
  - eexists _, _, _. split; [done|]. rewrite Hstep.
    unfold Issuer.on_message, Issuer.broadcast. cbn. rewrite Hik. cbn.
    split_and!; [done | | apply lookup_delete_eq | |].
    + cbn. rewrite list_lookup_alter_eq, Hk. done.
    + intros ? [= <-]. unfold Issuer.outcome. cbn. by rewrite Hcon, Hset.
    + intros ? ? [=].
  - assert (∃ m, Executor.message_of engine_message err = VStr m) as [m Hm].
    { destruct err; by eexists. }
    rewrite Hm.
    destruct (String.eqb_spec m "") as [->|Hne].
    + eexists _, _, _. split; [done|]. rewrite Hstep.
      unfold Issuer.on_message, Issuer.broadcast. cbn. rewrite Hik. cbn.
      split_and!; [done | | apply lookup_delete_eq | |].
      * cbn. rewrite list_lookup_alter_eq, Hk. done.
      * intros ? [=].
      * intros ? m' [= <-]. rewrite Hm. intros [= <-].
        unfold Issuer.outcome. cbn. by rewrite Hcon, Hset.
    + eexists _, _, _. split; [done|]. rewrite Hstep.
      unfold Issuer.on_message, Issuer.broadcast. cbn. rewrite Hik. cbn.
      rewrite (proj2 (String.eqb_neq m "") Hne). cbn.
      split_and!; [done | | apply lookup_delete_eq | |].
      * cbn. rewrite list_lookup_alter_eq, Hk. done.
      * intros ? [=].
      * intros ? m' [= <-]. rewrite Hm. intros [= <-].
        rewrite (proj2 (String.eqb_neq m "") Hne).
        unfold Issuer.outcome. cbn. by rewrite Hcon, Hset.
Qed.

End Reply.

(** The Executor of the concrete runs answers the request of call 0 of
    [one_outstanding]: [get_node_info] throws "Node not found: 1:2". *)
Lemma executor_reply_settles_call_witness :
  let msg := Executor.command_envelope "uuid-1" "get_node_info"
               (VObj [("nodeId", VStr "1:2")]) in
  let handled := Executor.dispatch nat Executor.sample_call
                   Hub.sample_Number_toString Hub.sample_Object_toString
                   (VStr "get_node_info") (Handlers.params_of msg) 0 in
  ∃ reply st' c',
    Executor.onmessage nat Executor.sample_call Hub.sample_Number_toString
      Hub.sample_Object_toString Executor.sample_engine_message msg 0
    = (Normal tt, handled.2, [Executor.PostMessage reply]) ∧
    Issuer.step Issuer.sample_uuidv4 Hub.sample_Number_toString
      Hub.sample_Object_toString Issuer.one_outstanding
      (Issuer.SockMessage 0 (Issuer.broadcast reply)) = Issuer.Running st' ∧
    Issuer.calls st' !! 0 = Some c' ∧
    Issuer.pending st' !! "uuid-1" = None ∧
    (∀ result, handled.1 = Executor.Returned result →
       Issuer.outcome c' = Some (Issuer.Resolved result)) ∧
    (∀ err m, handled.1 = Executor.Threw err →
       Executor.message_of Executor.sample_engine_message err = VStr m →
       Issuer.outcome c'
       = Some (if String.eqb m "" then Issuer.Resolved VUndefined
               else Issuer.Rejected (Error m))).
Proof.
  apply (executor_reply_settles_call Issuer.sample_uuidv4
           IssuerFacts.sample_uuidv4_inj Hub.sample_Number_toString
           Hub.sample_Object_toString nat Executor.sample_call
           Executor.sample_engine_message Issuer.one_outstanding "uuid-1" 0 0
           "get_node_info" (VObj [("nodeId", VStr "1:2")]) 0).
  - apply IssuerMore.one_outstanding_reachable.
  - vm_compute. reflexivity.
  - left. vm_compute. reflexivity.
Defined.

End RoundTrip.
